(** * rfidSimulator: the detection and reporting engine of the Mottu yard
      simulation, embedded from [rfidSimulator.py].

    Python objects ([Moto], [RFIDReader]) are mutable and shared by
    reference, so they live in a store and the methods are computations in
    a state monad over that store.  [datetime.now()], the [random] module
    and [uuid.uuid4()] are read from oracles, one reading per call.

    Numbers: every coordinate the script produces is a Python [int]
    ([random.randint], the [READERS] table), so coordinates, fuel and
    radii are [Z]; a [float] passed to [move] or to [RFIDReader] is outside
    the model.  A result of [np.sqrt] is kept as its argument (type
    [Root]); [Root_val] is its value as a real number and [Root_float64]
    the float64 that NumPy computes.

    The engine comes twice.  The first one compares a distance with a
    radius in exact arithmetic ([Root_leb]) and never fails there.  The
    second one, [Module Float64], is the detection as the interpreter runs
    it: [np.sqrt] refuses an [int] of 2^64 or more, its result is rounded
    to float64, and the comparison is the one of float64.  The two agree
    as long as the squared distance is below 2^52 and the radius below
    2^53 in absolute value ([detect_motos_exact_zone] and the lemmas after
    it), and differ beyond: a radius of 2^26 + 1 is enough.

    Time: a [datetime] is the number of microseconds since [datetime.min];
    [get_recent_detections] fails as [timedelta] and [datetime] do when a
    value leaves their range. *)

From Stdlib Require Import ZArith Reals Lia Floats.SpecFloat.
From stdpp Require Import base option list strings gmap pretty.

#[local] Open Scope Z_scope.

(** ** Constants of the script *)

Definition PATIO_WIDTH : Z := 100.
Definition PATIO_HEIGHT : Z := 80.

Record Area := { area_x : Z; area_y : Z; area_width : Z; area_height : Z; area_color : string }.

Definition AREAS : gmap string Area :=
  <["entrada" := {| area_x := 0; area_y := 35; area_width := 10; area_height := 10; area_color := "lightblue" |}]>
  (<["saida" := {| area_x := 90; area_y := 35; area_width := 10; area_height := 10; area_color := "lightgreen" |}]>
  (<["estacionamento" := {| area_x := 20; area_y := 10; area_width := 60; area_height := 60; area_color := "lightgray" |}]>
  (<["manutencao" := {| area_x := 20; area_y := 70; area_width := 30; area_height := 10; area_color := "lightyellow" |}]>
  ∅))).

Record ReaderConfig := {
  cfg_id : Z; cfg_x : Z; cfg_y : Z; cfg_range : Z; cfg_color : string;
  cfg_name : option string (* r.get('name') *)
}.

Definition READERS : list ReaderConfig := [
  {| cfg_id := 1; cfg_x := 5;  cfg_y := 40; cfg_range := 15; cfg_color := "red";    cfg_name := None |};
  {| cfg_id := 2; cfg_x := 95; cfg_y := 40; cfg_range := 15; cfg_color := "green";  cfg_name := None |};
  {| cfg_id := 3; cfg_x := 30; cfg_y := 30; cfg_range := 20; cfg_color := "blue";   cfg_name := Some "Setor A" |};
  {| cfg_id := 4; cfg_x := 60; cfg_y := 30; cfg_range := 20; cfg_color := "blue";   cfg_name := Some "Setor B" |};
  {| cfg_id := 5; cfg_x := 30; cfg_y := 60; cfg_range := 20; cfg_color := "blue";   cfg_name := Some "Setor C" |};
  {| cfg_id := 6; cfg_x := 60; cfg_y := 60; cfg_range := 20; cfg_color := "blue";   cfg_name := Some "Setor D" |};
  {| cfg_id := 7; cfg_x := 35; cfg_y := 75; cfg_range := 15; cfg_color := "orange"; cfg_name := None |}
].

Definition MOTO_MODELS : list string :=
  ["Sport 110i"; "CG 160"; "Factor 125"; "Biz 125"; "NMax 160"; "PCX 150"].

Definition STATUSES : list string := ["disponível"; "reservada"; "em manutenção"].

(** ** [np.sqrt] of an integer, kept exact *)

Inductive Root := np_sqrt (radicand : Z).

Definition Root_val (d : Root) : R :=
  let 'np_sqrt n := d in sqrt (IZR n).

(** [distance <= r] for an integer [r]: the square root of a negative
    number is [nan], which compares false with everything. *)
Definition Root_leb (d : Root) (r : Z) : bool :=
  let 'np_sqrt n := d in (0 <=? n) && (0 <=? r) && (n <=? r * r).

(** ** [np.sqrt] in float64

    IEEE 754 binary64, as specified by [SpecFloat]: 53 bits of mantissa,
    round to nearest even. *)

Definition float64 : Type := spec_float.

(** The float64 of a Python [int]: the cast of NumPy for an int64 or
    uint64 and [int.__float__]; an integer beyond the largest float64
    gives an infinity here, where Python raises [OverflowError]. *)
Definition float_of_int (n : Z) : float64 := binary_normalize 53 1024 n 0 false.

(** The float64 that [np.sqrt] returns. *)
Definition Root_float64 (d : Root) : float64 :=
  let 'np_sqrt n := d in SFsqrt 53 1024 (float_of_int n).

(** ** Objects *)

(** A reference is the address of an object in its store. *)
Definition ref := nat.

(** One entry of [Moto.movement_history]. *)
Record Snapshot := {
  snap_timestamp : Z; snap_x : Z; snap_y : Z; snap_status : string; snap_fuel_level : Z
}.

Module Moto.
Record t := {
  id : string; model : string; status : string; fuel_level : Z;
  last_maintenance : Z; x : Z; y : Z;
  movement_history : list Snapshot;
  color : string
}.

Definition set_status (v : string) (m : t) : t :=
  {| id := id m; model := model m; status := v; fuel_level := fuel_level m;
     last_maintenance := last_maintenance m; x := x m; y := y m;
     movement_history := movement_history m; color := color m |}.
Definition set_fuel_level (v : Z) (m : t) : t :=
  {| id := id m; model := model m; status := status m; fuel_level := v;
     last_maintenance := last_maintenance m; x := x m; y := y m;
     movement_history := movement_history m; color := color m |}.
Definition set_last_maintenance (v : Z) (m : t) : t :=
  {| id := id m; model := model m; status := status m; fuel_level := fuel_level m;
     last_maintenance := v; x := x m; y := y m;
     movement_history := movement_history m; color := color m |}.
Definition set_x (v : Z) (m : t) : t :=
  {| id := id m; model := model m; status := status m; fuel_level := fuel_level m;
     last_maintenance := last_maintenance m; x := v; y := y m;
     movement_history := movement_history m; color := color m |}.
Definition set_y (v : Z) (m : t) : t :=
  {| id := id m; model := model m; status := status m; fuel_level := fuel_level m;
     last_maintenance := last_maintenance m; x := x m; y := v;
     movement_history := movement_history m; color := color m |}.
Definition set_movement_history (v : list Snapshot) (m : t) : t :=
  {| id := id m; model := model m; status := status m; fuel_level := fuel_level m;
     last_maintenance := last_maintenance m; x := x m; y := y m;
     movement_history := v; color := color m |}.
Definition set_color (v : string) (m : t) : t :=
  {| id := id m; model := model m; status := status m; fuel_level := fuel_level m;
     last_maintenance := last_maintenance m; x := x m; y := y m;
     movement_history := movement_history m; color := v |}.
End Moto.

(** One entry of [RFIDReader.detections]. *)
Record Detection := {
  det_timestamp : Z; det_moto_id : string; det_moto_model : string;
  det_moto_status : string; det_moto_x : Z; det_moto_y : Z;
  det_distance : Root
}.

Module RFIDReader.
Record t := {
  id : Z; x : Z; y : Z; range : Z; color : string; name : option string;
  detections : list Detection
}.

Definition set_detections (v : list Detection) (r : t) : t :=
  {| id := id r; x := x r; y := y r; range := range r; color := color r;
     name := name r; detections := v |}.
End RFIDReader.

(** A plotted marker ([matplotlib.lines.Line2D]): its data and colour. *)
Record Line2D := { xdata : list Z; ydata : list Z; line_color : string }.

Definition set_data (xs ys : list Z) (p : Line2D) : Line2D :=
  {| xdata := xs; ydata := ys; line_color := line_color p |}.
Definition set_color (c : string) (p : Line2D) : Line2D :=
  {| xdata := xdata p; ydata := ydata p; line_color := c |}.

(** One entry of the per-tick list [all_detections]. *)
Record TickDetection := { td_reader_id : Z; td_moto_id : string; td_timestamp : Z }.

(** The simulation object.  Figure and axes belong to the plotting library
    and are left out; of the artists, the markers of the motos and the
    status text are kept. *)
Module MottuPatioSimulation.
Record t := {
  motos : list ref;
  readers : list ref;
  events_log : list unit;   (* created empty, never written *)
  current_time : Z;
  moto_points : list Line2D;
  status_text : string
}.

Definition set_moto_points (v : list Line2D) (s : t) : t :=
  {| motos := motos s; readers := readers s; events_log := events_log s;
     current_time := current_time s; moto_points := v; status_text := status_text s |}.
Definition set_status_text (v : string) (s : t) : t :=
  {| motos := motos s; readers := readers s; events_log := events_log s;
     current_time := current_time s; moto_points := moto_points s; status_text := v |}.
End MottuPatioSimulation.

(** The dictionary returned by [generate_report]. *)
Record Report := {
  total_motos : nat;
  status_counts : gmap string nat;
  fuel_levels : gmap string nat;
  reader_detections : gmap Z nat
}.

(** ** The world: oracles and the object store *)

Record Env := {
  clock : nat -> Z;       (* the n-th reading of datetime.now(), in microseconds *)
  rand : nat -> Z;        (* the n-th raw draw of the random module *)
  uuid4 : nat -> string   (* str(uuid.uuid4()) of the n-th call *)
}.

Record State := {
  clock_reads : nat;
  rand_draws : nat;
  uuid_draws : nat;
  moto_heap : list Moto.t;
  reader_heap : list RFIDReader.t
}.

Definition with_moto_heap (h : list Moto.t) (s : State) : State :=
  {| clock_reads := clock_reads s; rand_draws := rand_draws s; uuid_draws := uuid_draws s;
     moto_heap := h; reader_heap := reader_heap s |}.
Definition with_reader_heap (h : list RFIDReader.t) (s : State) : State :=
  {| clock_reads := clock_reads s; rand_draws := rand_draws s; uuid_draws := uuid_draws s;
     moto_heap := moto_heap s; reader_heap := h |}.
Definition with_clock_reads (n : nat) (s : State) : State :=
  {| clock_reads := n; rand_draws := rand_draws s; uuid_draws := uuid_draws s;
     moto_heap := moto_heap s; reader_heap := reader_heap s |}.
Definition with_rand_draws (n : nat) (s : State) : State :=
  {| clock_reads := clock_reads s; rand_draws := n; uuid_draws := uuid_draws s;
     moto_heap := moto_heap s; reader_heap := reader_heap s |}.
Definition with_uuid_draws (n : nat) (s : State) : State :=
  {| clock_reads := clock_reads s; rand_draws := rand_draws s; uuid_draws := n;
     moto_heap := moto_heap s; reader_heap := reader_heap s |}.

(** Computations: a state transformer; [None] stands for a raised
    exception ([ValueError], [IndexError], [KeyError]) and for a reference
    that is not in the store, which Python cannot produce. *)
Definition M (A : Type) : Type := State -> option (A * State).

#[global] Instance M_ret : MRet M := fun A a s => Some (a, s).
#[global] Instance M_bind : MBind M := fun A B f c s =>
  match c s with
  | Some (a, s') => f a s'
  | None => None
  end.

Notation "c1 ;; c2" := (mbind (fun _ : unit => c2) c1)
  (at level 100, c2 at level 200, right associativity).

Definition get_moto (r : ref) : M Moto.t := fun s =>
  match moto_heap s !! r with
  | Some m => Some (m, s)
  | None => None
  end.

(** [self.attr = v] and friends: read, modify, write back at the same address. *)
Definition upd_moto (r : ref) (f : Moto.t -> Moto.t) : M unit := fun s =>
  match moto_heap s !! r with
  | Some m => Some (tt, with_moto_heap (<[r := f m]> (moto_heap s)) s)
  | None => None
  end.

Definition new_moto (m : Moto.t) : M ref := fun s =>
  Some (length (moto_heap s), with_moto_heap (moto_heap s ++ [m]) s).

Definition get_reader (r : ref) : M RFIDReader.t := fun s =>
  match reader_heap s !! r with
  | Some rd => Some (rd, s)
  | None => None
  end.

Definition upd_reader (r : ref) (f : RFIDReader.t -> RFIDReader.t) : M unit := fun s =>
  match reader_heap s !! r with
  | Some rd => Some (tt, with_reader_heap (<[r := f rd]> (reader_heap s)) s)
  | None => None
  end.

Definition new_reader (rd : RFIDReader.t) : M ref := fun s =>
  Some (length (reader_heap s), with_reader_heap (reader_heap s ++ [rd]) s).

(** [for x in l: body(acc, x)], with the loop's local variables in [acc]. *)
Fixpoint for_each {A B : Type} (l : list A) (acc : B) (body : B -> A -> M B) : M B :=
  match l with
  | [] => mret acc
  | a :: l' => acc' ← body acc a; for_each l' acc' body
  end.

(** ** The engine *)

Section Engine.
Variable env : Env.

(** *** Library calls *)

Definition datetime_now : M Z := fun s =>
  Some (clock env (clock_reads s), with_clock_reads (S (clock_reads s)) s).

(** [timedelta(days=d)], in microseconds, for the [d] of [randint(0, 90)]. *)
Definition timedelta_days (d : Z) : Z := d * 86400000000.

(** [timedelta(seconds=n)] for an [int], in microseconds.  The constructor
    splits [n] in days and seconds by floor division and raises
    [OverflowError] when there are more than 999999999 days. *)
Definition timedelta_seconds (n : Z) : M Z := fun s =>
  if decide (-999999999 <= n / 86400 <= 999999999)
  then Some (n * 1000000, s)
  else None.

(** [datetime.max], in microseconds since [datetime.min]: the last
    microsecond of the year 9999 ([date.max.toordinal()] is 3652059). *)
Definition DATETIME_MAX : Z := 3652059 * 86400000000 - 1.

(** [t - delta] for a datetime and a timedelta: [OverflowError] when the
    result is not a date of the years 1 to 9999. *)
Definition datetime_sub (t delta : Z) : M Z := fun s =>
  if decide (0 <= t - delta <= DATETIME_MAX)
  then Some (t - delta, s)
  else None.

(** A uniform draw below [n]; [n <= 0] raises [ValueError]. *)
Definition randbelow (n : Z) : M Z := fun s =>
  if decide (0 < n)
  then Some (rand env (rand_draws s) mod n, with_rand_draws (S (rand_draws s)) s)
  else None.

(** [random.randint(a, b)]: an integer of [a..b], both ends included. *)
Definition randint (a b : Z) : M Z :=
  k ← randbelow (b - a + 1); mret (a + k).

(** [random.choice(seq)]. *)
Definition choice (seq : list string) : M string :=
  k ← randbelow (Z.of_nat (length seq)); mret (nth (Z.to_nat k) seq "").

(** [str(uuid.uuid4())[:8]]. *)
Definition uuid8 : M string := fun s =>
  Some (String.substring 0 8 (uuid4 env (uuid_draws s)), with_uuid_draws (S (uuid_draws s)) s).

(** [AREAS[key]]; a missing key raises [KeyError]. *)
Definition area (key : string) : M Area := fun s =>
  match AREAS !! key with
  | Some a => Some (a, s)
  | None => None
  end.

(** *** class Moto *)

Definition record_position (self : ref) : M unit :=
  now ← datetime_now;
  upd_moto self (fun m =>
    Moto.set_movement_history
      (Moto.movement_history m ++
         [{| snap_timestamp := now; snap_x := Moto.x m; snap_y := Moto.y m;
             snap_status := Moto.status m; snap_fuel_level := Moto.fuel_level m |}]) m).

Definition update_color (self : ref) : M unit :=
  m ← get_moto self;
  if decide (Moto.status m = "disponível") then upd_moto self (Moto.set_color "green")
  else if decide (Moto.status m = "reservada") then upd_moto self (Moto.set_color "blue")
  else upd_moto self (Moto.set_color "orange").

(** [Moto(moto_id)].  The attributes are computed in the order of the
    source; [color] does not exist before [update_color] sets it and is
    the empty string until then. *)
Definition Moto_init (moto_id : option string) : M ref :=
  id ← match moto_id with
       | Some i => if decide (i = "") then uuid8 else mret i
       | None => uuid8
       end;
  model ← choice MOTO_MODELS;
  status ← choice STATUSES;
  fuel_level ← randint 10 100;
  now ← datetime_now;
  d ← randint 0 90;
  let last_maintenance := now - timedelta_days d in
  '(x, y) ←
    (if decide (status = "em manutenção") then
       a ← area "manutencao"; dx ← randint 5 (area_width a - 5);
       a' ← area "manutencao"; dy ← randint 2 (area_height a' - 2);
       mret (area_x a + dx, area_y a' + dy)
     else
       a ← area "estacionamento"; dx ← randint 5 (area_width a - 5);
       a' ← area "estacionamento"; dy ← randint 5 (area_height a' - 5);
       mret (area_x a + dx, area_y a' + dy));
  self ← new_moto {| Moto.id := id; Moto.model := model; Moto.status := status;
                     Moto.fuel_level := fuel_level; Moto.last_maintenance := last_maintenance;
                     Moto.x := x; Moto.y := y; Moto.movement_history := [];
                     Moto.color := "" |};
  record_position self;;
  update_color self;;
  mret self.

Definition move (self : ref) (dx dy : Z) : M unit :=
  upd_moto self (fun m => Moto.set_x (Moto.x m + dx) m);;
  upd_moto self (fun m => Moto.set_y (Moto.y m + dy) m);;
  upd_moto self (fun m => Moto.set_x (Z.max 0 (Z.min (Moto.x m) PATIO_WIDTH)) m);;
  upd_moto self (fun m => Moto.set_y (Z.max 0 (Z.min (Moto.y m) PATIO_HEIGHT)) m);;
  record_position self.

Definition update_status (self : ref) (new_status : string) : M unit :=
  upd_moto self (Moto.set_status new_status);;
  update_color self;;
  record_position self.

Definition update_fuel (self : ref) (amount : Z) : M unit :=
  upd_moto self (fun m =>
    Moto.set_fuel_level (Z.max 0 (Z.min 100 (Moto.fuel_level m + amount))) m);;
  record_position self.

Definition perform_maintenance (self : ref) : M unit :=
  now ← datetime_now;
  upd_moto self (Moto.set_last_maintenance now);;
  upd_moto self (Moto.set_fuel_level 100);;
  update_status self "disponível".

(** *** class RFIDReader *)

Definition RFIDReader_init (reader_id x y detection_range : Z) (color : string)
    (name : option string) : M ref :=
  new_reader {| RFIDReader.id := reader_id; RFIDReader.x := x; RFIDReader.y := y;
                RFIDReader.range := detection_range; RFIDReader.color := color;
                RFIDReader.name := name; RFIDReader.detections := [] |}.

(** [np.sqrt((self.x - moto.x)**2 + (self.y - moto.y)**2)] *)
Definition distance_to (r : RFIDReader.t) (m : Moto.t) : Root :=
  np_sqrt ((RFIDReader.x r - Moto.x m) ^ 2 + (RFIDReader.y r - Moto.y m) ^ 2).

Definition record_detection (self : ref) (moto : ref) : M unit :=
  now ← datetime_now;
  m ← get_moto moto;
  r ← get_reader self;
  upd_reader self (fun rd =>
    RFIDReader.set_detections
      (RFIDReader.detections rd ++
         [{| det_timestamp := now; det_moto_id := Moto.id m; det_moto_model := Moto.model m;
             det_moto_status := Moto.status m; det_moto_x := Moto.x m; det_moto_y := Moto.y m;
             det_distance := distance_to r m |}]) rd).

Definition detect_motos (self : ref) (motos : list ref) : M (list ref) :=
  for_each motos [] (fun detected moto =>
    r ← get_reader self;
    m ← get_moto moto;
    let distance := distance_to r m in
    if Root_leb distance (RFIDReader.range r) then
      let detected := detected ++ [moto] in
      record_detection self moto;;
      mret detected
    else mret detected).

Definition get_recent_detections (self : ref) (seconds : Z) : M (list Detection) :=
  now ← datetime_now;
  delta ← timedelta_seconds seconds;
  cutoff_time ← datetime_sub now delta;
  r ← get_reader self;
  mret (filter (fun d => cutoff_time < det_timestamp d) (RFIDReader.detections r)).

(** *** class MottuPatioSimulation *)

Definition nl : string := String (Ascii.ascii_of_nat 10) "".

(** [self.ax.plot([moto.x], [moto.y], 's', color=moto.color, markersize=8)[0]] *)
Definition plot_moto (m : Moto.t) : Line2D :=
  {| xdata := [Moto.x m]; ydata := [Moto.y m]; line_color := Moto.color m |}.

Definition setup_visualization (self : MottuPatioSimulation.t) : M MottuPatioSimulation.t :=
  moto_points ← for_each (MottuPatioSimulation.motos self) [] (fun moto_points moto =>
    m ← get_moto moto;
    mret (moto_points ++ [plot_moto m]));
  mret (MottuPatioSimulation.set_status_text ""
          (MottuPatioSimulation.set_moto_points moto_points self)).

Definition MottuPatioSimulation_init (num_motos : Z) : M MottuPatioSimulation.t :=
  motos ← for_each (seq 0 (Z.to_nat num_motos)) [] (fun motos _ =>
    moto ← Moto_init None; mret (motos ++ [moto]));
  readers ← for_each READERS [] (fun readers r =>
    reader ← RFIDReader_init (cfg_id r) (cfg_x r) (cfg_y r) (cfg_range r) (cfg_color r) (cfg_name r);
    mret (readers ++ [reader]));
  now ← datetime_now;
  setup_visualization
    {| MottuPatioSimulation.motos := motos; MottuPatioSimulation.readers := readers;
       MottuPatioSimulation.events_log := []; MottuPatioSimulation.current_time := now;
       MottuPatioSimulation.moto_points := []; MottuPatioSimulation.status_text := "" |}.

(** [sum(1 for moto in motos if cond(moto))] *)
Definition count_motos (motos : list ref) (cond : Moto.t -> bool) : M nat :=
  for_each motos 0%nat (fun total moto =>
    m ← get_moto moto;
    if cond m then mret (total + 1)%nat else mret total).

Definition is_status (st : string) (m : Moto.t) : bool := bool_decide (Moto.status m = st).

Definition update_visualization (self : MottuPatioSimulation.t) (frame : Z)
    : M ((list Line2D * string) * MottuPatioSimulation.t) :=
  moto_points ←
    for_each (imap pair (MottuPatioSimulation.motos self)) (MottuPatioSimulation.moto_points self)
      (fun moto_points '(i, moto) =>
         if decide (i < length moto_points)%nat then
           m ← get_moto moto;
           mret (alter (fun p => set_color (Moto.color m) (set_data [Moto.x m] [Moto.y m] p))
                       i moto_points)
         else mret moto_points);
  all_detections ← for_each (MottuPatioSimulation.readers self) [] (fun all_detections reader =>
    detected ← detect_motos reader (MottuPatioSimulation.motos self);
    new ← for_each detected [] (fun new moto =>
      r ← get_reader reader;
      m ← get_moto moto;
      now ← datetime_now;
      mret (new ++ [{| td_reader_id := RFIDReader.id r; td_moto_id := Moto.id m;
                       td_timestamp := now |}]));
    mret (all_detections ++ new));
  disponivel ← count_motos (MottuPatioSimulation.motos self) (is_status "disponível");
  reservada ← count_motos (MottuPatioSimulation.motos self) (is_status "reservada");
  em_manutencao ← count_motos (MottuPatioSimulation.motos self) (is_status "em manutenção");
  let status_text :=
    "Total de Motos: " +:+ pretty (length (MottuPatioSimulation.motos self)) +:+ nl +:+
    "Disponíveis: " +:+ pretty disponivel +:+ nl +:+
    "Reservadas: " +:+ pretty reservada +:+ nl +:+
    "Em Manutenção: " +:+ pretty em_manutencao +:+ nl +:+
    "Detecções RFID: " +:+ pretty (length all_detections) +:+ nl +:+
    "(Uma moto pode ser detectada" +:+ nl +:+ "por múltiplos leitores)" in
  (* self.simulate_movements() is commented out in the source *)
  mret ((moto_points, status_text),
        MottuPatioSimulation.set_status_text status_text
          (MottuPatioSimulation.set_moto_points moto_points self)).

Definition simulate_movements (self : MottuPatioSimulation.t) : M unit :=
  mret tt.

Definition generate_report (self : MottuPatioSimulation.t) : M Report :=
  let motos := MottuPatioSimulation.motos self in
  disponivel ← count_motos motos (is_status "disponível");
  reservada ← count_motos motos (is_status "reservada");
  em_manutencao ← count_motos motos (is_status "em manutenção");
  critico ← count_motos motos (fun m => Moto.fuel_level m <? 20);
  baixo ← count_motos motos (fun m => (20 <=? Moto.fuel_level m) && (Moto.fuel_level m <? 50));
  medio ← count_motos motos (fun m => (50 <=? Moto.fuel_level m) && (Moto.fuel_level m <? 80));
  alto ← count_motos motos (fun m => 80 <=? Moto.fuel_level m);
  reader_detections ← for_each (MottuPatioSimulation.readers self) ∅ (fun d reader =>
    r ← get_reader reader;
    mret (<[RFIDReader.id r := length (RFIDReader.detections r)]> d));
  mret {| total_motos := length motos;
          status_counts :=
            <["em manutenção" := em_manutencao]>
            (<["reservada" := reservada]> (<["disponível" := disponivel]> ∅));
          fuel_levels :=
            <["alto (>80%)" := alto]> (<["médio (50-80%)" := medio]>
            (<["baixo (20-50%)" := baixo]> (<["crítico (<20%)" := critico]> ∅)));
          reader_detections := reader_detections |}.

End Engine.

(** ** The detection in float64

    The methods that reach [np.sqrt], as the interpreter runs them.  The
    other methods are those of the engine above. *)

Module Float64.
Section Engine.
Variable env : Env.

(** [np.sqrt(n)] for a Python [int]: NumPy takes an [int] of the range of
    int64 or uint64 to float64 and returns a float64; for any other [int]
    the array is one of objects and the call raises [TypeError]. *)
Definition sqrt_int (n : Z) : M Root := fun s =>
  if decide (- 2 ^ 63 <= n < 2 ^ 64) then Some (np_sqrt n, s) else None.

(** [distance <= r] for a float64 and a Python [int]: the [int] is taken
    to float64 and the two float64 are compared.  For an [int] too large
    for float64 NumPy 2 raises [OverflowError], as modelled here; NumPy 1
    compares such an [int] exactly. *)
Definition le_int (distance : Root) (r : Z) : M bool := fun s =>
  match float_of_int r with
  | S754_infinity _ => None
  | limit => Some (SFleb (Root_float64 distance) limit, s)
  end.

Definition record_detection (self : ref) (moto : ref) : M unit :=
  now ← datetime_now env;
  m ← get_moto moto;
  r ← get_reader self;
  distance ← sqrt_int ((RFIDReader.x r - Moto.x m) ^ 2 + (RFIDReader.y r - Moto.y m) ^ 2);
  upd_reader self (fun rd =>
    RFIDReader.set_detections
      (RFIDReader.detections rd ++
         [{| det_timestamp := now; det_moto_id := Moto.id m; det_moto_model := Moto.model m;
             det_moto_status := Moto.status m; det_moto_x := Moto.x m; det_moto_y := Moto.y m;
             det_distance := distance |}]) rd).

Definition detect_motos (self : ref) (motos : list ref) : M (list ref) :=
  for_each motos [] (fun detected moto =>
    r ← get_reader self;
    m ← get_moto moto;
    distance ← sqrt_int ((RFIDReader.x r - Moto.x m) ^ 2 + (RFIDReader.y r - Moto.y m) ^ 2);
    near ← le_int distance (RFIDReader.range r);
    if near : bool then
      let detected := detected ++ [moto] in
      record_detection self moto;;
      mret detected
    else mret detected).

Definition update_visualization (self : MottuPatioSimulation.t) (frame : Z)
    : M ((list Line2D * string) * MottuPatioSimulation.t) :=
  moto_points ←
    for_each (imap pair (MottuPatioSimulation.motos self)) (MottuPatioSimulation.moto_points self)
      (fun moto_points '(i, moto) =>
         if decide (i < length moto_points)%nat then
           m ← get_moto moto;
           mret (alter (fun p => set_color (Moto.color m) (set_data [Moto.x m] [Moto.y m] p))
                       i moto_points)
         else mret moto_points);
  all_detections ← for_each (MottuPatioSimulation.readers self) [] (fun all_detections reader =>
    detected ← detect_motos reader (MottuPatioSimulation.motos self);
    new ← for_each detected [] (fun new moto =>
      r ← get_reader reader;
      m ← get_moto moto;
      now ← datetime_now env;
      mret (new ++ [{| td_reader_id := RFIDReader.id r; td_moto_id := Moto.id m;
                       td_timestamp := now |}]));
    mret (all_detections ++ new));
  disponivel ← count_motos (MottuPatioSimulation.motos self) (is_status "disponível");
  reservada ← count_motos (MottuPatioSimulation.motos self) (is_status "reservada");
  em_manutencao ← count_motos (MottuPatioSimulation.motos self) (is_status "em manutenção");
  let status_text :=
    "Total de Motos: " +:+ pretty (length (MottuPatioSimulation.motos self)) +:+ nl +:+
    "Disponíveis: " +:+ pretty disponivel +:+ nl +:+
    "Reservadas: " +:+ pretty reservada +:+ nl +:+
    "Em Manutenção: " +:+ pretty em_manutencao +:+ nl +:+
    "Detecções RFID: " +:+ pretty (length all_detections) +:+ nl +:+
    "(Uma moto pode ser detectada" +:+ nl +:+ "por múltiplos leitores)" in
  (* self.simulate_movements() is commented out in the source *)
  mret ((moto_points, status_text),
        MottuPatioSimulation.set_status_text status_text
          (MottuPatioSimulation.set_moto_points moto_points self)).

(** [run_simulation] hands [update_visualization] to matplotlib's
    [FuncAnimation], which calls it with frame numbers of its choosing
    until the window is closed.  The list [frames] stands for the calls
    that the animation makes, whatever they are: one tick per frame number,
    on the simulation object as the tick before left it. *)
Definition run_frames (sim : MottuPatioSimulation.t) (frames : list Z)
    : M MottuPatioSimulation.t :=
  for_each frames sim (fun sim frame =>
    '(_, sim') ← update_visualization sim frame; mret sim').

(** [run_mottu_rfid_simulation]: the simulation is built, the animation
    runs its frames, and the report is made.  The function prints the
    report and returns the simulation; the report is returned here with
    the simulation in place of the printed lines. *)
Definition session (num_motos : Z) (frames : list Z)
    : M (MottuPatioSimulation.t * Report) :=
  sim ← MottuPatioSimulation_init env num_motos;
  sim' ← run_frames sim frames;
  report ← generate_report sim';
  mret (sim', report).

End Engine.
End Float64.

(** * The vocabulary of the specification *)

(** ** Runs *)

(** [returns c s Q]: run from [s], the computation [c] finishes normally
    with a result and a final state that satisfy [Q]. *)
Definition returns {A : Type} (c : M A) (s : State) (Q : A -> State -> Prop) : Prop :=
  match c s with
  | Some (a, s') => Q a s'
  | None => False
  end.

(** [k] more clock readings, and the moto at [self] replaced by [m']. *)
Definition st_moto (s : State) (self : ref) (m' : Moto.t) (k : nat) : State :=
  {| clock_reads := clock_reads s + k; rand_draws := rand_draws s;
     uuid_draws := uuid_draws s;
     moto_heap := <[self := m']> (moto_heap s); reader_heap := reader_heap s |}.

(** ** Entities *)

(** The snapshot of [m] that [record_position] takes at time [now]. *)
Definition snapshot_of (now : Z) (m : Moto.t) : Snapshot :=
  {| snap_timestamp := now; snap_x := Moto.x m; snap_y := Moto.y m;
     snap_status := Moto.status m; snap_fuel_level := Moto.fuel_level m |}.

(** [m] with that snapshot at the end of its history. *)
Definition recorded (now : Z) (m : Moto.t) : Moto.t :=
  Moto.set_movement_history (Moto.movement_history m ++ [snapshot_of now m]) m.

(** The colour that [update_color] gives to a status. *)
Definition color_of (status : string) : string :=
  if decide (status = "disponível") then "green"
  else if decide (status = "reservada") then "blue"
  else "orange".

(** [max(lo, min(v, hi))] *)
Definition clamp (lo hi v : Z) : Z := Z.max lo (Z.min v hi).

(** The position is inside the yard, borders included. *)
Definition in_yard (m : Moto.t) : Prop :=
  0 <= Moto.x m <= PATIO_WIDTH /\ 0 <= Moto.y m <= PATIO_HEIGHT.

(** What [Moto.__init__] leaves in the new object. *)
Record fresh_moto (m : Moto.t) : Prop := {
  fresh_model : Moto.model m ∈ MOTO_MODELS;
  fresh_status : Moto.status m ∈ STATUSES;
  fresh_fuel : 10 <= Moto.fuel_level m <= 100;
  fresh_zone :
    if decide (Moto.status m = "em manutenção")
    then 25 <= Moto.x m <= 45 /\ 72 <= Moto.y m <= 78
    else 25 <= Moto.x m <= 75 /\ 15 <= Moto.y m <= 65;
  fresh_history : exists now, Moto.movement_history m = [snapshot_of now m];
  fresh_color : Moto.color m = color_of (Moto.status m)
}.

(** The fuel level is a percentage. *)
Definition fuel_ok (m : Moto.t) : Prop := 0 <= Moto.fuel_level m <= 100.

(** [m'] is [m] after one more snapshot, taken at [now], of its own state. *)
Definition appends_snapshot (now : Z) (m m' : Moto.t) : Prop :=
  Moto.movement_history m' = Moto.movement_history m ++ [snapshot_of now m'].

(** ** Readers *)

(** The Euclidean distance between a reader and a moto, as a real number. *)
Definition euclid (r : RFIDReader.t) (m : Moto.t) : R :=
  sqrt ((IZR (RFIDReader.x r) - IZR (Moto.x m)) ^ 2 +
        (IZR (RFIDReader.y r) - IZR (Moto.y m)) ^ 2)%R.

(** The test of [detect_motos] on one moto. *)
Definition in_range (r : RFIDReader.t) (m : Moto.t) : bool :=
  Root_leb (distance_to r m) (RFIDReader.range r).

(** The same test on a reference. *)
Definition detectable (s : State) (r : RFIDReader.t) (moto : ref) : bool :=
  match moto_heap s !! moto with
  | Some m => in_range r m
  | None => false
  end.

(** The moto at [moto] lies within the radius of [r]. *)
Definition within_radius (s : State) (r : RFIDReader.t) (moto : ref) : Prop :=
  exists m, moto_heap s !! moto = Some m /\ (euclid r m <= IZR (RFIDReader.range r))%R.

(** The entry that [record_detection] appends. *)
Definition detection_of (now : Z) (r : RFIDReader.t) (m : Moto.t) : Detection :=
  {| det_timestamp := now; det_moto_id := Moto.id m; det_moto_model := Moto.model m;
     det_moto_status := Moto.status m; det_moto_x := Moto.x m; det_moto_y := Moto.y m;
     det_distance := distance_to r m |}.

(** The entries of one pass over the detected motos [ms]; the [k]-th
    reading of the clock stamps the first of them. *)
Fixpoint log_events (now_at : nat -> Z) (k : nat) (r : RFIDReader.t) (ms : list Moto.t)
    : list Detection :=
  match ms with
  | [] => []
  | m :: ms' => detection_of (now_at k) r m :: log_events now_at (S k) r ms'
  end.

(** [k] more clock readings, and the reader at [self] replaced by [r']. *)
Definition st_reader (s : State) (self : ref) (r' : RFIDReader.t) (k : nat) : State :=
  {| clock_reads := clock_reads s + k; rand_draws := rand_draws s;
     uuid_draws := uuid_draws s;
     moto_heap := moto_heap s; reader_heap := <[self := r']> (reader_heap s) |}.

(** Every reference of the list points to a moto of the store. *)
Definition valid_motos (s : State) (motos : list ref) : Prop :=
  Forall (fun moto => is_Some (moto_heap s !! moto)) motos.

(** The objects behind a list of references. *)
Fixpoint deref (s : State) (motos : list ref) : list Moto.t :=
  match motos with
  | [] => []
  | moto :: motos' =>
      match moto_heap s !! moto with
      | Some m => m :: deref s motos'
      | None => deref s motos'
      end
  end.

(** The store after [detect_motos]: only the log of the reader has grown,
    by one entry per detected moto, in the order of detection. *)
Definition st_detected (env : Env) (s : State) (self : ref) (r : RFIDReader.t)
    (detected : list ref) : State :=
  st_reader s self
    (RFIDReader.set_detections
       (RFIDReader.detections r ++
          log_events (clock env) (clock_reads s) r (deref s detected)) r)
    (length detected).

(** The recorded distance of an entry is within the radius of the reader. *)
Definition event_in_range (r : RFIDReader.t) (e : Detection) : Prop :=
  (Root_val (det_distance e) <= IZR (RFIDReader.range r))%R.

(** The window of [seconds] before [now] can be computed: the window is a
    [timedelta] and its start is a [datetime]. *)
Definition window_ok (now seconds : Z) : Prop :=
  -999999999 <= seconds / 86400 <= 999999999 /\
  0 <= now - seconds * 1000000 <= DATETIME_MAX.


(** ** Simulations *)

(** Every reference of the list points to a reader of the store. *)
Definition valid_readers (s : State) (readers : list ref) : Prop :=
  Forall (fun reader => is_Some (reader_heap s !! reader)) readers.

(** Every reference held by the simulation points into the store. *)
Definition wf_sim (sim : MottuPatioSimulation.t) (s : State) : Prop :=
  valid_motos s (MottuPatioSimulation.motos sim) /\
  valid_readers s (MottuPatioSimulation.readers sim).

(** The sum of the counts of a dictionary of the report. *)
Definition dict_total (d : gmap string nat) : nat :=
  map_fold (fun _ v acc => (v + acc)%nat) 0%nat d.

(** The number of motos of [ms] that satisfy [cond]. *)
Definition tally (cond : Moto.t -> bool) (ms : list Moto.t) : nat :=
  length (filter (fun m => cond m = true) ms).

(** The status is one of the three that the script gives and counts. *)
Definition known_status (m : Moto.t) : Prop := Moto.status m ∈ STATUSES.

(** The four fuel brackets of the report. *)
Definition is_critico (m : Moto.t) : bool := Moto.fuel_level m <? 20.
Definition is_baixo (m : Moto.t) : bool := (20 <=? Moto.fuel_level m) && (Moto.fuel_level m <? 50).
Definition is_medio (m : Moto.t) : bool := (50 <=? Moto.fuel_level m) && (Moto.fuel_level m <? 80).
Definition is_alto (m : Moto.t) : bool := 80 <=? Moto.fuel_level m.

(** Every moto of the list is in the store and satisfies [P]. *)
Definition all_motos (P : Moto.t -> Prop) (s : State) (motos : list ref) : Prop :=
  Forall (fun moto => exists m, moto_heap s !! moto = Some m /\ P m) motos.

(** A call of a method of [Moto]. *)
Inductive MotoCall :=
| Move (dx dy : Z)
| UpdateStatus (new_status : string)
| UpdateFuel (amount : Z)
| PerformMaintenance.

(** The call [c] on the moto at [self]. *)
Definition call_moto (env : Env) (self : ref) (c : MotoCall) : M unit :=
  match c with
  | Move dx dy => move env self dx dy
  | UpdateStatus new_status => update_status env self new_status
  | UpdateFuel amount => update_fuel env self amount
  | PerformMaintenance => perform_maintenance env self
  end.

(** A call that keeps to the three statuses of the script; its
    [update_color] takes whatever is neither 'disponível' nor 'reservada'
    for 'em manutenção'. *)
Definition known_call (c : MotoCall) : Prop :=
  match c with
  | UpdateStatus new_status => new_status ∈ STATUSES
  | _ => True
  end.

(** The states a simulation goes through: it is built by
    [MottuPatioSimulation(num_motos)], the animation runs
    [update_visualization] any number of times, and the methods of its
    motos may be called in between. *)
Inductive sim_reach (env : Env) : MottuPatioSimulation.t -> State -> Prop :=
| reach_init num_motos s0 sim s :
    MottuPatioSimulation_init env num_motos s0 = Some (sim, s) ->
    sim_reach env sim s
| reach_tick sim s frame out sim' s' :
    sim_reach env sim s ->
    update_visualization env sim frame s = Some (out, sim', s') ->
    sim_reach env sim' s'
| reach_call sim s moto c s' :
    sim_reach env sim s ->
    moto ∈ MottuPatioSimulation.motos sim ->
    known_call c ->
    call_moto env moto c s = Some (tt, s') ->
    sim_reach env sim s'.

(** ** Sequences of calls on one moto *)

(** The calls [cs] on the moto at [self], one after the other. *)
Definition calls_moto (env : Env) (self : ref) (cs : list MotoCall) : M unit :=
  for_each cs tt (fun _ c => call_moto env self c).

(** The number of clock readings of a call. *)
Definition call_reads (c : MotoCall) : nat :=
  match c with
  | PerformMaintenance => 2
  | _ => 1
  end.

(** The object after the call [c], when the clock has been read [k] times
    before. *)
Definition call_effect (now_at : nat -> Z) (k : nat) (c : MotoCall) (m : Moto.t) : Moto.t :=
  match c with
  | Move dx dy =>
      recorded (now_at k)
        (Moto.set_y (clamp 0 PATIO_HEIGHT (Moto.y m + dy))
           (Moto.set_x (clamp 0 PATIO_WIDTH (Moto.x m + dx)) m))
  | UpdateStatus new_status =>
      recorded (now_at k)
        (Moto.set_color (color_of new_status) (Moto.set_status new_status m))
  | UpdateFuel amount =>
      recorded (now_at k)
        (Moto.set_fuel_level (clamp 0 100 (Moto.fuel_level m + amount)) m)
  | PerformMaintenance =>
      recorded (now_at (S k))
        (Moto.set_color "green" (Moto.set_status "disponível"
           (Moto.set_fuel_level 100 (Moto.set_last_maintenance (now_at k) m))))
  end.

Fixpoint calls_effect (now_at : nat -> Z) (k : nat) (cs : list MotoCall) (m : Moto.t)
    : Moto.t :=
  match cs with
  | [] => m
  | c :: cs' => calls_effect now_at (k + call_reads c) cs' (call_effect now_at k c m)
  end.

Fixpoint calls_reads (cs : list MotoCall) : nat :=
  match cs with
  | [] => 0
  | c :: cs' => call_reads c + calls_reads cs'
  end.

(** The colour is the one of the status: green for 'disponível', blue for
    'reservada', orange for anything else. *)
Definition color_matches (m : Moto.t) : Prop :=
  (Moto.status m = "disponível" /\ Moto.color m = "green") \/
  (Moto.status m = "reservada" /\ Moto.color m = "blue") \/
  (Moto.status m <> "disponível" /\ Moto.status m <> "reservada" /\ Moto.color m = "orange").

(** The last snapshot of the history shows the moto as it is now. *)
Definition history_up_to_date (m : Moto.t) : Prop :=
  exists now, last (Moto.movement_history m) = Some (snapshot_of now m).

(** ** Creation *)

(** The identifier of a new moto and the number of uuids drawn for it: the
    given one, unless there is none or it is empty. *)
Definition given_id (env : Env) (s : State) (moto_id : option string) : string * nat :=
  match moto_id with
  | Some i =>
      if decide (i = "") then (String.substring 0 8 (uuid4 env (uuid_draws s)), 1%nat)
      else (i, 0%nat)
  | None => (String.substring 0 8 (uuid4 env (uuid_draws s)), 1%nat)
  end.

(** The area of [AREAS] in which a moto of a given status is created. *)
Definition home_area (status : string) : string :=
  if decide (status = "em manutenção") then "manutencao" else "estacionamento".

(** The position is inside the rectangle of the area, off its border. *)
Definition inside_area (a : Area) (m : Moto.t) : Prop :=
  area_x a < Moto.x m < area_x a + area_width a /\
  area_y a < Moto.y m < area_y a + area_height a.

(** The margins that creation keeps in the area of a status: to the left
    and right borders, and to the lower and upper borders. *)
Definition home_margin (status : string) : Z * Z :=
  if decide (status = "em manutenção") then (5, 2) else (5, 5).

(** The position keeps [mx] to the left and right borders of the area and
    [my] to the lower and upper ones. *)
Definition off_border (a : Area) (mx my : Z) (m : Moto.t) : Prop :=
  area_x a + mx <= Moto.x m <= area_x a + area_width a - mx /\
  area_y a + my <= Moto.y m <= area_y a + area_height a - my.

(** All that [Moto.__init__], run from [s], leaves in the new object. *)
Record created_moto (env : Env) (s : State) (moto_id : option string) (m : Moto.t)
    : Prop := {
  created_fresh : fresh_moto m;
  created_id : Moto.id m = (given_id env s moto_id).1;
  created_last_maintenance :
    exists days, 0 <= days <= 90 /\
      Moto.last_maintenance m = clock env (clock_reads s) - days * 86400000000;
  created_history :
    Moto.movement_history m = [snapshot_of (clock env (S (clock_reads s))) m]
}.

(** ** Log entries *)


(** Two readers at the same place. *)
Definition same_place (r1 r2 : RFIDReader.t) : Prop :=
  RFIDReader.x r1 = RFIDReader.x r2 /\ RFIDReader.y r1 = RFIDReader.y r2.

(** The moto at [moto] is at the very position of [r]. *)
Definition at_reader (s : State) (r : RFIDReader.t) (moto : ref) : Prop :=
  exists m, moto_heap s !! moto = Some m /\
            Moto.x m = RFIDReader.x r /\ Moto.y m = RFIDReader.y r.

(** ** Ticks and runs *)

(** The text that a tick writes in the status box. *)
Definition status_text_of (total disponivel reservada em_manutencao deteccoes : nat)
    : string :=
  "Total de Motos: " +:+ pretty total +:+ nl +:+
  "Disponíveis: " +:+ pretty disponivel +:+ nl +:+
  "Reservadas: " +:+ pretty reservada +:+ nl +:+
  "Em Manutenção: " +:+ pretty em_manutencao +:+ nl +:+
  "Detecções RFID: " +:+ pretty deteccoes +:+ nl +:+
  "(Uma moto pode ser detectada" +:+ nl +:+ "por múltiplos leitores)".

(** The markers after the first loop of a tick: the marker of index [k],
    [k + 1], ... is redrawn for the moto of the same rank, as long as there
    is a marker of that index. *)
Fixpoint refresh (s : State) (k : nat) (motos : list ref) (points : list Line2D)
    : list Line2D :=
  match motos with
  | [] => points
  | moto :: motos' =>
      refresh s (S k) motos'
        (if decide (k < length points)%nat then
           match moto_heap s !! moto with
           | Some m =>
               alter (fun p => set_color (Moto.color m) (set_data [Moto.x m] [Moto.y m] p))
                 k points
           | None => points
           end
         else points)
  end.

(** The number of times [a] is in the list. *)
Definition occ (a : ref) (l : list ref) : nat := length (filter (fun b => b = a) l).

(** The reader that [RFIDReader(...)] builds from an entry of [READERS]. *)
Definition reader_of_config (c : ReaderConfig) : RFIDReader.t :=
  {| RFIDReader.id := cfg_id c; RFIDReader.x := cfg_x c; RFIDReader.y := cfg_y c;
     RFIDReader.range := cfg_range c; RFIDReader.color := cfg_color c;
     RFIDReader.name := cfg_name c; RFIDReader.detections := [] |}.

(** The run of [Float64.run_frames] on the engine in exact arithmetic. *)
Definition run_frames (env : Env) (sim : MottuPatioSimulation.t) (frames : list Z)
    : M MottuPatioSimulation.t :=
  for_each frames sim (fun sim frame =>
    '(_, sim') ← update_visualization env sim frame; mret sim').

(** The readers of the list have identifiers of their own: two references
    to readers with the same identifier are the same reference. *)
Definition distinct_ids (s : State) (readers : list ref) : Prop :=
  forall a b ra rb,
    a ∈ readers -> b ∈ readers ->
    reader_heap s !! a = Some ra -> reader_heap s !! b = Some rb ->
    RFIDReader.id ra = RFIDReader.id rb -> a = b.

(** The test of [known_status], computed. *)
Definition has_known_status (m : Moto.t) : bool :=
  is_status "disponível" m || is_status "reservada" m || is_status "em manutenção" m.

(** ** The detection in float64 *)

(** The test of [Float64.detect_motos] on one moto: the value of
    [distance <= self.range], and [None] where the interpreter raises. *)
Definition float64_in_range (r : RFIDReader.t) (m : Moto.t) : option bool :=
  let n := (RFIDReader.x r - Moto.x m) ^ 2 + (RFIDReader.y r - Moto.y m) ^ 2 in
  if decide (- 2 ^ 63 <= n < 2 ^ 64) then
    match float_of_int (RFIDReader.range r) with
    | S754_infinity _ => None
    | limit => Some (SFleb (Root_float64 (np_sqrt n)) limit)
    end
  else None.

(** The moto at [moto] passes that test. *)
Definition float64_detects (s : State) (r : RFIDReader.t) (moto : ref) : Prop :=
  exists m, moto_heap s !! moto = Some m /\ float64_in_range r m = Some true.

#[global] Instance float64_detects_dec s r moto : Decision (float64_detects s r moto).
Proof.
  unfold float64_detects. destruct (moto_heap s !! moto) as [m|].
  - destruct (decide (float64_in_range r m = Some true)).
    + left. eauto.
    + right. by intros (? & [= <-] & ?).
  - right. by intros (? & ? & ?).
Defined.

(** The test raises on no moto of the list. *)
Definition float64_defined (s : State) (r : RFIDReader.t) (motos : list ref) : Prop :=
  forall moto m, moto ∈ motos -> moto_heap s !! moto = Some m ->
    is_Some (float64_in_range r m).

(** Numbers on which float64 loses nothing: a squared distance below 2^52
    and a radius below 2^53 in absolute value. *)
Definition float64_exact (r : RFIDReader.t) (m : Moto.t) : Prop :=
  (RFIDReader.x r - Moto.x m) ^ 2 + (RFIDReader.y r - Moto.y m) ^ 2 < 2 ^ 52 /\
  - 2 ^ 53 < RFIDReader.range r < 2 ^ 53.

(** This holds of the reader [r] and every moto of the list. *)
Definition exact_on (s : State) (r : RFIDReader.t) (motos : list ref) : Prop :=
  forall moto m, moto ∈ motos -> moto_heap s !! moto = Some m -> float64_exact r m.

(** And of every reader of a list. *)
Definition exact_zone (s : State) (readers motos : list ref) : Prop :=
  forall reader r, reader ∈ readers -> reader_heap s !! reader = Some r ->
    exact_on s r motos.

(** From [s] to [s'] no moto has changed, and of the readers only the logs. *)
Definition same_geometry (s s' : State) : Prop :=
  moto_heap s' = moto_heap s /\
  forall a : ref,
    match reader_heap s !! a with
    | Some r => exists v, reader_heap s' !! a = Some (RFIDReader.set_detections v r)
    | None => reader_heap s' !! a = None
    end.

#[global] Instance float64_exact_dec r m : Decision (float64_exact r m).
Proof. unfold float64_exact. apply _. Defined.

(** [exact_on] and [exact_zone], computed. *)
Definition exact_onb (s : State) (r : RFIDReader.t) (motos : list ref) : bool :=
  forallb (fun moto : ref =>
    match moto_heap s !! moto with
    | Some m => bool_decide (float64_exact r m)
    | None => true
    end) motos.

Definition exact_zoneb (s : State) (readers motos : list ref) : bool :=
  forallb (fun reader : ref =>
    match reader_heap s !! reader with
    | Some r => exact_onb s r motos
    | None => true
    end) readers.

(** ** Concrete data *)

(** A clock that advances by one microsecond per reading, and fixed draws. *)
Definition env0 : Env :=
  {| clock := fun n => 1000 + Z.of_nat n;
     rand := fun n => 7 * Z.of_nat n + 3;
     uuid4 := fun _ => "3f2b8c1e-7a4d-4c59-9e0b-51d2a6f08c77" |}.

(** A moto at a given place, with a given fuel level and status. *)
Definition moto_at (x y fuel : Z) (status : string) : Moto.t :=
  {| Moto.id := "3f2b8c1e"; Moto.model := "CG 160"; Moto.status := status;
     Moto.fuel_level := fuel; Moto.last_maintenance := 0; Moto.x := x; Moto.y := y;
     Moto.movement_history := []; Moto.color := color_of status |}.

(** The reader of the entry, as in [READERS]. *)
Definition reader_1 : RFIDReader.t :=
  {| RFIDReader.id := 1; RFIDReader.x := 5; RFIDReader.y := 40; RFIDReader.range := 15;
     RFIDReader.color := "red"; RFIDReader.name := None; RFIDReader.detections := [] |}.

(** A yard with the entry reader and five motos: on the reader, far from
    it, exactly on its radius, one in maintenance with little fuel, and
    one near the right edge. *)
Definition yard0 : State :=
  {| clock_reads := 0; rand_draws := 0; uuid_draws := 0;
     moto_heap := [moto_at 5 40 50 "disponível"; moto_at 50 40 50 "reservada";
                   moto_at 20 40 50 "disponível"; moto_at 30 75 10 "em manutenção";
                   moto_at 90 40 50 "disponível"];
     reader_heap := [reader_1] |}.

Definition empty_store : State :=
  {| clock_reads := 0; rand_draws := 0; uuid_draws := 0; moto_heap := []; reader_heap := [] |}.

Definition no_sim : MottuPatioSimulation.t :=
  {| MottuPatioSimulation.motos := []; MottuPatioSimulation.readers := [];
     MottuPatioSimulation.events_log := []; MottuPatioSimulation.current_time := 0;
     MottuPatioSimulation.moto_points := []; MottuPatioSimulation.status_text := "" |}.

(** A simulation of two motos: built, one moto reserved, one tick. *)
Definition sim2_built : MottuPatioSimulation.t * State :=
  Eval vm_compute in
    default (no_sim, empty_store) (MottuPatioSimulation_init env0 2 empty_store).

Definition sim2_reserved : State :=
  Eval vm_compute in
    default empty_store (snd <$> update_status env0 0%nat "reservada" sim2_built.2).

Definition sim2_ticked : MottuPatioSimulation.t * State :=
  Eval vm_compute in
    default (no_sim, empty_store)
      ((fun '(_, sim, s) => (sim, s)) <$> update_visualization env0 sim2_built.1 0 sim2_reserved).

(** A reader at the place of the entry reader, with another radius. *)
Definition reader_radius (detection_range : Z) : RFIDReader.t :=
  {| RFIDReader.id := 1; RFIDReader.x := 5; RFIDReader.y := 40;
     RFIDReader.range := detection_range;
     RFIDReader.color := "red"; RFIDReader.name := None; RFIDReader.detections := [] |}.

(** The motos of [yard0] with four readers at the same place: the entry
    reader, a wide one, one whose radius is 0 and one whose radius is
    negative. *)
Definition yard_radii : State :=
  {| clock_reads := 0; rand_draws := 0; uuid_draws := 0;
     moto_heap := moto_heap yard0;
     reader_heap := [reader_1; reader_radius 50; reader_radius 0; reader_radius (-1)] |}.

(** A clock of the year 2025 that advances by 40 seconds per reading. *)
Definition env_2025 : Env :=
  {| clock := fun n => 63871286400000000 + 40000000 * Z.of_nat n;
     rand := fun n => 7 * Z.of_nat n + 3;
     uuid4 := fun _ => "3f2b8c1e-7a4d-4c59-9e0b-51d2a6f08c77" |}.

(** A reader of radius 2^26 + 1 and, in its store, a moto whose squared
    distance to it is the square of this radius plus one. *)
Definition reader_far : RFIDReader.t :=
  {| RFIDReader.id := 9; RFIDReader.x := 0; RFIDReader.y := 0; RFIDReader.range := 67108865;
     RFIDReader.color := "red"; RFIDReader.name := None; RFIDReader.detections := [] |}.

Definition yard_far : State :=
  {| clock_reads := 0; rand_draws := 0; uuid_draws := 0;
     moto_heap := [moto_at 67108865 1 50 "disponível"];
     reader_heap := [reader_far] |}.

(** [yard0] after one detection of the entry reader, run in float64 with
    the clock of 2025, and this reader then: two entries, 40 seconds
    apart. *)
Definition yard0_logged : State :=
  Eval vm_compute in
    default empty_store (snd <$> Float64.detect_motos env_2025 0%nat [0; 1; 2]%nat yard0).

Definition reader_1_logged : RFIDReader.t :=
  Eval vm_compute in default reader_1 (reader_heap yard0_logged !! 0%nat).

(** The reader of sector D, as in [READERS]. *)
Definition reader_6 : RFIDReader.t :=
  {| RFIDReader.id := 6; RFIDReader.x := 60; RFIDReader.y := 60; RFIDReader.range := 20;
     RFIDReader.color := "blue"; RFIDReader.name := Some "Setor D";
     RFIDReader.detections := [] |}.

(** * Reasoning about computations *)

Lemma returns_iff {A} (c : M A) s (Q : A -> State -> Prop) :
  returns c s Q <-> exists a s', c s = Some (a, s') /\ Q a s'.
Proof.
  unfold returns. destruct (c s) as [[a s']|].
  - split; [eauto | intros (? & ? & [= <- <-] & ?); done].
  - split; [done | intros (? & ? & ? & ?); done].
Qed.

Lemma returns_ret {A} (a : A) s (Q : A -> State -> Prop) :
  Q a s -> returns (mret a) s Q.
Proof. done. Qed.

Lemma returns_bind {A B} (c : M A) (f : A -> M B) s (Q : B -> State -> Prop) :
  returns c s (fun a s' => returns (f a) s' Q) -> returns (c ≫= f) s Q.
Proof.
  unfold returns, mbind, M_bind. by destruct (c s) as [[a s']|].
Qed.

Lemma returns_mono {A} (c : M A) s (P Q : A -> State -> Prop) :
  returns c s P -> (forall a s', P a s' -> Q a s') -> returns c s Q.
Proof.
  unfold returns. destruct (c s) as [[a s']|]; [eauto | done].
Qed.

Lemma returns_eq {A} (c : M A) s a s' (Q : A -> State -> Prop) :
  c s = Some (a, s') -> Q a s' -> returns c s Q.
Proof. unfold returns. by intros ->. Qed.

Lemma bind_eq {A B} (c : M A) (f : A -> M B) s a s' :
  c s = Some (a, s') -> (c ≫= f) s = f a s'.
Proof. unfold mbind, M_bind. by intros ->. Qed.

(** The invariant of a loop: it holds of the initial accumulator and every
    pass of the body, on an element of the list, keeps it. *)
Lemma returns_for_each_from {A B} (I : list A -> B -> State -> Prop)
    (body : B -> A -> M B) (l : list A) :
  (forall done a acc s, a ∈ l -> I done acc s ->
     returns (body acc a) s (fun acc' s' => I (done ++ [a]) acc' s')) ->
  forall done acc s, I done acc s ->
    returns (for_each l acc body) s (fun acc' s' => I (done ++ l) acc' s').
Proof.
  induction l as [|a l IH]; intros Hbody done acc s HI; simpl.
  - rewrite app_nil_r. by apply returns_ret.
  - apply returns_bind. eapply returns_mono; [apply Hbody; [left | done]|].
    intros acc' s' HI'. simpl. eapply returns_mono.
    + apply IH; [|exact HI']. intros ? ? ? ? ?. apply Hbody. by right.
    + intros acc'' s''. by rewrite <- app_assoc.
Qed.

Lemma returns_for_each {A B} (I : list A -> B -> State -> Prop)
    (body : B -> A -> M B) (l : list A) :
  (forall done a acc s, a ∈ l -> I done acc s ->
     returns (body acc a) s (I (done ++ [a]))) ->
  forall acc s, I [] acc s -> returns (for_each l acc body) s (I l).
Proof.
  intros Hbody acc s HI. by apply (returns_for_each_from I body l Hbody [] acc s).
Qed.

(** ** The store after a method of one moto *)

Lemma st_moto_lookup s self m m' k :
  moto_heap s !! self = Some m -> moto_heap (st_moto s self m' k) !! self = Some m'.
Proof.
  intros H. simpl. apply list_lookup_insert_eq. by eapply lookup_lt_Some.
Qed.

Lemma st_moto_lookup_ne s self m' k r :
  r <> self -> moto_heap (st_moto s self m' k) !! r = moto_heap s !! r.
Proof. intros H. simpl. by apply list_lookup_insert_ne. Qed.

Lemma st_moto_st_moto s self m1 m2 k1 k2 :
  st_moto (st_moto s self m1 k1) self m2 k2 = st_moto s self m2 (k1 + k2).
Proof.
  unfold st_moto; simpl. f_equal; [lia | apply list_insert_insert_eq].
Qed.

Ltac st_norm := rewrite ?st_moto_st_moto; simpl; rewrite ?Nat.add_0_r; try done.

Lemma upd_moto_run self f s m :
  moto_heap s !! self = Some m ->
  upd_moto self f s = Some (tt, st_moto s self (f m) 0).
Proof.
  intros H. unfold upd_moto, st_moto, with_moto_heap. rewrite H.
  do 3 f_equal. lia.
Qed.

Lemma get_moto_run self s m :
  moto_heap s !! self = Some m -> get_moto self s = Some (m, s).
Proof. intros H. unfold get_moto. by rewrite H. Qed.

Lemma get_reader_run self s r :
  reader_heap s !! self = Some r -> get_reader self s = Some (r, s).
Proof. intros H. unfold get_reader. by rewrite H. Qed.

(** ** What each method of [Moto] does to its object *)

Section MotoMethods.
Variable env : Env.

Lemma record_position_run s self m :
  moto_heap s !! self = Some m ->
  record_position env self s =
    Some (tt, st_moto s self (recorded (clock env (clock_reads s)) m) 1).
Proof.
  intros Hself.
  unfold record_position. erewrite bind_eq by reflexivity.
  erewrite upd_moto_run by exact Hself.
  unfold st_moto; simpl. do 3 f_equal. lia.
Qed.

Lemma update_color_run s self m :
  moto_heap s !! self = Some m ->
  update_color self s = Some (tt, st_moto s self (Moto.set_color (color_of (Moto.status m)) m) 0).
Proof.
  intros Hself.
  unfold update_color. erewrite bind_eq by (by apply get_moto_run).
  unfold color_of. repeat case_decide; by apply upd_moto_run.
Qed.

Lemma update_status_run s self m new_status :
  moto_heap s !! self = Some m ->
  update_status env self new_status s =
    Some (tt, st_moto s self
      (recorded (clock env (clock_reads s))
         (Moto.set_color (color_of new_status) (Moto.set_status new_status m))) 1).
Proof.
  intros Hself.
  unfold update_status.
  erewrite bind_eq by (by apply upd_moto_run).
  erewrite bind_eq by (eapply update_color_run, st_moto_lookup, Hself).
  erewrite record_position_run by (eapply st_moto_lookup, st_moto_lookup, Hself).
  st_norm.
Qed.

Lemma update_fuel_run s self m amount :
  moto_heap s !! self = Some m ->
  update_fuel env self amount s =
    Some (tt, st_moto s self
      (recorded (clock env (clock_reads s))
         (Moto.set_fuel_level (Z.max 0 (Z.min 100 (Moto.fuel_level m + amount))) m)) 1).
Proof.
  intros Hself.
  unfold update_fuel.
  erewrite bind_eq by (by apply upd_moto_run).
  erewrite record_position_run by (eapply st_moto_lookup, Hself).
  st_norm.
Qed.

Lemma move_run s self m dx dy :
  moto_heap s !! self = Some m ->
  move env self dx dy s =
    Some (tt, st_moto s self
      (recorded (clock env (clock_reads s))
         (Moto.set_y (clamp 0 PATIO_HEIGHT (Moto.y m + dy))
            (Moto.set_x (clamp 0 PATIO_WIDTH (Moto.x m + dx)) m))) 1).
Proof.
  intros Hself.
  unfold move.
  erewrite bind_eq by (by apply upd_moto_run).
  erewrite bind_eq by (eapply upd_moto_run, st_moto_lookup, Hself).
  erewrite bind_eq by (eapply upd_moto_run, st_moto_lookup, st_moto_lookup, Hself).
  erewrite bind_eq
    by (eapply upd_moto_run, st_moto_lookup, st_moto_lookup, st_moto_lookup, Hself).
  erewrite record_position_run
    by (eapply st_moto_lookup, st_moto_lookup, st_moto_lookup, st_moto_lookup, Hself).
  st_norm.
Qed.

Lemma perform_maintenance_run s self m :
  moto_heap s !! self = Some m ->
  perform_maintenance env self s =
    Some (tt, st_moto s self
      (recorded (clock env (S (clock_reads s)))
         (Moto.set_color "green" (Moto.set_status "disponível"
            (Moto.set_fuel_level 100
               (Moto.set_last_maintenance (clock env (clock_reads s)) m))))) 2).
Proof.
  intros Hself.
  unfold perform_maintenance. erewrite bind_eq by reflexivity.
  erewrite bind_eq by (by apply upd_moto_run).
  erewrite bind_eq by (eapply upd_moto_run, st_moto_lookup; by apply Hself).
  erewrite update_status_run by (eapply st_moto_lookup, st_moto_lookup; by apply Hself).
  st_norm. unfold st_moto; simpl. do 3 f_equal. lia.
Qed.

End MotoMethods.

(** ** Library calls *)

Section Library.
Variable env : Env.

Lemma randbelow_run n s :
  0 < n ->
  randbelow env n s =
    Some (rand env (rand_draws s) mod n, with_rand_draws (S (rand_draws s)) s).
Proof. intros H. unfold randbelow. by case_decide. Qed.

Lemma randint_run a b s :
  a <= b ->
  randint env a b s =
    Some (a + rand env (rand_draws s) mod (b - a + 1), with_rand_draws (S (rand_draws s)) s).
Proof.
  intros H. unfold randint. erewrite bind_eq by (apply randbelow_run; lia). done.
Qed.

Lemma randint_range a b k : a <= b -> a <= a + k mod (b - a + 1) <= b.
Proof. intros H. pose proof (Z.mod_pos_bound k (b - a + 1)). lia. Qed.

(** Every value of the range is drawn for some raw draw. *)
Lemma randint_onto a b v : a <= v <= b -> a + (v - a) mod (b - a + 1) = v.
Proof. intros H. rewrite Z.mod_small; lia. Qed.

Lemma choice_run seq s :
  seq <> [] ->
  choice env seq s =
    Some (nth (Z.to_nat (rand env (rand_draws s) mod Z.of_nat (length seq))) seq "",
          with_rand_draws (S (rand_draws s)) s).
Proof.
  intros H. unfold choice. erewrite bind_eq; [done|].
  apply randbelow_run. destruct seq; [done | simpl; lia].
Qed.

Lemma choice_elem (seq : list string) k :
  seq <> [] -> nth (Z.to_nat (k mod Z.of_nat (length seq))) seq "" ∈ seq.
Proof.
  intros H. apply list_elem_of_In, nth_In.
  assert (0 < Z.of_nat (length seq)) by (destruct seq; [done | simpl; lia]).
  pose proof (Z.mod_pos_bound k (Z.of_nat (length seq))). lia.
Qed.

End Library.

(** ** Creation of a moto *)

Lemma insert_snoc {A} (l : list A) (a b : A) : <[length l := b]> (l ++ [a]) = l ++ [b].
Proof.
  rewrite insert_app_r_alt by lia. by rewrite Nat.sub_diag.
Qed.

Lemma lookup_snoc {A} (l : list A) (a : A) : (l ++ [a]) !! length l = Some a.
Proof. by apply list_lookup_middle. Qed.

Section Creation.
Variable env : Env.

Lemma Moto_init_run moto_id s :
  exists m u,
    Moto_init env moto_id s =
      Some (length (moto_heap s),
            {| clock_reads := clock_reads s + 2; rand_draws := rand_draws s + 6;
               uuid_draws := uuid_draws s + u;
               moto_heap := moto_heap s ++ [m]; reader_heap := reader_heap s |})
    /\ fresh_moto m.
Proof.
  unfold Moto_init.
  set (pick_id := match moto_id with Some i => _ | None => _ end).
  assert (exists i u, pick_id s = Some (i, with_uuid_draws (uuid_draws s + u) s))
    as (i & u & Hid).
  { subst pick_id. destruct moto_id as [i|]; [case_decide|].
    - eexists _, 1%nat. unfold uuid8. by rewrite Nat.add_1_r.
    - exists i, 0%nat. unfold mret, M_ret. rewrite Nat.add_0_r. by destruct s.
    - eexists _, 1%nat. unfold uuid8. by rewrite Nat.add_1_r. }
  erewrite bind_eq by exact Hid. clear Hid pick_id.
  erewrite bind_eq by (by apply choice_run).
  erewrite bind_eq by (by apply choice_run).
  erewrite bind_eq by (by apply randint_run).
  erewrite bind_eq by reflexivity.
  erewrite bind_eq by (by apply randint_run).
  cbv beta.
  set (model := nth _ MOTO_MODELS _).
  set (status := nth _ STATUSES _).
  assert (Hmodel : model ∈ MOTO_MODELS) by (by apply choice_elem).
  assert (Hstatus : status ∈ STATUSES) by (by apply choice_elem).
  pose proof (randint_range 10 100 (rand env (S (S (rand_draws s)))) ltac:(lia)) as Hfuel.
  case_decide as Hst.
  all: erewrite bind_eq;
    [| erewrite bind_eq by reflexivity;
       erewrite bind_eq by (by apply randint_run);
       erewrite bind_eq by reflexivity;
       erewrite bind_eq by (by apply randint_run);
       reflexivity ].
  all: simpl.
  all: erewrite bind_eq by reflexivity.
  all: erewrite bind_eq by (apply record_position_run; apply lookup_snoc).
  all: erewrite bind_eq
    by (eapply update_color_run, st_moto_lookup; apply lookup_snoc).
  all: st_norm; unfold mret, M_ret, st_moto; simpl; rewrite insert_snoc.
  all: eexists _, u; split;
    [ do 3 f_equal; lia | ].
  all: split; simpl; [done | done | done | | by eexists | done].
  - rewrite decide_True by done.
    pose proof (Z.mod_pos_bound (rand env (S (S (S (S (rand_draws s)))))) (30 - 5 - 5 + 1)).
    pose proof (Z.mod_pos_bound (rand env (S (S (S (S (S (rand_draws s))))))) (10 - 2 - 2 + 1)).
    lia.
  - rewrite decide_False by done.
    pose proof (Z.mod_pos_bound (rand env (S (S (S (S (rand_draws s)))))) (60 - 5 - 5 + 1)).
    pose proof (Z.mod_pos_bound (rand env (S (S (S (S (S (rand_draws s))))))) (60 - 5 - 5 + 1)).
    lia.
Qed.

End Creation.

(** ** Detection *)

Lemma Root_leb_spec n r :
  0 <= n -> Root_leb (np_sqrt n) r = true <-> (Root_val (np_sqrt n) <= IZR r)%R.
Proof.
  intros Hn. unfold Root_leb, Root_val.
  rewrite !andb_true_iff, !Z.leb_le. split.
  - intros [[_ Hr] Hle].
    rewrite <- (sqrt_square (IZR r)) by (by apply IZR_le).
    apply sqrt_le_1_alt. rewrite <- mult_IZR. by apply IZR_le.
  - intros Hle.
    assert (0 <= IZR r)%R as Hr0 by (etrans; [apply sqrt_pos | done]).
    assert (0 <= r) as Hr by (by apply le_IZR).
    split; [done|]. apply le_IZR. rewrite mult_IZR.
    rewrite <- (sqrt_sqrt (IZR n)) by (by apply IZR_le).
    apply Rmult_le_compat; auto using sqrt_pos.
Qed.

Lemma distance_to_val r m : Root_val (distance_to r m) = euclid r m.
Proof.
  unfold distance_to, Root_val, euclid. f_equal.
  rewrite plus_IZR. change 2 with (Z.of_nat 2).
  by rewrite <- !pow_IZR, !minus_IZR.
Qed.

Lemma in_range_spec r m :
  in_range r m = true <-> (euclid r m <= IZR (RFIDReader.range r))%R.
Proof.
  unfold in_range. rewrite <- distance_to_val. unfold distance_to.
  apply Root_leb_spec. nia.
Qed.

Lemma detectable_spec s r moto :
  detectable s r moto = true <-> within_radius s r moto.
Proof.
  unfold detectable, within_radius. destruct (moto_heap s !! moto) as [m|].
  - rewrite in_range_spec. split; [eauto | by intros (? & [= <-] & ?)].
  - split; [done | by intros (? & ? & ?)].
Qed.

#[global] Instance within_radius_dec s r moto : Decision (within_radius s r moto).
Proof.
  destruct (detectable s r moto) eqn:E.
  - left. by apply detectable_spec.
  - right. rewrite <- detectable_spec. congruence.
Defined.

Lemma st_reader_lookup s self r r' k :
  reader_heap s !! self = Some r -> reader_heap (st_reader s self r' k) !! self = Some r'.
Proof.
  intros H. simpl. apply list_lookup_insert_eq. by eapply lookup_lt_Some.
Qed.

Lemma st_reader_st_reader s self r1 r2 k1 k2 :
  st_reader (st_reader s self r1 k1) self r2 k2 = st_reader s self r2 (k1 + k2).
Proof.
  unfold st_reader; simpl. f_equal; [lia | apply list_insert_insert_eq].
Qed.

Lemma st_reader_id s self r :
  reader_heap s !! self = Some r -> st_reader s self r 0 = s.
Proof.
  intros H. unfold st_reader. rewrite list_insert_id by done.
  rewrite Nat.add_0_r. by destruct s.
Qed.

Lemma upd_reader_run self f s r :
  reader_heap s !! self = Some r ->
  upd_reader self f s = Some (tt, st_reader s self (f r) 0).
Proof.
  intros H. unfold upd_reader, st_reader, with_reader_heap. rewrite H.
  do 3 f_equal. lia.
Qed.

Lemma log_events_length now_at k r ms : length (log_events now_at k r ms) = length ms.
Proof. revert k. induction ms; intros; simpl; auto. Qed.

Lemma log_events_set_detections now_at k r v ms :
  log_events now_at k (RFIDReader.set_detections v r) ms = log_events now_at k r ms.
Proof. revert k. induction ms as [|m ms IH]; intros k; simpl; [done|]. by rewrite IH. Qed.

Lemma deref_length s motos : valid_motos s motos -> length (deref s motos) = length motos.
Proof.
  unfold valid_motos. induction 1 as [|moto motos [m Hm] _ IH]; simpl; [done|].
  rewrite Hm. simpl. by rewrite IH.
Qed.

Lemma deref_ext s1 s2 motos :
  moto_heap s1 = moto_heap s2 -> deref s1 motos = deref s2 motos.
Proof. intros H. induction motos as [|moto motos IH]; simpl; [done|]. by rewrite H, IH. Qed.

Lemma valid_motos_filter s (P : ref -> Prop) `{!forall x, Decision (P x)} motos :
  valid_motos s motos -> valid_motos s (filter P motos).
Proof.
  unfold valid_motos. rewrite !Forall_forall. intros Hall x Hx.
  apply list_elem_of_filter in Hx as [_ Hx]. auto.
Qed.

Section Detection.
Variable env : Env.

Lemma record_detection_run s self moto r m :
  reader_heap s !! self = Some r ->
  moto_heap s !! moto = Some m ->
  record_detection env self moto s =
    Some (tt, st_reader s self
      (RFIDReader.set_detections
         (RFIDReader.detections r ++ [detection_of (clock env (clock_reads s)) r m]) r) 1).
Proof.
  intros Hr Hm. unfold record_detection.
  erewrite bind_eq by reflexivity.
  erewrite bind_eq by (by apply get_moto_run).
  erewrite bind_eq by (by apply get_reader_run).
  erewrite upd_reader_run by done.
  unfold st_reader; simpl. do 3 f_equal. lia.
Qed.

Lemma detect_loop motos : forall detected s self r,
  reader_heap s !! self = Some r ->
  valid_motos s motos ->
  for_each motos detected (fun detected moto =>
    r ← get_reader self;
    m ← get_moto moto;
    let distance := distance_to r m in
    if Root_leb distance (RFIDReader.range r) then
      let detected := detected ++ [moto] in
      record_detection env self moto;;
      mret detected
    else mret detected) s
  = Some (detected ++ filter (within_radius s r) motos,
          st_detected env s self r (filter (within_radius s r) motos)).
Proof.
  induction motos as [|moto motos IH]; intros detected s self r Hr Hvalid.
  - unfold st_detected. simpl. rewrite !app_nil_r.
    replace (RFIDReader.set_detections (RFIDReader.detections r) r) with r by (by destruct r).
    by rewrite st_reader_id.
  - apply Forall_cons in Hvalid as [[m Hm] Hvalid].
    cbn [for_each]. rewrite filter_cons.
    destruct (decide (within_radius s r moto)) as [Hin|Hout].
    + apply detectable_spec in Hin as Hdet. unfold detectable in Hdet.
      rewrite Hm in Hdet. unfold in_range in Hdet.
      set (r1 := RFIDReader.set_detections
                   (RFIDReader.detections r ++ [detection_of (clock env (clock_reads s)) r m]) r).
      set (s1 := st_reader s self r1 1).
      erewrite bind_eq with (a := detected ++ [moto]) (s' := s1).
      2:{ erewrite bind_eq by (by apply get_reader_run).
          erewrite bind_eq by (by apply get_moto_run).
          cbv zeta. rewrite Hdet.
          by erewrite bind_eq by (by eapply record_detection_run). }
      assert (Hsame : forall x, within_radius s1 r1 x <-> within_radius s r x) by done.
      etrans;
        [ apply (IH (detected ++ [moto]) s1 self r1); [by eapply st_reader_lookup | done] |].
      rewrite (list_filter_iff _ _ _ Hsame).
      f_equal. f_equal; [by rewrite <- app_assoc|].
      unfold st_detected. subst s1. rewrite st_reader_st_reader.
      simpl deref. rewrite Hm. simpl.
      subst r1. rewrite log_events_set_detections. simpl.
      rewrite <- app_assoc. simpl.
      rewrite (deref_ext _ s) by done.
      replace (clock_reads s + 1)%nat with (S (clock_reads s)) by lia. done.
    + assert (Hdet : detectable s r moto = false).
      { destruct (detectable s r moto) eqn:E; [|done].
        by apply detectable_spec in E. }
      unfold detectable in Hdet. rewrite Hm in Hdet. unfold in_range in Hdet.
      erewrite bind_eq with (a := detected) (s' := s).
      2:{ erewrite bind_eq by (by apply get_reader_run).
          erewrite bind_eq by (by apply get_moto_run).
          cbv zeta. by rewrite Hdet. }
      by apply IH.
Qed.

Lemma detect_motos_run s self r motos :
  reader_heap s !! self = Some r ->
  valid_motos s motos ->
  detect_motos env self motos s =
    Some (filter (within_radius s r) motos,
          st_detected env s self r (filter (within_radius s r) motos)).
Proof.
  intros Hr Hvalid. by apply (detect_loop motos [] s self r).
Qed.

Lemma get_recent_detections_run s self r seconds :
  reader_heap s !! self = Some r ->
  window_ok (clock env (clock_reads s)) seconds ->
  get_recent_detections env self seconds s =
    Some (filter (fun d => clock env (clock_reads s) - seconds * 1000000
                           < det_timestamp d) (RFIDReader.detections r),
          with_clock_reads (S (clock_reads s)) s).
Proof.
  intros Hr [Hdelta Hcutoff]. unfold get_recent_detections.
  erewrite bind_eq by reflexivity.
  erewrite bind_eq by (unfold timedelta_seconds; by rewrite decide_True).
  erewrite bind_eq by (unfold datetime_sub; by rewrite decide_True).
  erewrite bind_eq by (by apply get_reader_run). done.
Qed.

Lemma get_recent_detections_raises s self seconds :
  ~ window_ok (clock env (clock_reads s)) seconds ->
  get_recent_detections env self seconds s = None.
Proof.
  intros Hno. unfold get_recent_detections, mbind, M_bind, datetime_now.
  unfold timedelta_seconds. case_decide as Hdelta; [|done].
  unfold datetime_sub. case_decide as Hcutoff; [|done].
  destruct Hno. by split.
Qed.

End Detection.

(** ** float64 on small integers *)

Lemma digits2_size p : digits2_pos p = Pos.size p.
Proof. induction p; simpl; congruence. Qed.

Lemma pow2_step d : 1 <= d -> 2 ^ d = 2 * 2 ^ (d - 1).
Proof. intros. rewrite <- Z.pow_succ_r by lia. f_equal. lia. Qed.

Lemma size_bounds p : 2 ^ (Zpos (Pos.size p) - 1) <= Zpos p < 2 ^ Zpos (Pos.size p).
Proof.
  induction p as [p IH|p IH|]; simpl Pos.size; rewrite ?Pos2Z.inj_succ.
  - replace (Z.succ (Zpos (Pos.size p)) - 1) with (Zpos (Pos.size p)) by lia.
    rewrite (pow2_step (Z.succ _)) by lia.
    replace (Z.succ (Zpos (Pos.size p)) - 1) with (Zpos (Pos.size p)) by lia.
    rewrite (pow2_step (Zpos (Pos.size p))) in * by lia. lia.
  - replace (Z.succ (Zpos (Pos.size p)) - 1) with (Zpos (Pos.size p)) by lia.
    rewrite (pow2_step (Z.succ _)) by lia.
    replace (Z.succ (Zpos (Pos.size p)) - 1) with (Zpos (Pos.size p)) by lia.
    rewrite (pow2_step (Zpos (Pos.size p))) in * by lia. lia.
  - simpl. lia.
Qed.

Lemma size_unique p d : 2 ^ (d - 1) <= Zpos p < 2 ^ d -> Zpos (Pos.size p) = d.
Proof.
  intros [Hlo Hhi]. pose proof (size_bounds p) as [Hlo' Hhi'].
  destruct (Z.lt_trichotomy (Zpos (Pos.size p)) d) as [Hlt|[Heq|Hgt]]; [|done|].
  - exfalso. assert (2 ^ Zpos (Pos.size p) <= 2 ^ (d - 1)) by (apply Z.pow_le_mono_r; lia). lia.
  - exfalso. assert (0 <= d \/ d < 0) as [Hd|Hd] by lia.
    + assert (2 ^ d <= 2 ^ (Zpos (Pos.size p) - 1)) by (apply Z.pow_le_mono_r; lia). lia.
    + rewrite (Z.pow_neg_r 2 d) in Hhi by lia. lia.
Qed.

Lemma iter_xO p k : Zpos (Pos.iter xO p k) = Zpos p * 2 ^ Zpos k.
Proof.
  induction k as [|k IH] using Pos.peano_ind.
  - simpl. lia.
  - rewrite Pos.iter_succ, Pos2Z.inj_xO, IH, Pos2Z.inj_succ, Z.pow_succ_r by lia. lia.
Qed.

Lemma loc_of_shr_record_of_loc m l : loc_of_shr_record (shr_record_of_loc m l) = l.
Proof. by destruct l as [|[]]. Qed.

Lemma fexp_53 e : -1074 <= e -> fexp 53 1024 (53 + e) - e = 0.
Proof. intros. unfold fexp, emin. lia. Qed.

(** A mantissa of 53 bits is rounded in place. *)
Lemma binary_round_aux_53 sx (m : positive) e l m' :
  Zpos (Pos.size m) = 53 -> -1074 <= e <= 971 ->
  round_nearest_even (Zpos m) l = Zpos m' -> Zpos (Pos.size m') = 53 ->
  binary_round_aux 53 1024 sx (Zpos m) e l = S754_finite sx m' e.
Proof.
  intros Hm He Hr Hm'. unfold binary_round_aux, shr_fexp.
  unfold Zdigits2 at 1. rewrite digits2_size, Hm, fexp_53 by lia.
  cbn [shr]. cbn [shr_m shr_record_of_loc]. 
  rewrite loc_of_shr_record_of_loc.
  replace (shr_m (shr_record_of_loc (Zpos m) l)) with (Zpos m) by (by destruct l as [|[]]).
  rewrite Hr. unfold Zdigits2. rewrite digits2_size, Hm', fexp_53 by lia.
  cbn [shr shr_m]. assert ((e <=? 1024 - 53) = true) as -> by (apply Z.leb_le; lia). done.
Qed.

Lemma size_iter_xO p k : Zpos (Pos.size (Pos.iter xO p k)) = Zpos (Pos.size p) + Zpos k.
Proof.
  induction k as [|k IH] using Pos.peano_ind.
  - simpl. lia.
  - rewrite Pos.iter_succ. simpl Pos.size. rewrite Pos2Z.inj_succ, IH. lia.
Qed.

Lemma binary_round_int sx p :
  Zpos (Pos.size p) <= 53 ->
  exists m, binary_round 53 1024 sx p 0 = S754_finite sx m (Zpos (Pos.size p) - 53) /\
            Zpos m = Zpos p * 2 ^ (53 - Zpos (Pos.size p)) /\
            Zpos (Pos.size m) = 53.
Proof.
  intros Hd. unfold binary_round, shl_align.
  rewrite digits2_size.
  assert (Hf : fexp 53 1024 (Zpos (Pos.size p) + 0) = Zpos (Pos.size p) - 53)
    by (unfold fexp, emin; lia).
  rewrite Hf. destruct (Zpos (Pos.size p) - 53 - 0) as [|k|k] eqn:Hk; [|lia|].
  - exists p. replace (Zpos (Pos.size p) - 53) with 0 by lia.
    assert (Hp : Zpos (Pos.size p) = 53) by lia.
    split; [|split; [rewrite Hp; simpl; lia | lia]].
    apply binary_round_aux_53; [lia | lia | done | lia].
  - exists (Pos.iter xO p k).
    assert (Hs : Zpos (Pos.size (Pos.iter xO p k)) = 53) by (rewrite size_iter_xO; lia).
    split; [|split; [|done]].
    + apply binary_round_aux_53; [done | lia | done | done].
    + rewrite iter_xO. f_equal. f_equal. lia.
Qed.

Lemma size_53 p : 2 ^ 52 <= Zpos p < 2 ^ 53 -> Zpos (Pos.size p) = 53.
Proof. intros. by apply size_unique. Qed.

Lemma size_53_inv p : Zpos (Pos.size p) = 53 -> 2 ^ 52 <= Zpos p < 2 ^ 53.
Proof. intros H. pose proof (size_bounds p) as Hb. rewrite H in Hb. exact Hb. Qed.

(** The square root of a float64 that is an integer below 2^52: the
    integer square root of the scaled mantissa, rounded to nearest. *)
Lemma SFsqrt_finite m e :
  Zpos (Pos.size m) = 53 -> -52 <= e <= -1 ->
  let e' := (54 + e) / 2 - 53 in
  let N := Zpos m * 2 ^ (e - 2 * e') in
  let q := Z.sqrt N in
  exists Q, SFsqrt 53 1024 (S754_finite false m e) = S754_finite false Q e' /\
            Zpos Q = (if N - q * q <=? q then q else q + 1) /\
            2 ^ 52 <= q < 2 ^ 53.
Proof.
  intros Hm He e' N q.
  apply size_53_inv in Hm as Hmb.
  pose proof (Z.div_mod (54 + e) 2 ltac:(lia)) as Hdiv.
  pose proof (Z.mod_pos_bound (54 + e) 2 ltac:(lia)) as Hmod.
  pose proof (Z.div_mod e 2 ltac:(lia)) as Hdiv2.
  pose proof (Z.mod_pos_bound e 2 ltac:(lia)) as Hmod2.
  assert (Hs : e - 2 * e' = 52 \/ e - 2 * e' = 53) by (subst e'; lia).
  assert (HN : 2 ^ 104 <= N <= 2 ^ 106 - 2 ^ 53).
  { subst N. destruct Hs as [-> | ->]; lia. }
  assert (Hq : 2 ^ 52 <= q <= 2 ^ 53 - 1).
  { subst q. split.
    - change (2 ^ 52) with (Z.sqrt (2 ^ 104)). apply Z.sqrt_le_mono. lia.
    - change (2 ^ 53 - 1) with (Z.sqrt (2 ^ 106 - 2 ^ 53)). apply Z.sqrt_le_mono. lia. }
  pose proof (Z.sqrt_spec N ltac:(lia)) as Hsq. fold q in Hsq. cbv zeta in Hsq.
  unfold SFsqrt, SFsqrt_core_binary.
  unfold Zdigits2. rewrite digits2_size, Hm.
  rewrite !Z.div2_div.
  assert (He' : Z.min (fexp 53 1024 ((53 + e + 1) / 2)) (e / 2) = e').
  { unfold fexp, emin. subst e'. replace (53 + e + 1) with (54 + e) by lia. lia. }
  rewrite He'.
  assert (Hsh : match e - 2 * e' with
                | 0 => Zpos m
                | Zpos _ => Z.shiftl (Zpos m) (e - 2 * e')
                | Zneg _ => 0
                end = N).
  { subst N. rewrite <- Z.shiftl_mul_pow2 by lia. destruct Hs as [-> | ->]; done. }
  rewrite Hsh.
  pose proof (Z.sqrtrem_spec N ltac:(lia)) as Hrem.
  pose proof (Z.sqrtrem_sqrt N) as Hfst. fold q in Hfst.
  destruct (Z.sqrtrem N) as [q' r]. simpl in Hfst. subst q'.
  destruct Hrem as [HNr Hr].
  assert (Hr' : r = N - q * q) by lia. rewrite <- Hr'.
  set (Q := if r <=? q then q else q + 1).
  assert (HQ : 2 ^ 52 <= Q < 2 ^ 53).
  { subst Q. destruct (Z.leb_spec r q); [lia|].
    assert (q <> 2 ^ 53 - 1) by (intros Heq; rewrite Heq in *; lia). lia. }
  exists (Z.to_pos Q). rewrite Z2Pos.id by lia.
  split; [|split; [done | lia]].
  replace q with (Zpos (Z.to_pos q)) at 1 2 by (rewrite Z2Pos.id; lia).
  apply binary_round_aux_53.
  - apply size_53. rewrite Z2Pos.id by lia. lia.
  - subst e'. lia.
  - rewrite !Z2Pos.id by lia. subst Q.
    destruct (Z.eqb_spec r 0) as [->|Hr0]; simpl.
    + destruct (Z.leb_spec 0 q); [done | lia].
    + destruct (Z.leb_spec r q); simpl; done.
  - apply size_53. rewrite Z2Pos.id by lia. lia.
Qed.

Lemma round_sqrt_le (n r P q : Z) :
  0 < P -> 0 <= r < P -> 0 <= n -> 0 <= q ->
  q * q <= n * (P * P) < (q + 1) * (q + 1) ->
  (if n * (P * P) - q * q <=? q then q else q + 1) <= r * P <-> n <= r * r.
Proof.
  intros HP Hr Hn Hq HN. set (K := r * P). set (N := n * (P * P)) in *.
  assert (HK : 0 <= K) by (subst K; nia).
  split.
  - intros HQ. destruct (Z.le_gt_cases n (r * r)) as [|Hgt]; [done|exfalso].
    assert (HNK : K * K + P * P <= N) by (subst N K; nia).
    assert (q <= K) by (destruct (N - q * q <=? q); lia).
    assert (q = K) by nia. subst q.
    assert (r * P < P * P) by nia.
    destruct (Z.leb_spec (N - K * K) K); subst K; lia.
  - intros Hle. assert (HNK : N <= K * K) by (subst N K; nia).
    assert (q <= K) by nia.
    destruct (Z.leb_spec (N - q * q) q); [lia|].
    assert (q <> K) by (intros ->; lia). lia.
Qed.

Lemma size_le_53 p : Zpos p < 2 ^ 53 -> Zpos (Pos.size p) <= 53.
Proof.
  intros Hp. pose proof (size_bounds p) as [Hlo _].
  destruct (Z.le_gt_cases (Zpos (Pos.size p)) 53) as [|Hgt]; [done|exfalso].
  assert (2 ^ 53 <= 2 ^ (Zpos (Pos.size p) - 1)) by (apply Z.pow_le_mono_r; lia). lia.
Qed.

Lemma pow2_sq c : 0 <= c -> 2 ^ (2 * c) = 2 ^ c * 2 ^ c.
Proof. intros. rewrite <- Z.pow_add_r by lia. f_equal. lia. Qed.

(** Below 2^52 for the squared distance and 2^53 for the radius, the
    comparison of float64 is the comparison of the integers. *)
Lemma float64_test_exact n r :
  0 <= n < 2 ^ 52 -> - 2 ^ 53 < r < 2 ^ 53 ->
  SFleb (Root_float64 (np_sqrt n)) (float_of_int r) = (0 <=? r) && (n <=? r * r).
Proof.
  intros Hn Hr. unfold Root_float64, float_of_int.
  destruct n as [|pn|pn]; [| |lia].
  - (* sqrt(0.0) = 0.0 *)
    unfold binary_normalize at 1. change (SFsqrt 53 1024 (S754_zero false)) with (S754_zero false).
    destruct r as [|pr|pr]; unfold binary_normalize; [done| |].
    + destruct (binary_round_int false pr) as (R & -> & _); [apply size_le_53; lia|].
      done.
    + destruct (binary_round_int true pr) as (R & -> & _); [apply size_le_53; lia|].
      done.
  - unfold binary_normalize at 1.
    pose proof (size_bounds pn) as Hdn. set (dn := Zpos (Pos.size pn)) in *.
    assert (Hdn52 : 1 <= dn <= 52).
    { split; [subst dn; lia|].
      destruct (Z.le_gt_cases dn 52) as [|Hgt]; [done|exfalso].
      assert (2 ^ 52 <= 2 ^ (dn - 1)) by (apply Z.pow_le_mono_r; lia). lia. }
    destruct (binary_round_int false pn) as (M & -> & HM & HMs); [fold dn; lia|]. fold dn in HM |- *.
    destruct (SFsqrt_finite M (dn - 53) HMs ltac:(lia)) as (Q & -> & HQ & Hq).
    set (c := (54 + (dn - 53)) / 2) in *.
    pose proof (Z.div_mod (54 + (dn - 53)) 2 ltac:(lia)) as Hdiv.
    pose proof (Z.mod_pos_bound (54 + (dn - 53)) 2 ltac:(lia)) as Hmod.
    fold c in Hdiv.
    assert (Hc : 2 * c - 1 <= dn <= 2 * c) by lia.
    assert (Hc26 : 1 <= c <= 26) by lia.
    destruct r as [|pr|pr].
    + simpl. symmetry. apply Z.leb_gt. lia.
    + unfold binary_normalize.
      pose proof (size_bounds pr) as Hdr. set (dr := Zpos (Pos.size pr)) in *.
      destruct (binary_round_int false pr) as (R & -> & HR & _); [apply size_le_53; lia|].
      fold dr in HR |- *.
      unfold SFleb, SFcompare. rewrite Pos.compare_cont_spec. simpl Pos.switch_Eq.
      change (0 <=? Zpos pr) with true. cbn [andb].
      destruct (Z.compare_spec (c - 53) (dr - 53)) as [Heq|Hlt|Hgt].
      * (* same exponent *)
        assert (dr = c) by lia.
        set (P := 2 ^ (53 - c)).
        assert (HP : 0 < P) by (subst P; apply Z.pow_pos_nonneg; lia).
        assert (HrP : Zpos pr < P).
        { subst P. assert (2 ^ dr <= 2 ^ (53 - c)) by (apply Z.pow_le_mono_r; lia). lia. }
        assert (HN : Zpos M * 2 ^ (dn - 53 - 2 * (c - 53)) = Zpos pn * (P * P)).
        { rewrite HM. subst P. rewrite <- Z.mul_assoc, <- !Z.pow_add_r by lia.
          f_equal. f_equal. lia. }
        rewrite HN in HQ, Hq.
        set (N := Zpos pn * (P * P)) in *. set (q := Z.sqrt N) in *.
        pose proof (Z.sqrt_spec N ltac:(subst N; nia)) as Hsq. fold q in Hsq.
        pose proof (round_sqrt_le (Zpos pn) (Zpos pr) P q HP ltac:(lia) ltac:(lia) ltac:(lia)
                      ltac:(unfold Z.succ in Hsq; fold N; lia)) as Hcore.
        fold N in Hcore. rewrite <- HQ in Hcore.
        assert (HRP : Zpos R = Zpos pr * P) by (rewrite HR; subst P; do 2 f_equal; lia).
        rewrite <- HRP in Hcore.
        destruct (Pos.compare_spec Q R) as [HQR|HQR|HQR];
          [symmetry; apply Z.leb_le; apply Hcore; lia
          |symmetry; apply Z.leb_le; apply Hcore; lia
          |symmetry; apply Z.leb_gt; apply Z.lt_nge; intros Hle; apply Hcore in Hle; lia].
      * (* the radius has the larger exponent *)
        symmetry. apply Z.leb_le.
        assert (H1 : 2 ^ c <= 2 ^ (dr - 1)) by (apply Z.pow_le_mono_r; lia).
        assert (H2 : 2 ^ dn <= 2 ^ (2 * c)) by (apply Z.pow_le_mono_r; lia).
        rewrite pow2_sq in H2 by lia.
        assert (0 < 2 ^ c) by (apply Z.pow_pos_nonneg; lia). nia.
      * symmetry. apply Z.leb_gt.
        assert (H1 : 2 ^ dr <= 2 ^ (c - 1)) by (apply Z.pow_le_mono_r; lia).
        assert (H2 : 2 ^ (2 * (c - 1)) <= 2 ^ (dn - 1)) by (apply Z.pow_le_mono_r; lia).
        rewrite pow2_sq in H2 by lia.
        assert (0 < 2 ^ (c - 1)) by (apply Z.pow_pos_nonneg; lia). nia.
    + unfold binary_normalize.
      destruct (binary_round_int true pr) as (R & -> & _); [apply size_le_53; lia|].
      done.
Qed.

Lemma float_of_int_finite r :
  - 2 ^ 53 < r < 2 ^ 53 ->
  match float_of_int r with S754_infinity _ => False | _ => True end.
Proof.
  intros Hr. unfold float_of_int, binary_normalize. destruct r as [|p|p]; [done| |].
  - by destruct (binary_round_int false p) as (R & -> & _); [apply size_le_53; lia|].
  - by destruct (binary_round_int true p) as (R & -> & _); [apply size_le_53; lia|].
Qed.

Lemma float64_in_range_exact r m :
  float64_exact r m -> float64_in_range r m = Some (in_range r m).
Proof.
  intros [Hn Hr]. unfold float64_in_range, in_range, distance_to, Root_leb.
  set (n := (RFIDReader.x r - Moto.x m) ^ 2 + (RFIDReader.y r - Moto.y m) ^ 2) in *.
  assert (Hn0 : 0 <= n) by (subst n; nia).
  rewrite decide_True by lia.
  pose proof (float_of_int_finite _ Hr) as Hfin.
  pose proof (float64_test_exact n _ (conj Hn0 Hn) Hr) as Htest.
  assert (Hpos : (0 <=? n) = true) by (by apply Z.leb_le).
  rewrite Hpos. cbn [andb]. rewrite <- Htest.
  by destruct (float_of_int (RFIDReader.range r)).
Qed.

Lemma float64_exact_defined s r motos : exact_on s r motos -> float64_defined s r motos.
Proof.
  intros Hex moto m Hin Hm. rewrite (float64_in_range_exact r m) by (by eapply Hex). done.
Qed.

Lemma float64_detects_exact s r motos moto :
  exact_on s r motos -> moto ∈ motos ->
  float64_detects s r moto <-> within_radius s r moto.
Proof.
  intros Hex Hin. unfold float64_detects, within_radius. split.
  - intros (m & Hm & Htest). exists m. split; [done|].
    rewrite (float64_in_range_exact r m) in Htest by (by eapply Hex).
    apply in_range_spec. congruence.
  - intros (m & Hm & Hle). exists m. split; [done|].
    rewrite (float64_in_range_exact r m) by (by eapply Hex).
    f_equal. by apply in_range_spec.
Qed.

Lemma filter_iff_on {A} (P Q : A -> Prop) `{!forall x, Decision (P x)}
    `{!forall x, Decision (Q x)} (l : list A) :
  (forall x, x ∈ l -> P x <-> Q x) -> filter P l = filter Q l.
Proof.
  induction l as [|a l IH]; intros Hiff; [done|].
  rewrite !filter_cons, IH by (intros x Hx; apply Hiff; by right).
  destruct (decide (P a)) as [HP|HP], (decide (Q a)) as [HQ|HQ]; try done.
  - destruct HQ. apply Hiff; [left | done].
  - destruct HP. apply Hiff; [left | done].
Qed.

Lemma filter_float64_exact s r (motos : list ref) :
  exact_on s r motos ->
  filter (float64_detects s r) motos = filter (within_radius s r) motos.
Proof.
  intros Hex. apply filter_iff_on.
  intros moto Hin. by apply float64_detects_exact with motos.
Qed.

Lemma exact_onb_spec s r motos : exact_onb s r motos = true -> exact_on s r motos.
Proof.
  unfold exact_onb. rewrite forallb_forall. intros Hall moto m Hin Hm.
  specialize (Hall moto (proj1 (list_elem_of_In _ _) Hin)). rewrite Hm in Hall.
  by apply bool_decide_eq_true in Hall.
Qed.

Lemma exact_zoneb_spec s readers motos :
  exact_zoneb s readers motos = true -> exact_zone s readers motos.
Proof.
  unfold exact_zoneb. rewrite forallb_forall. intros Hall reader r Hin Hr.
  specialize (Hall reader (proj1 (list_elem_of_In _ _) Hin)). rewrite Hr in Hall.
  by apply exact_onb_spec.
Qed.

(** ** The detection in float64 *)

Section DetectionFloat64.
Variable env : Env.

Lemma float64_test_run s r m b :
  float64_in_range r m = Some b ->
  let n := (RFIDReader.x r - Moto.x m) ^ 2 + (RFIDReader.y r - Moto.y m) ^ 2 in
  Float64.sqrt_int n s = Some (np_sqrt n, s) /\
  Float64.le_int (np_sqrt n) (RFIDReader.range r) s = Some (b, s).
Proof.
  unfold float64_in_range, Float64.sqrt_int, Float64.le_int. cbv zeta. intros Htest.
  case_decide; [|done]. split; [done|].
  destruct (float_of_int (RFIDReader.range r)); congruence.
Qed.

Lemma float64_record_detection_run s self moto r m :
  reader_heap s !! self = Some r ->
  moto_heap s !! moto = Some m ->
  is_Some (float64_in_range r m) ->
  Float64.record_detection env self moto s =
    Some (tt, st_reader s self
      (RFIDReader.set_detections
         (RFIDReader.detections r ++ [detection_of (clock env (clock_reads s)) r m]) r) 1).
Proof.
  intros Hr Hm [b Hb]. unfold Float64.record_detection.
  destruct (float64_test_run (with_clock_reads (S (clock_reads s)) s) r m b Hb) as [Hsqrt _].
  erewrite bind_eq by reflexivity.
  erewrite bind_eq by (by apply get_moto_run).
  erewrite bind_eq by (by apply get_reader_run).
  erewrite bind_eq by exact Hsqrt.
  erewrite upd_reader_run by done.
  unfold st_reader; simpl. do 3 f_equal. lia.
Qed.

Lemma float64_detect_loop motos : forall detected s self r,
  reader_heap s !! self = Some r ->
  valid_motos s motos ->
  float64_defined s r motos ->
  for_each motos detected (fun detected moto =>
    r ← get_reader self;
    m ← get_moto moto;
    distance ← Float64.sqrt_int
      ((RFIDReader.x r - Moto.x m) ^ 2 + (RFIDReader.y r - Moto.y m) ^ 2);
    near ← Float64.le_int distance (RFIDReader.range r);
    if near : bool then
      let detected := detected ++ [moto] in
      Float64.record_detection env self moto;;
      mret detected
    else mret detected) s
  = Some (detected ++ filter (float64_detects s r) motos,
          st_detected env s self r (filter (float64_detects s r) motos)).
Proof.
  induction motos as [|moto motos IH]; intros detected s self r Hr Hvalid Hdef.
  - unfold st_detected. simpl. rewrite !app_nil_r.
    replace (RFIDReader.set_detections (RFIDReader.detections r) r) with r by (by destruct r).
    by rewrite st_reader_id.
  - apply Forall_cons in Hvalid as [[m Hm] Hvalid].
    assert (Hdef' : float64_defined s r motos).
    { intros moto' m' Hin. apply Hdef. by right. }
    destruct (Hdef moto m ltac:(left) Hm) as [b Hb].
    destruct (float64_test_run s r m b Hb) as [Hsqrt Hle].
    cbn [for_each]. rewrite filter_cons.
    destruct (decide (float64_detects s r moto)) as [Hin|Hout].
    + assert (b = true) as ->.
      { destruct Hin as (m' & Hm' & Htest). congruence. }
      set (r1 := RFIDReader.set_detections
                   (RFIDReader.detections r ++ [detection_of (clock env (clock_reads s)) r m]) r).
      set (s1 := st_reader s self r1 1).
      erewrite bind_eq with (a := detected ++ [moto]) (s' := s1).
      2:{ erewrite bind_eq by (by apply get_reader_run).
          erewrite bind_eq by (by apply get_moto_run).
          erewrite bind_eq by exact Hsqrt.
          erewrite bind_eq by exact Hle.
          cbv iota zeta.
          by erewrite bind_eq by (by eapply float64_record_detection_run). }
      assert (Hsame : forall x, float64_detects s1 r1 x <-> float64_detects s r x) by done.
      etrans;
        [ apply (IH (detected ++ [moto]) s1 self r1);
            [by eapply st_reader_lookup | done | done] |].
      rewrite (list_filter_iff _ _ _ Hsame).
      f_equal. f_equal; [by rewrite <- app_assoc|].
      unfold st_detected. subst s1. rewrite st_reader_st_reader.
      simpl deref. rewrite Hm. simpl.
      subst r1. rewrite log_events_set_detections. simpl.
      rewrite <- app_assoc. simpl.
      rewrite (deref_ext _ s) by done.
      replace (clock_reads s + 1)%nat with (S (clock_reads s)) by lia. done.
    + assert (b = false) as ->.
      { destruct b; [|done]. destruct Hout. by exists m. }
      erewrite bind_eq with (a := detected) (s' := s).
      2:{ erewrite bind_eq by (by apply get_reader_run).
          erewrite bind_eq by (by apply get_moto_run).
          erewrite bind_eq by exact Hsqrt.
          by erewrite bind_eq by exact Hle. }
      by apply IH.
Qed.

Lemma float64_detect_motos_run s self r motos :
  reader_heap s !! self = Some r ->
  valid_motos s motos ->
  float64_defined s r motos ->
  Float64.detect_motos env self motos s =
    Some (filter (float64_detects s r) motos,
          st_detected env s self r (filter (float64_detects s r) motos)).
Proof.
  intros Hr Hvalid Hdef. by apply (float64_detect_loop motos [] s self r).
Qed.

(** Where float64 is exact the two engines detect the same. *)
Lemma detect_motos_exact_zone s self r motos :
  reader_heap s !! self = Some r ->
  valid_motos s motos ->
  exact_on s r motos ->
  Float64.detect_motos env self motos s = detect_motos env self motos s.
Proof.
  intros Hr Hvalid Hex.
  rewrite (float64_detect_motos_run s self r motos Hr Hvalid)
    by (by apply float64_exact_defined).
  rewrite (detect_motos_run env s self r motos Hr Hvalid).
  by rewrite filter_float64_exact.
Qed.

End DetectionFloat64.

(** ** The simulation *)

Lemma valid_motos_ext s s' motos :
  (length (moto_heap s) <= length (moto_heap s'))%nat ->
  valid_motos s motos -> valid_motos s' motos.
Proof.
  unfold valid_motos. intros Hlen H. eapply Forall_impl; [exact H|]. intros moto.
  rewrite !lookup_lt_is_Some. lia.
Qed.

Lemma valid_readers_ext s s' readers :
  (length (reader_heap s) <= length (reader_heap s'))%nat ->
  valid_readers s readers -> valid_readers s' readers.
Proof.
  unfold valid_readers. intros Hlen H. eapply Forall_impl; [exact H|]. intros reader.
  rewrite !lookup_lt_is_Some. lia.
Qed.

Lemma count_loop (cond : Moto.t -> bool) (motos : list ref) : forall total s,
  valid_motos s motos ->
  for_each motos total (fun total moto =>
    m ← get_moto moto;
    if cond m then mret (total + 1)%nat else mret total) s
  = Some ((total + length (filter (fun m => cond m = true) (deref s motos)))%nat, s).
Proof.
  induction motos as [|moto motos IH]; intros total s Hvalid.
  - simpl. by rewrite Nat.add_0_r.
  - apply Forall_cons in Hvalid as [[m Hm] Hvalid].
    cbn [for_each deref]. rewrite Hm, filter_cons.
    destruct (cond m) eqn:E.
    + erewrite bind_eq with (a := (total + 1)%nat) (s' := s)
        by (erewrite bind_eq by (by apply get_moto_run); by rewrite E).
      rewrite decide_True by done.
      etrans; [by apply IH|]. do 2 f_equal. simpl. lia.
    + erewrite bind_eq with (a := total) (s' := s)
        by (erewrite bind_eq by (by apply get_moto_run); by rewrite E).
      rewrite decide_False by done. by apply IH.
Qed.

Lemma count_motos_run (cond : Moto.t -> bool) (motos : list ref) s :
  valid_motos s motos ->
  count_motos motos cond s =
    Some (length (filter (fun m => cond m = true) (deref s motos)), s).
Proof. intros H. by apply (count_loop cond motos 0%nat s). Qed.

Section Tick.
Variable env : Env.

(** Refreshing the markers reads the motos and writes no object. *)
Lemma refresh_points_returns s motos points :
  valid_motos s motos ->
  returns
    (for_each (imap pair motos) points (fun moto_points '(i, moto) =>
       if decide (i < length moto_points)%nat then
         m ← get_moto moto;
         mret (alter (fun p => set_color (Moto.color m) (set_data [Moto.x m] [Moto.y m] p))
                 i moto_points)
       else mret moto_points)) s
    (fun points' s' => s' = s /\ length points' = length points).
Proof.
  intros Hvalid.
  eapply returns_mono.
  - apply (returns_for_each (fun _ acc s' => s' = s /\ length acc = length points));
      [|done].
    intros _ [i moto] acc s' Hin [-> Hlen].
    apply elem_of_lookup_imap in Hin as (? & ? & [= <- <-] & Hin).
    unfold valid_motos in Hvalid. rewrite Forall_forall in Hvalid.
    destruct (Hvalid moto) as [m Hm]; [by eapply list_elem_of_lookup_2|].
    case_decide; [|by apply returns_ret].
    apply returns_bind. eapply returns_eq; [by apply get_moto_run|].
    apply returns_ret. by rewrite length_alter.
  - by intros.
Qed.

(** The per-tick records of one reader: one clock reading each, no write. *)
Lemma tick_records_returns s reader detected r :
  reader_heap s !! reader = Some r ->
  valid_motos s detected ->
  returns
    (for_each detected [] (fun new moto =>
       r ← get_reader reader;
       m ← get_moto moto;
       now ← datetime_now env;
       mret (new ++ [{| td_reader_id := RFIDReader.id r; td_moto_id := Moto.id m;
                        td_timestamp := now |}]))) s
    (fun new s' => moto_heap s' = moto_heap s /\ reader_heap s' = reader_heap s /\
                   length new = length detected).
Proof.
  intros Hr Hvalid.
  eapply returns_mono.
  - apply (returns_for_each (fun done acc s' =>
      moto_heap s' = moto_heap s /\ reader_heap s' = reader_heap s /\
      length acc = length done)); [|done].
    intros done moto acc s' Hin (Hm & Hrd & Hlen).
    unfold valid_motos in Hvalid. rewrite Forall_forall in Hvalid.
    destruct (Hvalid moto Hin) as [m Hmoto].
    apply returns_bind. eapply returns_eq; [apply get_reader_run; by rewrite Hrd|].
    apply returns_bind. eapply returns_eq; [apply get_moto_run; by rewrite Hm|].
    apply returns_bind. eapply returns_eq; [reflexivity|].
    apply returns_ret. simpl. rewrite !length_app. simpl. auto with lia.
  - by intros.
Qed.

(** The detection pass: every reader of the simulation runs [detect_motos]. *)
Lemma detection_pass_returns s motos readers :
  valid_motos s motos ->
  valid_readers s readers ->
  returns
    (for_each readers [] (fun all_detections reader =>
       detected ← detect_motos env reader motos;
       new ← for_each detected [] (fun new moto =>
         r ← get_reader reader;
         m ← get_moto moto;
         now ← datetime_now env;
         mret (new ++ [{| td_reader_id := RFIDReader.id r; td_moto_id := Moto.id m;
                          td_timestamp := now |}]));
       mret (all_detections ++ new))) s
    (fun _ s' => moto_heap s' = moto_heap s /\
                 length (reader_heap s') = length (reader_heap s)).
Proof.
  intros Hvalid Hreaders.
  eapply returns_mono.
  - apply (returns_for_each (fun _ (_ : list TickDetection) s' =>
      moto_heap s' = moto_heap s /\ length (reader_heap s') = length (reader_heap s)));
      [|done].
    intros _ reader acc s' Hin (Hm & Hlen).
    unfold valid_readers in Hreaders. rewrite Forall_forall in Hreaders.
    apply Hreaders in Hin. rewrite lookup_lt_is_Some, <- Hlen, <- lookup_lt_is_Some in Hin.
    destruct Hin as [r Hr].
    assert (Hvalid' : valid_motos s' motos).
    { eapply valid_motos_ext; [|done]. by rewrite Hm. }
    apply returns_bind. eapply returns_eq; [by apply detect_motos_run|].
    apply returns_bind. eapply returns_mono.
    + eapply tick_records_returns.
      * by eapply st_reader_lookup.
      * by apply valid_motos_filter.
    + intros new s'' (Hm' & Hr' & _). apply returns_ret.
      rewrite Hm', Hr'. simpl. by rewrite length_insert.
  - by intros.
Qed.

Lemma update_visualization_returns sim frame s :
  wf_sim sim s ->
  returns (update_visualization env sim frame) s (fun '(_, sim') s' =>
    moto_heap s' = moto_heap s /\
    length (reader_heap s') = length (reader_heap s) /\
    MottuPatioSimulation.motos sim' = MottuPatioSimulation.motos sim /\
    MottuPatioSimulation.readers sim' = MottuPatioSimulation.readers sim).
Proof.
  intros [Hmotos Hreaders]. unfold update_visualization.
  apply returns_bind. eapply returns_mono; [by apply refresh_points_returns|].
  intros points ? [-> _].
  apply returns_bind. eapply returns_mono; [by apply detection_pass_returns|].
  intros all s' [Hm Hlen].
  assert (Hmotos' : valid_motos s' (MottuPatioSimulation.motos sim)).
  { eapply valid_motos_ext; [|done]. by rewrite Hm. }
  apply returns_bind. eapply returns_eq; [by apply count_motos_run|].
  apply returns_bind. eapply returns_eq; [by apply count_motos_run|].
  apply returns_bind. eapply returns_eq; [by apply count_motos_run|].
  by apply returns_ret.
Qed.

End Tick.

(** ** The report *)

Lemma dict_total_empty : dict_total ∅ = 0%nat.
Proof. apply map_fold_empty. Qed.

Lemma dict_total_insert (d : gmap string nat) k v :
  d !! k = None -> dict_total (<[k := v]> d) = (v + dict_total d)%nat.
Proof.
  intros H. unfold dict_total. rewrite map_fold_insert_L; [done | | done].
  intros. lia.
Qed.

Lemma tally_cons cond m ms :
  tally cond (m :: ms) = ((if cond m then 1 else 0) + tally cond ms)%nat.
Proof.
  unfold tally. rewrite filter_cons. destruct (cond m).
  - by rewrite decide_True by done.
  - by rewrite decide_False by done.
Qed.

Lemma status_tallies ms :
  Forall known_status ms ->
  (tally (is_status "disponível") ms + tally (is_status "reservada") ms +
   tally (is_status "em manutenção") ms = length ms)%nat.
Proof.
  induction 1 as [|m ms Hm _ IH]; [done|].
  rewrite !tally_cons. simpl length. rewrite <- IH.
  unfold known_status, STATUSES in Hm. unfold is_status.
  apply elem_of_cons in Hm as [-> | Hm]; [simpl; lia|].
  apply elem_of_cons in Hm as [-> | Hm]; [simpl; lia|].
  apply elem_of_cons in Hm as [-> | Hm]; [simpl; lia|].
  by apply elem_of_nil in Hm.
Qed.

Lemma fuel_tallies ms :
  (tally is_critico ms + tally is_baixo ms + tally is_medio ms + tally is_alto ms
   = length ms)%nat.
Proof.
  induction ms as [|m ms IH]; [done|].
  rewrite !tally_cons. simpl length. rewrite <- IH.
  unfold is_critico, is_baixo, is_medio, is_alto.
  destruct (Z.ltb_spec (Moto.fuel_level m) 20), (Z.leb_spec 20 (Moto.fuel_level m)),
    (Z.ltb_spec (Moto.fuel_level m) 50), (Z.leb_spec 50 (Moto.fuel_level m)),
    (Z.ltb_spec (Moto.fuel_level m) 80), (Z.leb_spec 80 (Moto.fuel_level m));
    simpl; lia.
Qed.

Lemma report_readers_returns s readers :
  valid_readers s readers ->
  returns
    (for_each readers (∅ : gmap Z nat) (fun d reader =>
       r ← get_reader reader;
       mret (<[RFIDReader.id r := length (RFIDReader.detections r)]> d))) s
    (fun _ s' => s' = s).
Proof.
  intros Hvalid.
  apply (returns_for_each (fun _ _ s' => s' = s)); [|done].
  intros _ reader d ? Hin ->.
  unfold valid_readers in Hvalid. rewrite Forall_forall in Hvalid.
  destruct (Hvalid reader Hin) as [r Hr].
  apply returns_bind. eapply returns_eq; [by apply get_reader_run|].
  by apply returns_ret.
Qed.

(** [generate_report] reads the store and leaves it as it was; its counts
    are the tallies over the motos of the simulation. *)
Lemma generate_report_returns sim s :
  wf_sim sim s ->
  let ms := deref s (MottuPatioSimulation.motos sim) in
  returns (generate_report sim) s (fun rep s' =>
    s' = s /\
    total_motos rep = length (MottuPatioSimulation.motos sim) /\
    status_counts rep =
      <["em manutenção" := tally (is_status "em manutenção") ms]>
      (<["reservada" := tally (is_status "reservada") ms]>
      (<["disponível" := tally (is_status "disponível") ms]> ∅)) /\
    fuel_levels rep =
      <["alto (>80%)" := tally is_alto ms]>
      (<["médio (50-80%)" := tally is_medio ms]>
      (<["baixo (20-50%)" := tally is_baixo ms]>
      (<["crítico (<20%)" := tally is_critico ms]> ∅)))).
Proof.
  intros [Hmotos Hreaders] ms. unfold generate_report. cbv zeta.
  do 7 (apply returns_bind; eapply returns_eq; [by apply count_motos_run|]).
  apply returns_bind. eapply returns_mono; [by apply report_readers_returns|].
  intros d ? ->. by apply returns_ret.
Qed.

Lemma status_counts_total a b c :
  dict_total (<["em manutenção" := c]> (<["reservada" := b]> (<["disponível" := a]> ∅)))
  = (a + b + c)%nat.
Proof.
  rewrite !dict_total_insert, dict_total_empty; [lia | done..].
Qed.

Lemma fuel_levels_total a b c d :
  dict_total (<["alto (>80%)" := d]> (<["médio (50-80%)" := c]>
    (<["baixo (20-50%)" := b]> (<["crítico (<20%)" := a]> ∅))))
  = (a + b + c + d)%nat.
Proof.
  rewrite !dict_total_insert, dict_total_empty; [lia | done..].
Qed.

(** ** The states of a simulation *)

Lemma all_motos_valid P s motos : all_motos P s motos -> valid_motos s motos.
Proof.
  unfold all_motos, valid_motos. intros H. eapply Forall_impl; [exact H|].
  intros moto (m & Hm & _). by exists m.
Qed.

Lemma all_motos_deref P s motos : all_motos P s motos -> Forall P (deref s motos).
Proof.
  unfold all_motos. induction 1 as [|moto motos (m & Hm & HP) _ IH]; simpl; [done|].
  rewrite Hm. by constructor.
Qed.

Lemma all_motos_heap P s s' motos :
  moto_heap s' = moto_heap s -> all_motos P s motos -> all_motos P s' motos.
Proof. unfold all_motos. by intros ->. Qed.

Lemma all_motos_snoc_heap P s s' m motos :
  moto_heap s' = moto_heap s ++ [m] -> all_motos P s motos -> all_motos P s' motos.
Proof.
  unfold all_motos. intros Hh H. eapply Forall_impl; [exact H|].
  intros moto (m' & Hm & HP). exists m'. split; [|done].
  rewrite Hh. by apply lookup_app_l_Some.
Qed.

Lemma all_motos_st_moto P s self m m' k motos :
  moto_heap s !! self = Some m -> P m' ->
  all_motos P s motos -> all_motos P (st_moto s self m' k) motos.
Proof.
  unfold all_motos. intros Hself HP H. eapply Forall_impl; [exact H|].
  intros moto (m0 & Hm & HP0). destruct (decide (moto = self)) as [->|Hne].
  - exists m'. split; [by eapply st_moto_lookup | done].
  - exists m0. by rewrite st_moto_lookup_ne.
Qed.

Section Reach.
Variable env : Env.

Lemma call_moto_run s self m c :
  moto_heap s !! self = Some m ->
  exists m' k,
    call_moto env self c s = Some (tt, st_moto s self m' k) /\
    (known_call c -> known_status m -> known_status m').
Proof.
  intros Hm. destruct c as [dx dy|new_status|amount|]; simpl.
  - eexists _, _. split; [by apply move_run | done].
  - eexists _, _. split; [by apply update_status_run | done].
  - eexists _, _. split; [by apply update_fuel_run | done].
  - eexists _, _. split; [by apply perform_maintenance_run |].
    intros _ _. unfold known_status, STATUSES. simpl. set_solver.
Qed.

Lemma new_motos_returns n s :
  returns
    (for_each (seq 0 n) [] (fun motos _ =>
       moto ← Moto_init env None; mret (motos ++ [moto]))) s
    (fun motos s' => all_motos fresh_moto s' motos /\ length motos = n /\
                     reader_heap s' = reader_heap s).
Proof.
  eapply returns_mono.
  - apply (returns_for_each (fun done motos s' =>
      all_motos fresh_moto s' motos /\ length motos = length done /\
      reader_heap s' = reader_heap s)); [|by split; [constructor|]].
    intros done i motos s' _ (Hall & Hlen & Hrd).
    destruct (Moto_init_run env None s') as (m & u & Hrun & Hfresh).
    apply returns_bind. eapply returns_eq; [exact Hrun|].
    apply returns_ret. split_and!.
    + apply Forall_app. split.
      * by eapply all_motos_snoc_heap.
      * constructor; [|constructor]. exists m. split; [apply lookup_snoc | done].
    + rewrite !length_app. simpl. lia.
    + done.
  - intros motos s' (? & Hlen & ?). by rewrite length_seq in Hlen.
Qed.

Lemma new_readers_returns (configs : list ReaderConfig) s :
  returns
    (for_each configs [] (fun readers r =>
       reader ← RFIDReader_init (cfg_id r) (cfg_x r) (cfg_y r) (cfg_range r)
                  (cfg_color r) (cfg_name r);
       mret (readers ++ [reader]))) s
    (fun readers s' => valid_readers s' readers /\ moto_heap s' = moto_heap s).
Proof.
  eapply returns_mono.
  - apply (returns_for_each (fun _ readers s' =>
      valid_readers s' readers /\ moto_heap s' = moto_heap s)); [|by split; [constructor|]].
    intros _ r readers s' _ (Hvalid & Hm).
    apply returns_bind. eapply returns_eq; [reflexivity|].
    apply returns_ret. split; [|done].
    apply Forall_app. split.
    + eapply valid_readers_ext; [|done]. simpl. rewrite length_app. lia.
    + constructor; [|constructor]. simpl. rewrite lookup_snoc. by eexists.
  - by intros.
Qed.

Lemma setup_visualization_returns sim s :
  valid_motos s (MottuPatioSimulation.motos sim) ->
  returns (setup_visualization sim) s (fun sim' s' =>
    s' = s /\
    MottuPatioSimulation.motos sim' = MottuPatioSimulation.motos sim /\
    MottuPatioSimulation.readers sim' = MottuPatioSimulation.readers sim).
Proof.
  intros Hvalid. unfold setup_visualization.
  apply returns_bind. eapply returns_mono.
  - apply (returns_for_each (fun _ (_ : list Line2D) s' => s' = s)); [|done].
    intros _ moto points ? Hin ->.
    unfold valid_motos in Hvalid. rewrite Forall_forall in Hvalid.
    destruct (Hvalid moto Hin) as [m Hm].
    apply returns_bind. eapply returns_eq; [by apply get_moto_run|].
    by apply returns_ret.
  - intros points ? ->. by apply returns_ret.
Qed.

Lemma MottuPatioSimulation_init_returns num_motos s :
  returns (MottuPatioSimulation_init env num_motos) s (fun sim s' =>
    all_motos fresh_moto s' (MottuPatioSimulation.motos sim) /\
    valid_readers s' (MottuPatioSimulation.readers sim) /\
    length (MottuPatioSimulation.motos sim) = Z.to_nat num_motos).
Proof.
  unfold MottuPatioSimulation_init.
  apply returns_bind. eapply returns_mono; [apply new_motos_returns|].
  intros motos s1 (Hmotos & Hlen & _).
  apply returns_bind. eapply returns_mono; [apply new_readers_returns|].
  intros readers s2 (Hreaders & Hm).
  apply returns_bind. eapply returns_eq; [reflexivity|].
  eapply returns_mono.
  - apply setup_visualization_returns. simpl.
    eapply all_motos_valid, all_motos_heap; [|exact Hmotos]. by rewrite <- Hm.
  - intros sim s3 (-> & -> & ->). simpl. split_and!; [|done..].
    eapply all_motos_heap; [|exact Hmotos]. by rewrite <- Hm.
Qed.

(** What holds of every state of a simulation. *)
Lemma sim_reach_inv sim s :
  sim_reach env sim s ->
  all_motos known_status s (MottuPatioSimulation.motos sim) /\
  valid_readers s (MottuPatioSimulation.readers sim).
Proof.
  induction 1 as [n s0 sim s Hinit | sim s frame out sim' s' _ [IHm IHr] Htick
                 | sim s moto c s' _ [IHm IHr] Hin Hc Hcall].
  - pose proof (MottuPatioSimulation_init_returns n s0) as H.
    unfold returns in H. rewrite Hinit in H. destruct H as (Hm & Hr & _).
    split; [|done]. unfold all_motos in *. eapply Forall_impl; [exact Hm|].
    intros moto (m & ? & Hfresh). exists m. split; [done|]. apply Hfresh.
  - pose proof (update_visualization_returns env sim frame s) as H.
    unfold returns in H. rewrite Htick in H.
    destruct H as (Hm & Hr & -> & ->); [by split; [eapply all_motos_valid|]|].
    split; [by eapply all_motos_heap|].
    eapply valid_readers_ext; [|done]. by rewrite Hr.
  - unfold all_motos in IHm. rewrite Forall_forall in IHm.
    destruct (IHm moto Hin) as (m & Hm & Hknown).
    destruct (call_moto_run s moto m c Hm) as (m' & k & Hrun & Hk).
    rewrite Hrun in Hcall. injection Hcall as <-.
    split.
    + eapply all_motos_st_moto; [done | by apply Hk |]. by apply Forall_forall.
    + done.
Qed.

End Reach.

(** * The properties of the specification *)

(** ** Entity model *)

Lemma clamp_range lo hi v : lo <= hi -> lo <= clamp lo hi v <= hi.
Proof. unfold clamp. lia. Qed.

Section EntityModel.
Variable env : Env.

(** C2. A fuel level that starts in [0,100], as the one drawn at creation
    does (it is in [10,100]), stays in [0,100] through any finite sequence
    of [update_fuel] calls, whatever the integer deltas. *)
Theorem fuel_level_stays_in_range :
  (forall moto_id s, exists self s' m,
      Moto_init env moto_id s = Some (self, s') /\
      moto_heap s' !! self = Some m /\ 10 <= Moto.fuel_level m <= 100) /\
  (forall (amounts : list Z) s self m,
      moto_heap s !! self = Some m -> fuel_ok m ->
      exists s' m',
        for_each amounts tt (fun _ amount => update_fuel env self amount) s = Some (tt, s') /\
        moto_heap s' !! self = Some m' /\ fuel_ok m').
Proof.
  split.
  - intros moto_id s. destruct (Moto_init_run env moto_id s) as (m & u & Hrun & Hfresh).
    eexists _, _, m. split; [exact Hrun|]. split; [apply lookup_snoc | apply Hfresh].
  - induction amounts as [|amount amounts IH]; intros s self m Hm Hfuel.
    + exists s, m. by split.
    + cbn [for_each]. erewrite bind_eq by (by apply update_fuel_run).
      eapply IH; [by eapply st_moto_lookup|]. unfold fuel_ok. simpl. lia.
Qed.

(** C3. The position set at creation is inside the yard, any finite
    sequence of [move] calls keeps it inside, and [move(200, 0)] at x = 90
    ends at x = 100. *)
Theorem position_stays_in_yard :
  (forall moto_id s, exists self s' m,
      Moto_init env moto_id s = Some (self, s') /\
      moto_heap s' !! self = Some m /\ in_yard m) /\
  (forall (deltas : list (Z * Z)) s self m,
      moto_heap s !! self = Some m -> in_yard m ->
      exists s' m',
        for_each deltas tt (fun _ '(dx, dy) => move env self dx dy) s = Some (tt, s') /\
        moto_heap s' !! self = Some m' /\ in_yard m') /\
  (forall s self m,
      moto_heap s !! self = Some m -> Moto.x m = 90 ->
      exists s' m',
        move env self 200 0 s = Some (tt, s') /\
        moto_heap s' !! self = Some m' /\ Moto.x m' = 100).
Proof.
  split_and!.
  - intros moto_id s. destruct (Moto_init_run env moto_id s) as (m & u & Hrun & Hfresh).
    eexists _, _, m. split; [exact Hrun|]. split; [apply lookup_snoc|].
    destruct Hfresh as [_ _ _ Hzone _ _]. unfold in_yard, PATIO_WIDTH, PATIO_HEIGHT.
    case_decide; lia.
  - induction deltas as [|[dx dy] deltas IH]; intros s self m Hm Hyard.
    + exists s, m. by split.
    + cbn [for_each]. erewrite bind_eq by (by apply move_run).
      eapply IH; [by eapply st_moto_lookup|]. unfold in_yard. simpl.
      split; by apply clamp_range.
  - intros s self m Hm Hx. eexists _, _. split; [by apply move_run|].
    split; [by eapply st_moto_lookup|]. simpl. rewrite Hx. done.
Qed.

(** C5. [update_status], [update_fuel] and [perform_maintenance] each
    append exactly one snapshot to the history, and the snapshot shows the
    state after the change: position, new status, new fuel level, and the
    time of the recording. *)
Theorem change_appends_one_snapshot s self m :
  moto_heap s !! self = Some m ->
  (forall new_status, exists s' m',
      update_status env self new_status s = Some (tt, s') /\
      moto_heap s' !! self = Some m' /\
      Moto.status m' = new_status /\
      appends_snapshot (clock env (clock_reads s)) m m') /\
  (forall amount, exists s' m',
      update_fuel env self amount s = Some (tt, s') /\
      moto_heap s' !! self = Some m' /\
      Moto.fuel_level m' = clamp 0 100 (Moto.fuel_level m + amount) /\
      appends_snapshot (clock env (clock_reads s)) m m') /\
  (exists s' m',
      perform_maintenance env self s = Some (tt, s') /\
      moto_heap s' !! self = Some m' /\
      Moto.status m' = "disponível" /\ Moto.fuel_level m' = 100 /\
      appends_snapshot (clock env (S (clock_reads s))) m m').
Proof.
  intros Hm. split_and!.
  - intros new_status. eexists _, _. split; [by apply update_status_run|].
    split; [by eapply st_moto_lookup|]. done.
  - intros amount. eexists _, _. split; [by apply update_fuel_run|].
    split; [by eapply st_moto_lookup|]. split; [|done].
    simpl. unfold clamp. lia.
  - eexists _, _. split; [by apply perform_maintenance_run|].
    split; [by eapply st_moto_lookup|]. done.
Qed.

(** C6. Whatever the fuel level and the status before,
    [perform_maintenance] leaves the fuel level at 100, the status
    'disponível', the colour green, and the last maintenance at the time
    read when the call starts. *)
Theorem perform_maintenance_resets s self m :
  moto_heap s !! self = Some m ->
  exists s' m',
    perform_maintenance env self s = Some (tt, s') /\
    moto_heap s' !! self = Some m' /\
    Moto.fuel_level m' = 100 /\
    Moto.status m' = "disponível" /\
    Moto.color m' = "green" /\
    Moto.last_maintenance m' = clock env (clock_reads s).
Proof.
  intros Hm. eexists _, _. split; [by apply perform_maintenance_run|].
  split; [by eapply st_moto_lookup|]. done.
Qed.

End EntityModel.

(** ** Reader model *)

Lemma log_events_in_range now_at k s r motos :
  Forall (event_in_range r)
    (log_events now_at k r (deref s (filter (within_radius s r) motos))).
Proof.
  revert k. induction motos as [|moto motos IH]; intros k; [constructor|].
  rewrite filter_cons. destruct (decide (within_radius s r moto)) as [Hin|]; [|done].
  destruct Hin as (m & Hm & Hle). simpl. rewrite Hm. simpl. constructor; [|done].
  unfold event_in_range, detection_of. cbn [det_distance]. by rewrite distance_to_val.
Qed.

Section ReaderModel.
Variable env : Env.

(** C1, as amended.  For a reader and motos with integer coordinates on
    which float64 loses nothing (squared distance below 2^52, radius below
    2^53 in absolute value), [detect_motos], run in float64, returns
    exactly the motos of its argument whose Euclidean distance to the
    reader is at most the radius, in the order of the argument; a moto at
    a distance equal to the radius is among them. *)
Theorem detect_motos_returns_motos_in_radius s self r (motos : list ref) :
  reader_heap s !! self = Some r ->
  valid_motos s motos ->
  exact_on s r motos ->
  exists detected s',
    Float64.detect_motos env self motos s = Some (detected, s') /\
    detected = filter (within_radius s r) motos /\
    (forall moto, moto ∈ detected <-> moto ∈ motos /\ within_radius s r moto) /\
    detected `sublist_of` motos /\
    (forall moto m, moto ∈ motos -> moto_heap s !! moto = Some m ->
       euclid r m = IZR (RFIDReader.range r) -> moto ∈ detected).
Proof.
  intros Hr Hvalid Hexact. eexists _, _.
  split; [rewrite (detect_motos_exact_zone env s self r) by done; by apply detect_motos_run|].
  split; [done|]. split_and!.
  - intros moto. rewrite list_elem_of_filter. tauto.
  - apply sublist_filter.
  - intros moto m Hin Hm Heq. apply list_elem_of_filter. split; [|done].
    exists m. split; [done|]. rewrite Heq. apply Rle_refl.
Qed.

(** C7. [detect_motos], run in float64 on motos for which the test of
    distance raises nothing, detects the motos that pass this test, in
    order.  It writes no moto and no other reader; of its own reader it
    changes only the log, to which it appends one entry for each detected
    moto, in the order of detection.  A second call on the same motos
    detects the same and appends as many entries again, after those of the
    first call, so the log only grows. *)
Theorem detect_motos_only_appends_to_log s self r (motos : list ref) :
  reader_heap s !! self = Some r ->
  valid_motos s motos ->
  float64_defined s r motos ->
  exists detected s1 r1 s2 r2,
    Float64.detect_motos env self motos s = Some (detected, s1) /\
    detected = filter (float64_detects s r) motos /\
    moto_heap s1 = moto_heap s /\
    (forall other, other <> self -> reader_heap s1 !! other = reader_heap s !! other) /\
    reader_heap s1 !! self = Some r1 /\
    r1 = RFIDReader.set_detections (RFIDReader.detections r1) r /\
    RFIDReader.detections r1 =
      RFIDReader.detections r ++
        log_events (clock env) (clock_reads s) r (deref s detected) /\
    length (deref s detected) = length detected /\
    Float64.detect_motos env self motos s1 = Some (detected, s2) /\
    moto_heap s2 = moto_heap s /\
    reader_heap s2 !! self = Some r2 /\
    RFIDReader.detections r2 =
      RFIDReader.detections r1 ++
        log_events (clock env) (clock_reads s1) r (deref s detected) /\
    (length (RFIDReader.detections r1) =
       length (RFIDReader.detections r) + length detected)%nat /\
    (length (RFIDReader.detections r2) =
       length (RFIDReader.detections r) + 2 * length detected)%nat.
Proof.
  intros Hr Hvalid Hdef.
  set (detected := filter (float64_detects s r) motos).
  assert (Hdv : valid_motos s detected) by (by apply valid_motos_filter).
  set (r1 := RFIDReader.set_detections
               (RFIDReader.detections r ++
                  log_events (clock env) (clock_reads s) r (deref s detected)) r).
  set (s1 := st_detected env s self r detected).
  assert (Hr1 : reader_heap s1 !! self = Some r1) by (by eapply st_reader_lookup).
  assert (Hsame : forall x, float64_detects s1 r1 x <-> float64_detects s r x) by done.
  assert (Hdef1 : float64_defined s1 r1 motos) by done.
  assert (Hrun2 : Float64.detect_motos env self motos s1 =
                  Some (detected, st_detected env s1 self r1 detected)).
  { rewrite (float64_detect_motos_run env s1 self r1 motos Hr1) by done.
    by rewrite (list_filter_iff _ _ _ Hsame). }
  eexists detected, s1, r1, (st_detected env s1 self r1 detected), _.
  split; [by apply float64_detect_motos_run|]. split; [done|]. split; [done|].
  split; [by intros other Hne; apply list_lookup_insert_ne|].
  split; [done|]. split; [done|]. split; [done|].
  split; [by apply deref_length|]. split; [done|]. split; [done|].
  split; [by eapply st_reader_lookup|].
  split.
  { cbn [RFIDReader.detections RFIDReader.set_detections]. f_equal.
    rewrite (deref_ext s1 s) by done. unfold r1 at 1.
    apply log_events_set_detections. }
  simpl. rewrite !length_app, !log_events_length.
  rewrite (deref_ext s1 s) by done. rewrite deref_length by done. lia.
Qed.

(** C8, as amended.  For a window that [timedelta] accepts and whose start
    is a [datetime], [get_recent_detections] returns, in the order of the
    log, exactly the entries whose timestamp is strictly later than the
    current time minus the window, and leaves the log (and every object)
    as it is.  For any other window it raises and returns nothing. *)
Theorem get_recent_detections_filters_log s self r seconds :
  reader_heap s !! self = Some r ->
  (window_ok (clock env (clock_reads s)) seconds ->
   exists recent s',
     get_recent_detections env self seconds s = Some (recent, s') /\
     recent = filter (fun d => clock env (clock_reads s) - seconds * 1000000
                               < det_timestamp d) (RFIDReader.detections r) /\
     recent `sublist_of` RFIDReader.detections r /\
     (forall d, d ∈ recent <->
        d ∈ RFIDReader.detections r /\
        clock env (clock_reads s) - seconds * 1000000 < det_timestamp d) /\
     reader_heap s' = reader_heap s /\ moto_heap s' = moto_heap s) /\
  (~ window_ok (clock env (clock_reads s)) seconds ->
   get_recent_detections env self seconds s = None).
Proof.
  intros Hr. split; [|apply get_recent_detections_raises].
  intros Hok. eexists _, _. split; [by apply get_recent_detections_run|].
  split; [done|]. split; [apply sublist_filter|]. split; [|done].
  intros d. rewrite list_elem_of_filter. tauto.
Qed.


End ReaderModel.

(** ** Simulation engine *)

Section SimulationEngine.
Variable env : Env.

(** C4. In every state of a simulation the report is produced, the store
    is left as it is, the report counts the motos by status ('disponível',
    'reservada', 'em manutenção') and by fuel bracket (below 20, 20 to 49,
    50 to 79, 80 and more), and both families of counts add up to the
    number of motos. *)
Theorem report_counts_add_up sim s :
  sim_reach env sim s ->
  let ms := deref s (MottuPatioSimulation.motos sim) in
  exists rep,
    generate_report sim s = Some (rep, s) /\
    total_motos rep = length (MottuPatioSimulation.motos sim) /\
    status_counts rep =
      <["em manutenção" := tally (is_status "em manutenção") ms]>
      (<["reservada" := tally (is_status "reservada") ms]>
      (<["disponível" := tally (is_status "disponível") ms]> ∅)) /\
    fuel_levels rep =
      <["alto (>80%)" := tally is_alto ms]>
      (<["médio (50-80%)" := tally is_medio ms]>
      (<["baixo (20-50%)" := tally is_baixo ms]>
      (<["crítico (<20%)" := tally is_critico ms]> ∅))) /\
    dict_total (status_counts rep) = total_motos rep /\
    dict_total (fuel_levels rep) = total_motos rep.
Proof.
  intros Hreach. apply sim_reach_inv in Hreach as [Hmotos Hreaders].
  assert (Hwf : wf_sim sim s) by (by split; [eapply all_motos_valid|]).
  pose proof (generate_report_returns sim s Hwf) as H. cbv zeta in H.
  apply returns_iff in H as (rep & ? & Hrun & -> & Htotal & Hstatus & Hfuel).
  exists rep. split; [done|]. split; [done|]. split; [done|]. split; [done|].
  rewrite Hstatus, Hfuel, Htotal, status_counts_total, fuel_levels_total.
  rewrite status_tallies by (by eapply all_motos_deref).
  rewrite fuel_tallies. rewrite deref_length; by destruct Hwf.
Qed.

(** C9. A tick runs to its end and leaves every moto as it was: position,
    status, fuel level and all the rest.  [simulate_movements], which the
    tick no longer calls, does nothing either. *)
Theorem tick_leaves_motos sim s frame :
  wf_sim sim s ->
  exists out sim' s',
    update_visualization env sim frame s = Some (out, sim', s') /\
    moto_heap s' = moto_heap s /\
    (forall moto m, moto_heap s !! moto = Some m ->
       exists m', moto_heap s' !! moto = Some m' /\
         Moto.x m' = Moto.x m /\ Moto.y m' = Moto.y m /\
         Moto.status m' = Moto.status m /\ Moto.fuel_level m' = Moto.fuel_level m) /\
    simulate_movements sim' s' = Some (tt, s').
Proof.
  intros Hwf. pose proof (update_visualization_returns env sim frame s Hwf) as H.
  apply returns_iff in H as ([out sim'] & s' & Hrun & Hm & _).
  exists out, sim', s'. split; [done|]. split; [done|]. split; [|done].
  intros moto m Hmoto. exists m. by rewrite Hm.
Qed.

End SimulationEngine.

(** * Further properties of the code *)

(** ** Calls on a moto *)

Lemma st_moto_id s self m :
  moto_heap s !! self = Some m -> st_moto s self m 0 = s.
Proof.
  intros H. unfold st_moto. rewrite list_insert_id by done.
  rewrite Nat.add_0_r. by destruct s.
Qed.

Lemma color_of_matches m :
  Moto.color m = color_of (Moto.status m) <-> color_matches m.
Proof.
  unfold color_matches, color_of. repeat case_decide; split; intros Hc.
  all: try (destruct Hc as [[? ?] | [[? ?] | (? & ? & ?)]]); try congruence.
  all: auto 10.
Qed.

Lemma clamp_id lo hi v : lo <= v <= hi -> clamp lo hi v = v.
Proof. unfold clamp. lia. Qed.

Section MotoCalls.
Variable env : Env.

Lemma call_moto_exact s self m c :
  moto_heap s !! self = Some m ->
  call_moto env self c s =
    Some (tt, st_moto s self (call_effect (clock env) (clock_reads s) c m) (call_reads c)).
Proof.
  intros Hm. destruct c as [dx dy|new_status|amount|]; simpl.
  - by apply move_run.
  - by apply update_status_run.
  - erewrite update_fuel_run by done. unfold clamp.
    by replace (Z.min 100 (Moto.fuel_level m + amount))
      with (Z.min (Moto.fuel_level m + amount) 100) by lia.
  - by apply perform_maintenance_run.
Qed.

Lemma calls_moto_exact cs : forall s self m,
  moto_heap s !! self = Some m ->
  calls_moto env self cs s =
    Some (tt, st_moto s self (calls_effect (clock env) (clock_reads s) cs m) (calls_reads cs)).
Proof.
  induction cs as [|c cs IH]; intros s self m Hm.
  - simpl. by rewrite st_moto_id.
  - unfold calls_moto. cbn [for_each]. erewrite bind_eq by (by apply call_moto_exact).
    etrans; [eapply IH, st_moto_lookup, Hm|].
    by rewrite st_moto_st_moto.
Qed.

Lemma calls_effect_inv (P : Moto.t -> Prop) now_at :
  (forall k c m, P m -> P (call_effect now_at k c m)) ->
  forall cs k m, P m -> P (calls_effect now_at k cs m).
Proof.
  intros Hstep. induction cs as [|c cs IH]; intros k m HP; simpl; auto.
Qed.

(** X1. The colour of a moto always matches its status: green for
    'disponível', blue for 'reservada', orange for every other status.
    Creation sets it so and every sequence of method calls, with any
    status string, keeps it so. *)
Theorem color_follows_status :
  (forall moto_id s, exists self s' m,
      Moto_init env moto_id s = Some (self, s') /\
      moto_heap s' !! self = Some m /\ color_matches m) /\
  (forall (cs : list MotoCall) s self m,
      moto_heap s !! self = Some m -> color_matches m ->
      exists s' m',
        calls_moto env self cs s = Some (tt, s') /\
        moto_heap s' !! self = Some m' /\ color_matches m').
Proof.
  split.
  - intros moto_id s. destruct (Moto_init_run env moto_id s) as (m & u & Hrun & Hfresh).
    eexists _, _, m. split; [exact Hrun|]. split; [apply lookup_snoc|].
    apply color_of_matches, Hfresh.
  - intros cs s self m Hm Hc. eexists _, _.
    split; [by apply calls_moto_exact|]. split; [by eapply st_moto_lookup|].
    apply calls_effect_inv; [|done]. clear. intros k c m Hc.
    apply color_of_matches. apply color_of_matches in Hc.
    destruct c; simpl; done.
Qed.

(** X2. The history of a moto is append-only: a sequence of [n] method
    calls keeps the snapshots that were there, in place, and adds exactly
    [n] snapshots after them. *)
Theorem history_is_append_only (cs : list MotoCall) s self m :
  moto_heap s !! self = Some m ->
  exists s' m' snaps,
    calls_moto env self cs s = Some (tt, s') /\
    moto_heap s' !! self = Some m' /\
    Moto.movement_history m' = Moto.movement_history m ++ snaps /\
    length snaps = length cs.
Proof.
  intros Hm.
  assert (Hgen : forall cs k m, exists snaps,
             Moto.movement_history (calls_effect (clock env) k cs m)
               = Moto.movement_history m ++ snaps /\ length snaps = length cs).
  { clear. induction cs as [|c cs IH]; intros k m; simpl.
    - exists []. by rewrite app_nil_r.
    - destruct (IH (k + call_reads c)%nat (call_effect (clock env) k c m))
        as (snaps & -> & Hlen).
      destruct c; simpl; rewrite <- app_assoc; eexists; split; try reflexivity;
        simpl; by rewrite Hlen. }
  destruct (Hgen cs (clock_reads s) m) as (snaps & Hh & Hlen).
  eexists _, _, snaps. split; [by apply calls_moto_exact|].
  split; [by eapply st_moto_lookup|]. done.
Qed.

(** X3. After creation and after every method call the last snapshot of
    the history shows the current position, status and fuel level. *)
Theorem last_snapshot_is_current :
  (forall moto_id s, exists self s' m,
      Moto_init env moto_id s = Some (self, s') /\
      moto_heap s' !! self = Some m /\ history_up_to_date m) /\
  (forall c (cs : list MotoCall) s self m,
      moto_heap s !! self = Some m ->
      exists s' m',
        calls_moto env self (c :: cs) s = Some (tt, s') /\
        moto_heap s' !! self = Some m' /\ history_up_to_date m').
Proof.
  split.
  - intros moto_id s. destruct (Moto_init_run env moto_id s) as (m & u & Hrun & Hfresh).
    eexists _, _, m. split; [exact Hrun|]. split; [apply lookup_snoc|].
    destruct Hfresh as [_ _ _ _ [now Hh] _]. exists now. by rewrite Hh.
  - intros c cs s self m Hm. eexists _, _.
    split; [by apply calls_moto_exact|]. split; [by eapply st_moto_lookup|].
    simpl. apply calls_effect_inv.
    + clear. intros k c m _. unfold history_up_to_date.
      destruct c; simpl; eexists; by rewrite last_snoc.
    + unfold history_up_to_date. destruct c; simpl; eexists; by rewrite last_snoc.
Qed.

(** X4. The methods of a moto write this moto only: every other moto and
    every reader stay as they were, no random number is drawn, and the
    identifier and the model of the moto itself never change. *)
Theorem moto_calls_write_one_moto (cs : list MotoCall) s self m :
  moto_heap s !! self = Some m ->
  exists s' m',
    calls_moto env self cs s = Some (tt, s') /\
    moto_heap s' !! self = Some m' /\
    Moto.id m' = Moto.id m /\ Moto.model m' = Moto.model m /\
    (forall other, other <> self -> moto_heap s' !! other = moto_heap s !! other) /\
    length (moto_heap s') = length (moto_heap s) /\
    reader_heap s' = reader_heap s /\
    rand_draws s' = rand_draws s /\ uuid_draws s' = uuid_draws s /\
    clock_reads s' = (clock_reads s + calls_reads cs)%nat.
Proof.
  intros Hm. eexists _, _.
  split; [by apply calls_moto_exact|]. split; [by eapply st_moto_lookup|].
  split_and!; try done.
  - apply (calls_effect_inv (fun m' => Moto.id m' = Moto.id m)); [|done].
    clear. intros k c m' <-. by destruct c.
  - apply (calls_effect_inv (fun m' => Moto.model m' = Moto.model m)); [|done].
    clear. intros k c m' <-. by destruct c.
  - intros other Hne. by apply st_moto_lookup_ne.
  - simpl. by rewrite length_insert.
Qed.

(** X5. Moves add up as long as the moto stays inside the yard: two moves
    whose first one needs no clamping end at the same position as the one
    move by the sum.  In particular a move and the opposite move bring an
    unclamped moto back to where it was. *)
Theorem moves_add_up_inside_yard s self m dx1 dy1 dx2 dy2 :
  moto_heap s !! self = Some m ->
  0 <= Moto.x m + dx1 <= PATIO_WIDTH ->
  0 <= Moto.y m + dy1 <= PATIO_HEIGHT ->
  exists s2 m2 s12 m12,
    calls_moto env self [Move dx1 dy1; Move dx2 dy2] s = Some (tt, s2) /\
    moto_heap s2 !! self = Some m2 /\
    move env self (dx1 + dx2) (dy1 + dy2) s = Some (tt, s12) /\
    moto_heap s12 !! self = Some m12 /\
    Moto.x m2 = Moto.x m12 /\ Moto.y m2 = Moto.y m12 /\
    (in_yard m -> dx2 = - dx1 -> dy2 = - dy1 ->
       Moto.x m2 = Moto.x m /\ Moto.y m2 = Moto.y m).
Proof.
  intros Hm Hx Hy. eexists _, _, _, _.
  split; [by apply calls_moto_exact|]. split; [by eapply st_moto_lookup|].
  split; [by apply move_run|]. split; [by eapply st_moto_lookup|].
  cbn [calls_effect call_effect recorded Moto.x Moto.y Moto.set_x Moto.set_y
       Moto.set_movement_history].
  rewrite (clamp_id _ _ (Moto.x m + dx1)), (clamp_id _ _ (Moto.y m + dy1)) by done.
  rewrite <- !Z.add_assoc. split; [done|]. split; [done|].
  intros [Hxm Hym] -> ->. rewrite !Z.add_opp_diag_r, !Z.add_0_r.
  by rewrite !clamp_id.
Qed.

(** X6. Fuel changes add up as long as the level needs no clamping: after a
    first change that stays in [0,100], a second change ends at the level
    of the one change by the sum, and the opposite change restores the
    level.  A change that would pass an end of the scale stops there. *)
Theorem fuel_changes_add_up s self m a b :
  moto_heap s !! self = Some m ->
  0 <= Moto.fuel_level m + a <= 100 ->
  exists s2 m2,
    calls_moto env self [UpdateFuel a; UpdateFuel b] s = Some (tt, s2) /\
    moto_heap s2 !! self = Some m2 /\
    Moto.fuel_level m2 = clamp 0 100 (Moto.fuel_level m + (a + b)) /\
    (fuel_ok m -> b = - a -> Moto.fuel_level m2 = Moto.fuel_level m) /\
    (100 <= Moto.fuel_level m + a + b -> Moto.fuel_level m2 = 100) /\
    (Moto.fuel_level m + a + b <= 0 -> Moto.fuel_level m2 = 0).
Proof.
  intros Hm Ha. eexists _, _.
  split; [by apply calls_moto_exact|]. split; [by eapply st_moto_lookup|].
  cbn [calls_effect call_effect recorded Moto.fuel_level Moto.set_fuel_level
       Moto.set_movement_history].
  rewrite (clamp_id _ _ (Moto.fuel_level m + a)) by done.
  rewrite <- !Z.add_assoc. split; [done|]. split_and!.
  - intros Hf ->. rewrite Z.add_opp_diag_r, Z.add_0_r. by rewrite clamp_id.
  - unfold clamp. lia.
  - unfold clamp. lia.
Qed.

(** X7. Maintenance done twice gives the fuel level, status and colour of
    maintenance done once; the second call only moves the time of the
    last maintenance and adds its own snapshot. *)
Theorem perform_maintenance_twice s self m :
  moto_heap s !! self = Some m ->
  exists s1 m1 s2 m2,
    perform_maintenance env self s = Some (tt, s1) /\
    moto_heap s1 !! self = Some m1 /\
    perform_maintenance env self s1 = Some (tt, s2) /\
    moto_heap s2 !! self = Some m2 /\
    Moto.fuel_level m2 = Moto.fuel_level m1 /\
    Moto.status m2 = Moto.status m1 /\
    Moto.color m2 = Moto.color m1 /\
    Moto.x m2 = Moto.x m1 /\ Moto.y m2 = Moto.y m1 /\
    Moto.last_maintenance m2 = clock env (clock_reads s + 2) /\
    Moto.movement_history m2 =
      Moto.movement_history m1 ++ [snapshot_of (clock env (clock_reads s + 3)) m1].
Proof.
  intros Hm. eexists _, _, _, _.
  split; [by apply perform_maintenance_run|]. split; [by eapply st_moto_lookup|].
  split; [eapply perform_maintenance_run; by eapply st_moto_lookup|].
  split; [eapply st_moto_lookup; by eapply st_moto_lookup|].
  simpl. replace (S (clock_reads s + 2)) with (clock_reads s + 3)%nat by lia.
  done.
Qed.

End MotoCalls.

(** ** Creation of a moto *)

Lemma substring_length n : forall (u : string), (String.length (String.substring 0 n u) <= n)%nat.
Proof.
  induction n as [|n IH]; intros [|a u]; simpl; try lia.
  specialize (IH u). lia.
Qed.

Section CreationFull.
Variable env : Env.

Lemma Moto_init_full moto_id s :
  exists m,
    Moto_init env moto_id s =
      Some (length (moto_heap s),
            {| clock_reads := clock_reads s + 2; rand_draws := rand_draws s + 6;
               uuid_draws := uuid_draws s + (given_id env s moto_id).2;
               moto_heap := moto_heap s ++ [m]; reader_heap := reader_heap s |})
    /\ created_moto env s moto_id m.
Proof.
  unfold Moto_init.
  set (pick_id := match moto_id with Some i => _ | None => _ end).
  assert (Hid : pick_id s =
            Some ((given_id env s moto_id).1,
                  with_uuid_draws (uuid_draws s + (given_id env s moto_id).2) s)).
  { subst pick_id. unfold given_id. destruct moto_id as [i|]; [case_decide|]; simpl.
    - unfold uuid8. by rewrite Nat.add_1_r.
    - unfold mret, M_ret. rewrite Nat.add_0_r. by destruct s.
    - unfold uuid8. by rewrite Nat.add_1_r. }
  erewrite bind_eq by exact Hid. clear Hid pick_id.
  set (i := (given_id env s moto_id).1).
  set (u := (given_id env s moto_id).2).
  erewrite bind_eq by (by apply choice_run).
  erewrite bind_eq by (by apply choice_run).
  erewrite bind_eq by (by apply randint_run).
  erewrite bind_eq by reflexivity.
  erewrite bind_eq by (by apply randint_run).
  cbv beta.
  set (model := nth _ MOTO_MODELS _).
  set (status := nth _ STATUSES _).
  assert (Hmodel : model ∈ MOTO_MODELS) by (by apply choice_elem).
  assert (Hstatus : status ∈ STATUSES) by (by apply choice_elem).
  pose proof (randint_range 10 100 (rand env (S (S (rand_draws s)))) ltac:(lia)) as Hfuel.
  pose proof (randint_range 0 90 (rand env (S (S (S (rand_draws s))))) ltac:(lia)) as Hdays.
  case_decide as Hst.
  all: erewrite bind_eq;
    [| erewrite bind_eq by reflexivity;
       erewrite bind_eq by (by apply randint_run);
       erewrite bind_eq by reflexivity;
       erewrite bind_eq by (by apply randint_run);
       reflexivity ].
  all: simpl.
  all: erewrite bind_eq by reflexivity.
  all: erewrite bind_eq by (apply record_position_run; apply lookup_snoc).
  all: erewrite bind_eq
    by (eapply update_color_run, st_moto_lookup; apply lookup_snoc).
  all: st_norm; unfold mret, M_ret, st_moto; simpl; rewrite insert_snoc.
  all: eexists; split; [ do 3 f_equal; lia | ].
  all: split; simpl;
    [ split; simpl; [done | done | done | | by eexists | done]
    | done | by eexists | done ].
  - rewrite decide_True by done.
    pose proof (Z.mod_pos_bound (rand env (S (S (S (S (rand_draws s)))))) (30 - 5 - 5 + 1)).
    pose proof (Z.mod_pos_bound (rand env (S (S (S (S (S (rand_draws s))))))) (10 - 2 - 2 + 1)).
    lia.
  - rewrite decide_False by done.
    pose proof (Z.mod_pos_bound (rand env (S (S (S (S (rand_draws s)))))) (60 - 5 - 5 + 1)).
    pose proof (Z.mod_pos_bound (rand env (S (S (S (S (S (rand_draws s))))))) (60 - 5 - 5 + 1)).
    lia.
Qed.

(** X8. A moto keeps the identifier it is created with, and no uuid is
    drawn for it; without an identifier, or with the empty string as
    identifier, it gets the first eight characters of a new uuid. *)
Theorem creation_identifier moto_id s :
  exists self s' m,
    Moto_init env moto_id s = Some (self, s') /\
    moto_heap s' !! self = Some m /\
    (forall i, moto_id = Some i -> i <> "" ->
       Moto.id m = i /\ uuid_draws s' = uuid_draws s) /\
    (moto_id = None \/ moto_id = Some "" ->
       Moto.id m = String.substring 0 8 (uuid4 env (uuid_draws s)) /\
       (String.length (Moto.id m) <= 8)%nat /\
       uuid_draws s' = S (uuid_draws s)).
Proof.
  destruct (Moto_init_full moto_id s) as (m & Hrun & Hm).
  eexists _, _, m. split; [exact Hrun|]. split; [apply lookup_snoc|].
  destruct Hm as [_ Hid _ _]. unfold given_id in *. split.
  - intros i -> Hi. simpl. rewrite decide_False in * by done. simpl in *.
    split; [done | lia].
  - intros Hnone.
    assert (Moto.id m = String.substring 0 8 (uuid4 env (uuid_draws s)) /\
            (uuid_draws s + (match moto_id with
               | Some i => if decide (i = "")
                           then (String.substring 0 8 (uuid4 env (uuid_draws s)), 1%nat)
                           else (i, 0%nat)
               | None => (String.substring 0 8 (uuid4 env (uuid_draws s)), 1%nat)
               end).2 = S (uuid_draws s))%nat) as [Hm Hu].
    { destruct Hnone as [-> | ->]; simpl in *; split; (done || lia). }
    simpl. rewrite Hu, Hm. split; [done|]. split; [apply substring_length | done].
Qed.

(** X9. A moto is created inside the area of its status, off the border:
    the maintenance area for 'em manutenção', where it keeps 5 units to
    the left and right borders and 2 units to the lower and upper ones,
    and the parking area for the other statuses, where it keeps 5 units
    to every border. *)
Theorem creation_places_in_home_area moto_id s :
  exists self s' m a,
    Moto_init env moto_id s = Some (self, s') /\
    moto_heap s' !! self = Some m /\
    AREAS !! home_area (Moto.status m) = Some a /\
    off_border a (home_margin (Moto.status m)).1 (home_margin (Moto.status m)).2 m /\
    inside_area a m.
Proof.
  destruct (Moto_init_full moto_id s) as (m & Hrun & Hm).
  destruct Hm as [[_ _ _ Hzone _ _] _ _ _]. unfold home_area, home_margin.
  destruct (decide (Moto.status m = "em manutenção")) as [Hst|Hst].
  - eexists _, _, m, _. split; [exact Hrun|]. split; [apply lookup_snoc|].
    rewrite !decide_True by done.
    split; [reflexivity|]. unfold off_border, inside_area. simpl. lia.
  - eexists _, _, m, _. split; [exact Hrun|]. split; [apply lookup_snoc|].
    rewrite !decide_False by done.
    split; [reflexivity|]. unfold off_border, inside_area. simpl. lia.
Qed.

(** X10. Creation puts the new moto at an address that was free and writes
    nothing else: the motos and readers already there stay as they were.
    It draws six random numbers and reads the clock twice; the last
    maintenance is a whole number of days, from 0 to 90, before the first
    reading, and the history holds one snapshot, of the moto as created,
    stamped with the second reading. *)
Theorem creation_adds_one_moto moto_id s :
  exists self s' m,
    Moto_init env moto_id s = Some (self, s') /\
    moto_heap s !! self = None /\
    moto_heap s' !! self = Some m /\
    (forall other, other <> self -> moto_heap s' !! other = moto_heap s !! other) /\
    reader_heap s' = reader_heap s /\
    rand_draws s' = (rand_draws s + 6)%nat /\
    clock_reads s' = (clock_reads s + 2)%nat /\
    (exists days, 0 <= days <= 90 /\
       Moto.last_maintenance m = clock env (clock_reads s) - days * 86400000000) /\
    Moto.movement_history m = [snapshot_of (clock env (S (clock_reads s))) m].
Proof.
  destruct (Moto_init_full moto_id s) as (m & Hrun & Hm).
  eexists _, _, m. split; [exact Hrun|].
  split; [by apply lookup_ge_None_2|]. split; [apply lookup_snoc|].
  split; [|by destruct Hm].
  intros other Hne. simpl.
  destruct (decide (other < length (moto_heap s))%nat).
  - by rewrite lookup_app_l.
  - rewrite !lookup_ge_None_2; [done | lia |]. rewrite length_app. simpl. lia.
Qed.

End CreationFull.

(** ** Detection *)

Lemma filter_none {A} (P : A -> Prop) `{!forall x, Decision (P x)} (l : list A) :
  Forall (fun x => ~ P x) l -> filter P l = [].
Proof.
  induction 1 as [|x l Hx _ IH]; [done|]. by rewrite filter_cons_False.
Qed.

Lemma filter_all {A} (P : A -> Prop) `{!forall x, Decision (P x)} (l : list A) :
  Forall P l -> filter P l = l.
Proof.
  induction 1 as [|x l Hx _ IH]; [done|]. rewrite filter_cons_True by done. by rewrite IH.
Qed.



Lemma log_events_app now_at k r ms1 ms2 :
  log_events now_at k r (ms1 ++ ms2) =
    log_events now_at k r ms1 ++ log_events now_at (k + length ms1) r ms2.
Proof.
  revert k. induction ms1 as [|m ms1 IH]; intros k; simpl.
  - by rewrite Nat.add_0_r.
  - rewrite IH. do 3 f_equal. lia.
Qed.

Lemma deref_app s l1 l2 : deref s (l1 ++ l2) = deref s l1 ++ deref s l2.
Proof.
  induction l1 as [|moto l1 IH]; simpl; [done|].
  destruct (moto_heap s !! moto); simpl; by rewrite IH.
Qed.



#[global] Instance at_reader_dec s r moto : Decision (at_reader s r moto).
Proof.
  unfold at_reader. destruct (moto_heap s !! moto) as [m|].
  - destruct (decide (Moto.x m = RFIDReader.x r /\ Moto.y m = RFIDReader.y r)).
    + left. eauto.
    + right. by intros (? & [= <-] & ?).
  - right. by intros (? & ? & ?).
Defined.

Section DetectionMore.
Variable env : Env.



(** X13. Detection of a list in two parts: the motos detected in
    [motos1 ++ motos2] are those detected in [motos1] followed by those
    detected in [motos2], and the final state is the one of the two
    detections run one after the other. *)
Theorem detect_motos_app s self r (motos1 motos2 : list ref) :
  reader_heap s !! self = Some r ->
  valid_motos s (motos1 ++ motos2) ->
  detect_motos env self (motos1 ++ motos2) s =
    (detected1 ← detect_motos env self motos1;
     detected2 ← detect_motos env self motos2;
     mret (detected1 ++ detected2)) s.
Proof.
  intros Hr Hvalid. apply Forall_app in Hvalid as [Hv1 Hv2].
  rewrite (detect_motos_run env s self r (motos1 ++ motos2) Hr)
    by (by apply Forall_app).
  erewrite bind_eq by (by apply detect_motos_run).
  set (d1 := filter (within_radius s r) motos1).
  set (r1 := RFIDReader.set_detections
               (RFIDReader.detections r ++
                  log_events (clock env) (clock_reads s) r (deref s d1)) r).
  set (s1 := st_detected env s self r d1).
  assert (Hr1 : reader_heap s1 !! self = Some r1) by (by eapply st_reader_lookup).
  assert (Hsame : forall x, within_radius s1 r1 x <-> within_radius s r x) by done.
  erewrite bind_eq by (by apply (detect_motos_run env s1 self r1 motos2 Hr1)).
  rewrite (list_filter_iff (within_radius s1 r1) (within_radius s r) motos2 Hsame).
  unfold mret, M_ret. rewrite filter_app. fold d1.
  set (d2 := filter (within_radius s r) motos2).
  do 2 f_equal. unfold st_detected. subst s1. unfold st_detected.
  rewrite st_reader_st_reader, length_app. f_equal.
  subst r1. simpl. rewrite log_events_set_detections.
  rewrite deref_app, log_events_app, <- app_assoc.
  rewrite (deref_ext (st_reader _ _ _ _) s d2) by done.
  rewrite deref_length by (by apply valid_motos_filter). done.
Qed.

(** X14. Detection in float64 grows with the radius, where float64 loses
    nothing (squared distances below 2^52, radii below 2^53 in absolute
    value): of two readers at the same place, the one with the smaller
    radius detects a part of what the other detects, namely those motos
    of it that are within the smaller radius. *)
Theorem detect_motos_monotone_in_radius s near far r1 r2 (motos : list ref) :
  reader_heap s !! near = Some r1 ->
  reader_heap s !! far = Some r2 ->
  same_place r1 r2 ->
  RFIDReader.range r1 <= RFIDReader.range r2 ->
  valid_motos s motos ->
  exact_on s r1 motos ->
  exact_on s r2 motos ->
  exists d1 s1 d2 s2,
    Float64.detect_motos env near motos s = Some (d1, s1) /\
    Float64.detect_motos env far motos s = Some (d2, s2) /\
    d1 = filter (within_radius s r1) d2 /\
    d1 `sublist_of` d2.
Proof.
  intros Hr1 Hr2 [Hx Hy] Hle Hvalid Hexact1 Hexact2.
  eexists _, _, _, _.
  split; [rewrite (detect_motos_exact_zone env s near r1) by done; by apply detect_motos_run|].
  split; [rewrite (detect_motos_exact_zone env s far r2) by done; by apply detect_motos_run|].
  assert (Heq : filter (within_radius s r1) motos =
                filter (within_radius s r1) (filter (within_radius s r2) motos)).
  { symmetry. apply list_filter_filter_l. intros moto (m & Hm & Hd).
    exists m. split; [done|].
    assert (euclid r2 m = euclid r1 m) as -> by (unfold euclid; by rewrite Hx, Hy).
    etrans; [exact Hd|]. by apply IZR_le. }
  split; [exact Heq|]. rewrite Heq. apply sublist_filter.
Qed.


(** X16. On the same log and at the same time a wider window returns more,
    for two windows that [timedelta] accepts and whose starts are
    datetimes: the entries of the narrower window are those of the wider
    one that are recent enough.  Such a window that reaches before the
    oldest entry returns the whole log, and an empty log gives an empty
    answer. *)
Theorem get_recent_detections_window s self r seconds1 seconds2 :
  reader_heap s !! self = Some r ->
  seconds1 <= seconds2 ->
  window_ok (clock env (clock_reads s)) seconds1 ->
  window_ok (clock env (clock_reads s)) seconds2 ->
  exists recent1 s1 recent2 s2,
    get_recent_detections env self seconds1 s = Some (recent1, s1) /\
    get_recent_detections env self seconds2 s = Some (recent2, s2) /\
    recent1 = filter (fun d => clock env (clock_reads s) - seconds1 * 1000000
                               < det_timestamp d) recent2 /\
    recent1 `sublist_of` recent2 /\
    (Forall (fun d => clock env (clock_reads s) - seconds2 * 1000000 < det_timestamp d)
       (RFIDReader.detections r) -> recent2 = RFIDReader.detections r) /\
    (RFIDReader.detections r = [] -> recent2 = []).
Proof.
  intros Hr Hle Hok1 Hok2. eexists _, _, _, _.
  split; [by apply get_recent_detections_run|].
  split; [by apply get_recent_detections_run|].
  assert (Heq :
    filter (fun d => clock env (clock_reads s) - seconds1 * 1000000 < det_timestamp d)
      (RFIDReader.detections r) =
    filter (fun d => clock env (clock_reads s) - seconds1 * 1000000 < det_timestamp d)
      (filter (fun d => clock env (clock_reads s) - seconds2 * 1000000 < det_timestamp d)
         (RFIDReader.detections r))).
  { symmetry. apply list_filter_filter_l. intros d. lia. }
  split; [exact Heq|]. split; [rewrite Heq; apply sublist_filter|].
  split.
  - intros Hall. by apply filter_all.
  - by intros ->.
Qed.

End DetectionMore.

(** ** Ticks *)

(** The number of motos of the list within the radius of the reader at
    [reader]. *)
Definition hits (s : State) (motos : list ref) (reader : ref) : nat :=
  match reader_heap s !! reader with
  | Some r => length (filter (within_radius s r) motos)
  | None => 0
  end.

(** The detections of one pass of the readers of the list, each moto
    counted once for every reader that has it in its radius. *)
Definition total_hits (s : State) (motos : list ref) (readers : list ref) : nat :=
  sum_list (hits s motos <$> readers).

(** From [s] to [s'] the log of the reader at [a] has grown by [n] entries,
    all within its radius, and nothing else of the reader has changed. *)
Definition log_grown (s s' : State) (a : ref) (n : nat) : Prop :=
  match reader_heap s !! a with
  | Some r =>
      exists entries,
        reader_heap s' !! a =
          Some (RFIDReader.set_detections (RFIDReader.detections r ++ entries) r) /\
        length entries = n /\ Forall (event_in_range r) entries
  | None => reader_heap s' !! a = None
  end.

Lemma sum_list_app (l1 l2 : list nat) :
  sum_list (l1 ++ l2) = (sum_list l1 + sum_list l2)%nat.
Proof. induction l1 as [|n l1 IH]; simpl; [done|]. rewrite IH. lia. Qed.

Lemma occ_snoc a l b : occ a (l ++ [b]) = (occ a l + if decide (b = a) then 1 else 0)%nat.
Proof.
  unfold occ. rewrite filter_app, length_app. f_equal.
  rewrite filter_cons, filter_nil. by case_decide.
Qed.

Lemma occ_NoDup a l : NoDup l -> occ a l = if decide (a ∈ l) then 1%nat else 0%nat.
Proof.
  unfold occ. induction 1 as [|b l Hb _ IH]; [done|].
  rewrite filter_cons. destruct (decide (b = a)) as [->|Hne].
  - simpl. rewrite IH. rewrite decide_False by done. rewrite decide_True by left. done.
  - rewrite IH. case_decide; [by rewrite decide_True by (by right)|].
    rewrite decide_False; [done|]. intros [?|?]%elem_of_cons; congruence.
Qed.

Lemma set_detections_twice v w r :
  RFIDReader.set_detections v (RFIDReader.set_detections w r) = RFIDReader.set_detections v r.
Proof. done. Qed.

Lemma hits_ext s s' (motos : list ref) a r r' :
  moto_heap s' = moto_heap s ->
  reader_heap s !! a = Some r ->
  reader_heap s' !! a = Some r' ->
  r' = RFIDReader.set_detections (RFIDReader.detections r') r ->
  filter (within_radius s' r') motos = filter (within_radius s r) motos.
Proof.
  intros Hm Hr Hr' Heq. apply list_filter_iff. intros moto.
  unfold within_radius. rewrite Hm, Heq. done.
Qed.

Lemma refresh_length s motos : forall k points,
  length (refresh s k motos points) = length points.
Proof.
  induction motos as [|moto motos IH]; intros k points; simpl; [done|].
  rewrite IH. case_decide; [|done]. destruct (moto_heap s !! moto); [|done].
  by rewrite length_alter.
Qed.

Lemma refresh_matching s motos : forall before after,
  valid_motos s motos ->
  length after = length motos ->
  refresh s (length before) motos (before ++ after) = before ++ (plot_moto <$> deref s motos).
Proof.
  induction motos as [|moto motos IH]; intros before after Hvalid Hlen.
  - destruct after; [|done]. done.
  - destruct after as [|p after]; [done|].
    apply Forall_cons in Hvalid as [[m Hm] Hvalid]. simpl. rewrite Hm.
    rewrite decide_True by (rewrite length_app; simpl; lia).
    replace (alter _ (length before) (before ++ p :: after))
      with ((before ++ [plot_moto m]) ++ after).
    + replace (S (length before)) with (length (before ++ [plot_moto m]))
        by (rewrite length_app; simpl; lia).
      rewrite IH by (done || (simpl in Hlen; lia)).
      by rewrite <- app_assoc.
    + rewrite <- app_assoc. simpl.
      rewrite alter_app_r_alt by lia. rewrite Nat.sub_diag. done.
  Qed.

Section TickExact.
Variable env : Env.

Lemma refresh_points_exact s motos : forall k points,
  valid_motos s motos ->
  for_each (imap (fun i => pair (k + i)%nat) motos) points (fun moto_points '(i, moto) =>
    if decide (i < length moto_points)%nat then
      m ← get_moto moto;
      mret (alter (fun p => set_color (Moto.color m) (set_data [Moto.x m] [Moto.y m] p))
              i moto_points)
    else mret moto_points) s
  = Some (refresh s k motos points, s).
Proof.
  induction motos as [|moto motos IH]; intros k points Hvalid; [done|].
  apply Forall_cons in Hvalid as [[m Hm] Hvalid].
  cbn [imap for_each refresh]. rewrite Nat.add_0_r, Hm.
  set (points' := if decide (k < length points)%nat then _ else points).
  erewrite bind_eq with (a := points') (s' := s).
  2:{ subst points'. case_decide; [|done].
      by erewrite bind_eq by (by apply get_moto_run). }
  rewrite <- (IH (S k) points' Hvalid). f_equal.
  apply imap_ext. intros i x _. simpl. f_equal. lia.
Qed.

Lemma tick_records_exact s reader detected r :
  reader_heap s !! reader = Some r ->
  valid_motos s detected ->
  returns
    (for_each detected [] (fun new moto =>
       r ← get_reader reader;
       m ← get_moto moto;
       now ← datetime_now env;
       mret (new ++ [{| td_reader_id := RFIDReader.id r; td_moto_id := Moto.id m;
                        td_timestamp := now |}]))) s
    (fun new s' => s' = with_clock_reads (clock_reads s + length detected) s /\
                   length new = length detected).
Proof.
  intros Hr Hvalid.
  eapply returns_mono.
  - apply (returns_for_each (fun done acc s' =>
      s' = with_clock_reads (clock_reads s + length done) s /\
      length acc = length done)).
    + intros done moto acc s' Hin (-> & Hlen).
      unfold valid_motos in Hvalid. rewrite Forall_forall in Hvalid.
      destruct (Hvalid moto Hin) as [m Hmoto].
      apply returns_bind. eapply returns_eq; [by apply get_reader_run|].
      apply returns_bind. eapply returns_eq; [by apply get_moto_run|].
      apply returns_bind. eapply returns_eq; [reflexivity|].
      apply returns_ret. rewrite !length_app. simpl. split; [|lia].
      unfold with_clock_reads. simpl. f_equal. lia.
    + simpl. split; [|done]. rewrite Nat.add_0_r. by destruct s.
  - by intros.
Qed.

(** What the detection pass of a tick does: the motos stay, no random
    number is drawn, the log of each reader grows by its hits for every
    time the reader is in the list, and the clock is read twice for each
    detection. *)
Lemma detection_pass_exact s motos readers :
  valid_motos s motos ->
  valid_readers s readers ->
  returns
    (for_each readers [] (fun all_detections reader =>
       detected ← detect_motos env reader motos;
       new ← for_each detected [] (fun new moto =>
         r ← get_reader reader;
         m ← get_moto moto;
         now ← datetime_now env;
         mret (new ++ [{| td_reader_id := RFIDReader.id r; td_moto_id := Moto.id m;
                          td_timestamp := now |}]));
       mret (all_detections ++ new))) s
    (fun all_detections s' =>
       moto_heap s' = moto_heap s /\
       rand_draws s' = rand_draws s /\ uuid_draws s' = uuid_draws s /\
       length all_detections = total_hits s motos readers /\
       clock_reads s' = (clock_reads s + 2 * total_hits s motos readers)%nat /\
       forall a, log_grown s s' a (occ a readers * hits s motos a)).
Proof.
  intros Hvalid Hreaders.
  apply (returns_for_each (fun done (acc : list TickDetection) s' =>
    moto_heap s' = moto_heap s /\
    rand_draws s' = rand_draws s /\ uuid_draws s' = uuid_draws s /\
    length acc = total_hits s motos done /\
    clock_reads s' = (clock_reads s + 2 * total_hits s motos done)%nat /\
    forall a, log_grown s s' a (occ a done * hits s motos a))).
  2:{ split_and!; try done. intros a. unfold log_grown.
      destruct (reader_heap s !! a) as [r|] eqn:Hr; [|done].
      exists []. rewrite app_nil_r. split; [|done].
      f_equal. by destruct r. }
  intros done b acc s' Hin (Hm & Hrand & Huuid & Hlen & Hclock & Hlogs).
  unfold valid_readers in Hreaders. rewrite Forall_forall in Hreaders.
  destruct (Hreaders b Hin) as [rb Hrb].
  pose proof (Hlogs b) as Hb. unfold log_grown in Hb. rewrite Hrb in Hb.
  destruct Hb as (entries & Hrb' & Hentries & Hin_range).
  set (rb' := RFIDReader.set_detections (RFIDReader.detections rb ++ entries) rb) in *.
  assert (Hvalid' : valid_motos s' motos).
  { eapply valid_motos_ext; [|done]. by rewrite Hm. }
  assert (Hfilter : filter (within_radius s' rb') motos = filter (within_radius s rb) motos).
  { by apply (hits_ext s s' motos b rb rb'). }
  assert (Hhits : hits s motos b = length (filter (within_radius s rb) motos)).
  { unfold hits. by rewrite Hrb. }
  apply returns_bind. eapply returns_eq; [by apply detect_motos_run|].
  rewrite Hfilter. set (found := filter (within_radius s rb) motos) in *.
  apply returns_bind. eapply returns_mono.
  { eapply tick_records_exact.
    - by eapply st_reader_lookup.
    - by apply valid_motos_filter. }
  intros new s'' (-> & Hnew). apply returns_ret.
  unfold total_hits. rewrite fmap_app, sum_list_app. simpl.
  fold (total_hits s motos done). rewrite Hhits.
  split_and!; try done.
  - rewrite length_app. lia.
  - simpl. lia.
  - intros a. unfold log_grown. rewrite occ_snoc.
    destruct (decide (b = a)) as [<-|Hne].
    + rewrite Hrb. simpl. rewrite list_lookup_insert_eq by (by eapply lookup_lt_Some).
      eexists. split; [|split].
      * f_equal. subst rb'. rewrite set_detections_twice. simpl.
        rewrite log_events_set_detections, <- app_assoc. reflexivity.
      * rewrite length_app, log_events_length, Hentries, Hhits.
        rewrite deref_length by (by apply valid_motos_filter). lia.
      * apply Forall_app. split; [done|].
        rewrite (deref_ext s' s) by done. apply log_events_in_range.
    + pose proof (Hlogs a) as Ha. unfold log_grown in Ha.
      destruct (reader_heap s !! a) as [ra|] eqn:Hra.
      * destruct Ha as (ea & Hra' & Hea & Hina). exists ea.
        simpl. rewrite list_lookup_insert_ne by done.
        split; [done|]. split; [lia | done].
      * simpl. by rewrite list_lookup_insert_ne.
Qed.

(** The whole of a tick. *)
Lemma update_visualization_exact sim frame s :
  wf_sim sim s ->
  let motos := MottuPatioSimulation.motos sim in
  let readers := MottuPatioSimulation.readers sim in
  let ms := deref s motos in
  let points := refresh s 0 motos (MottuPatioSimulation.moto_points sim) in
  let text := status_text_of (length motos) (tally (is_status "disponível") ms)
                (tally (is_status "reservada") ms) (tally (is_status "em manutenção") ms)
                (total_hits s motos readers) in
  returns (update_visualization env sim frame) s (fun '(out, sim') s' =>
    out = (points, text) /\
    sim' = MottuPatioSimulation.set_status_text text
             (MottuPatioSimulation.set_moto_points points sim) /\
    moto_heap s' = moto_heap s /\
    rand_draws s' = rand_draws s /\ uuid_draws s' = uuid_draws s /\
    clock_reads s' = (clock_reads s + 2 * total_hits s motos readers)%nat /\
    forall a, log_grown s s' a (occ a readers * hits s motos a)).
Proof.
  intros [Hmotos Hreaders] motos readers ms points text. unfold update_visualization.
  apply returns_bind. eapply returns_eq.
  { apply (refresh_points_exact s motos 0 (MottuPatioSimulation.moto_points sim) Hmotos). }
  apply returns_bind. eapply returns_mono; [by apply detection_pass_exact|].
  intros all s' (Hm & Hrand & Huuid & Hlen & Hclock & Hlogs).
  assert (Hmotos' : valid_motos s' motos).
  { eapply valid_motos_ext; [|done]. by rewrite Hm. }
  apply returns_bind. eapply returns_eq; [by apply count_motos_run|].
  apply returns_bind. eapply returns_eq; [by apply count_motos_run|].
  apply returns_bind. eapply returns_eq; [by apply count_motos_run|].
  apply returns_ret. rewrite (deref_ext s' s) by done. rewrite Hlen.
  by split_and!.
Qed.

End TickExact.

(** ** Construction of a simulation *)

Lemma deref_new (ms : list Moto.t) : forall (h : list Moto.t) s',
  moto_heap s' = h ++ ms ->
  deref s' (seq (length h) (length ms)) = ms.
Proof.
  induction ms as [|m ms IH]; intros h s' Hh; [done|].
  simpl. rewrite Hh, list_lookup_middle by done.
  f_equal. replace (S (length h)) with (length (h ++ [m])) by (rewrite length_app; simpl; lia).
  apply IH. by rewrite <- app_assoc.
Qed.

Lemma all_motos_new (P : Moto.t -> Prop) (ms : list Moto.t) : forall (h : list Moto.t) s',
  moto_heap s' = h ++ ms ->
  Forall P ms ->
  all_motos P s' (seq (length h) (length ms)).
Proof.
  induction ms as [|m ms IH]; intros h s' Hh HP; [constructor|].
  apply Forall_cons in HP as [Hm HP]. simpl. constructor.
  - exists m. split; [|done]. rewrite Hh. by apply list_lookup_middle.
  - replace (S (length h)) with (length (h ++ [m])) by (rewrite length_app; simpl; lia).
    apply IH; [|done]. by rewrite <- app_assoc.
Qed.

Section Construction.
Variable env : Env.

Lemma new_motos_exact n s :
  returns
    (for_each (seq 0 n) [] (fun motos _ =>
       moto ← Moto_init env None; mret (motos ++ [moto]))) s
    (fun motos s' => exists ms,
       motos = seq (length (moto_heap s)) n /\
       moto_heap s' = moto_heap s ++ ms /\ length ms = n /\ Forall fresh_moto ms /\
       reader_heap s' = reader_heap s /\
       clock_reads s' = (clock_reads s + 2 * n)%nat /\
       rand_draws s' = (rand_draws s + 6 * n)%nat /\
       uuid_draws s' = (uuid_draws s + n)%nat).
Proof.
  eapply returns_mono.
  - apply (returns_for_each (fun done motos s' => exists ms,
      motos = seq (length (moto_heap s)) (length done) /\
      moto_heap s' = moto_heap s ++ ms /\ length ms = length done /\
      Forall fresh_moto ms /\
      reader_heap s' = reader_heap s /\
      clock_reads s' = (clock_reads s + 2 * length done)%nat /\
      rand_draws s' = (rand_draws s + 6 * length done)%nat /\
      uuid_draws s' = (uuid_draws s + length done)%nat)).
    + intros done i motos s' _ (ms & -> & Hh & Hlen & Hfresh & Hrd & Hc & Hr & Hu).
      destruct (Moto_init_full env None s') as (m & Hrun & Hm).
      apply returns_bind. eapply returns_eq; [exact Hrun|].
      apply returns_ret. exists (ms ++ [m]). simpl.
      rewrite !length_app. simpl. rewrite Nat.add_1_r, seq_S.
      split_and!; try lia.
      * by rewrite Hh, length_app, Hlen.
      * by rewrite Hh, app_assoc.
      * apply Forall_app. split; [done|]. constructor; [apply Hm | constructor].
      * done.
    + exists []. simpl. rewrite app_nil_r. split_and!; (done || lia).
  - intros motos s' (ms & H). exists ms. by rewrite length_seq in H.
Qed.

Lemma new_readers_exact (configs : list ReaderConfig) s :
  returns
    (for_each configs [] (fun readers r =>
       reader ← RFIDReader_init (cfg_id r) (cfg_x r) (cfg_y r) (cfg_range r)
                  (cfg_color r) (cfg_name r);
       mret (readers ++ [reader]))) s
    (fun readers s' =>
       readers = seq (length (reader_heap s)) (length configs) /\
       s' = with_reader_heap (reader_heap s ++ (reader_of_config <$> configs)) s).
Proof.
  apply (returns_for_each (fun done readers s' =>
    readers = seq (length (reader_heap s)) (length done) /\
    s' = with_reader_heap (reader_heap s ++ (reader_of_config <$> done)) s)).
  - intros done c readers s' _ (-> & ->).
    apply returns_bind. eapply returns_eq; [reflexivity|].
    apply returns_ret. rewrite !length_app. simpl. rewrite Nat.add_1_r, seq_S.
    rewrite length_app, length_fmap. split; [done|].
    unfold with_reader_heap. simpl. f_equal.
    by rewrite fmap_app, app_assoc.
  - simpl. rewrite app_nil_r. split; [done|]. by destruct s.
Qed.

Lemma setup_visualization_exact sim s :
  valid_motos s (MottuPatioSimulation.motos sim) ->
  setup_visualization sim s =
    Some (MottuPatioSimulation.set_status_text ""
            (MottuPatioSimulation.set_moto_points
               (plot_moto <$> deref s (MottuPatioSimulation.motos sim)) sim), s).
Proof.
  intros Hvalid. unfold setup_visualization.
  assert (Hloop : forall motos points, valid_motos s motos ->
    for_each motos points (fun moto_points moto =>
      m ← get_moto moto; mret (moto_points ++ [plot_moto m])) s
    = Some (points ++ (plot_moto <$> deref s motos), s)).
  { clear. induction motos as [|moto motos IH]; intros points Hvalid.
    - simpl. by rewrite app_nil_r.
    - apply Forall_cons in Hvalid as [[m Hm] Hvalid]. cbn [for_each deref]. rewrite Hm.
      erewrite bind_eq by (by erewrite bind_eq by (by apply get_moto_run)).
      rewrite IH by done. by rewrite fmap_cons, <- app_assoc. }
  erewrite bind_eq by (by apply Hloop). done.
Qed.

(** The simulation and the store that [MottuPatioSimulation(num_motos)]
    builds from the store [s]. *)
Lemma MottuPatioSimulation_init_exact num_motos s :
  let n := Z.to_nat num_motos in
  exists ms,
    length ms = n /\ Forall fresh_moto ms /\
    MottuPatioSimulation_init env num_motos s =
      Some ({| MottuPatioSimulation.motos := seq (length (moto_heap s)) n;
               MottuPatioSimulation.readers := seq (length (reader_heap s)) (length READERS);
               MottuPatioSimulation.events_log := [];
               MottuPatioSimulation.current_time := clock env (clock_reads s + 2 * n);
               MottuPatioSimulation.moto_points := plot_moto <$> ms;
               MottuPatioSimulation.status_text := "" |},
            {| clock_reads := S (clock_reads s + 2 * n);
               rand_draws := rand_draws s + 6 * n;
               uuid_draws := uuid_draws s + n;
               moto_heap := moto_heap s ++ ms;
               reader_heap := reader_heap s ++ (reader_of_config <$> READERS) |}).
Proof.
  intros n. unfold MottuPatioSimulation_init.
  pose proof (new_motos_exact n s) as H1.
  apply returns_iff in H1 as (motos & s1 & Hrun1 & ms & -> & Hh & Hlen & Hfresh & Hrd & Hc & Hr & Hu).
  exists ms. split; [done|]. split; [done|].
  erewrite bind_eq by exact Hrun1.
  pose proof (new_readers_exact READERS s1) as H2.
  apply returns_iff in H2 as (readers & s2 & Hrun2 & -> & ->).
  erewrite bind_eq by exact Hrun2.
  erewrite bind_eq by reflexivity.
  rewrite setup_visualization_exact.
  - unfold with_clock_reads, with_reader_heap, MottuPatioSimulation.set_status_text,
      MottuPatioSimulation.set_moto_points.
    cbn [clock_reads rand_draws uuid_draws moto_heap reader_heap
         MottuPatioSimulation.motos MottuPatioSimulation.readers
         MottuPatioSimulation.events_log MottuPatioSimulation.current_time
         MottuPatioSimulation.moto_points MottuPatioSimulation.status_text].
    rewrite Hh, Hrd, Hc, Hr, Hu. do 3 f_equal.
    rewrite <- Hlen. f_equal. by apply (deref_new ms (moto_heap s)).
  - unfold with_clock_reads, with_reader_heap. cbn [MottuPatioSimulation.motos].
    rewrite <- Hlen. eapply all_motos_valid.
    apply (all_motos_new fresh_moto ms (moto_heap s)); [|done]. simpl. by rewrite Hh.
Qed.

End Construction.

(** ** Runs of ticks *)

Lemma log_grown_valid s s' readers :
  (forall a, exists n, log_grown s s' a n) ->
  valid_readers s readers -> valid_readers s' readers.
Proof.
  intros Hlogs Hvalid. unfold valid_readers in *. eapply Forall_impl; [exact Hvalid|].
  intros a [r Hr]. destruct (Hlogs a) as [n Ha]. unfold log_grown in Ha. rewrite Hr in Ha.
  destruct Ha as (entries & -> & _). by eexists.
Qed.

Lemma log_grown_trans s s1 s2 a n m :
  log_grown s s1 a n -> log_grown s1 s2 a m -> log_grown s s2 a (n + m).
Proof.
  unfold log_grown. destruct (reader_heap s !! a) as [r|].
  - intros (e1 & -> & Hl1 & Hr1) (e2 & -> & Hl2 & Hr2).
    exists (e1 ++ e2). simpl. rewrite app_assoc. split; [done|].
    rewrite length_app, Hl1, Hl2. split; [done|]. by apply Forall_app.
  - by intros ->.
Qed.

Lemma hits_grown s s' (motos : list ref) a n :
  moto_heap s' = moto_heap s -> log_grown s s' a n -> hits s' motos a = hits s motos a.
Proof.
  intros Hm. unfold log_grown, hits. destruct (reader_heap s !! a) as [r|].
  - intros (entries & -> & _). f_equal. apply list_filter_iff. intros moto.
    unfold within_radius. by rewrite Hm.
  - by intros ->.
Qed.

Lemma total_hits_grown s s' (motos readers : list ref) :
  moto_heap s' = moto_heap s -> (forall a, exists n, log_grown s s' a n) ->
  total_hits s' motos readers = total_hits s motos readers.
Proof.
  intros Hm Hlogs. unfold total_hits. f_equal. apply list_fmap_ext. intros _ a _.
  destruct (Hlogs a) as [n Ha]. by eapply hits_grown.
Qed.

Lemma log_grown_refl s a : log_grown s s a 0.
Proof.
  unfold log_grown. destruct (reader_heap s !! a) as [r|] eqn:Hr; [|done].
  exists []. rewrite app_nil_r. split; [|done]. f_equal. by destruct r.
Qed.

Section Runs.
Variable env : Env.

(** A run of ticks: every tick does the same, since nothing moves. *)
Lemma run_frames_exact sim (frames : list Z) s :
  wf_sim sim s ->
  let motos := MottuPatioSimulation.motos sim in
  let readers := MottuPatioSimulation.readers sim in
  let ms := deref s motos in
  returns (run_frames env sim frames) s (fun sim' s' =>
    MottuPatioSimulation.motos sim' = motos /\
    MottuPatioSimulation.readers sim' = readers /\
    MottuPatioSimulation.events_log sim' = MottuPatioSimulation.events_log sim /\
    MottuPatioSimulation.current_time sim' = MottuPatioSimulation.current_time sim /\
    length (MottuPatioSimulation.moto_points sim') =
      length (MottuPatioSimulation.moto_points sim) /\
    (frames <> [] ->
       MottuPatioSimulation.status_text sim' =
         status_text_of (length motos) (tally (is_status "disponível") ms)
           (tally (is_status "reservada") ms) (tally (is_status "em manutenção") ms)
           (total_hits s motos readers) /\
       (length (MottuPatioSimulation.moto_points sim) = length motos ->
        MottuPatioSimulation.moto_points sim' = plot_moto <$> ms)) /\
    moto_heap s' = moto_heap s /\
    rand_draws s' = rand_draws s /\ uuid_draws s' = uuid_draws s /\
    clock_reads s' = (clock_reads s + length frames * (2 * total_hits s motos readers))%nat /\
    forall a, log_grown s s' a (length frames * (occ a readers * hits s motos a))).
Proof.
  intros Hwf motos readers ms. unfold run_frames.
  apply (returns_for_each (fun done sim' s' =>
    MottuPatioSimulation.motos sim' = motos /\
    MottuPatioSimulation.readers sim' = readers /\
    MottuPatioSimulation.events_log sim' = MottuPatioSimulation.events_log sim /\
    MottuPatioSimulation.current_time sim' = MottuPatioSimulation.current_time sim /\
    length (MottuPatioSimulation.moto_points sim') =
      length (MottuPatioSimulation.moto_points sim) /\
    (done <> [] ->
       MottuPatioSimulation.status_text sim' =
         status_text_of (length motos) (tally (is_status "disponível") ms)
           (tally (is_status "reservada") ms) (tally (is_status "em manutenção") ms)
           (total_hits s motos readers) /\
       (length (MottuPatioSimulation.moto_points sim) = length motos ->
        MottuPatioSimulation.moto_points sim' = plot_moto <$> ms)) /\
    moto_heap s' = moto_heap s /\
    rand_draws s' = rand_draws s /\ uuid_draws s' = uuid_draws s /\
    clock_reads s' = (clock_reads s + length done * (2 * total_hits s motos readers))%nat /\
    forall a, log_grown s s' a (length done * (occ a readers * hits s motos a)))).
  2:{ split_and!; try done. intros a. apply log_grown_refl. }
  intros done frame sim1 s1 _
    (Hmotos & Hreaders & Hlog & Htime & Hpoints & Htext & Hm & Hrand & Huuid & Hclock & Hlogs).
  destruct Hwf as [Hvm Hvr].
  assert (Hwf1 : wf_sim sim1 s1).
  { split.
    - rewrite Hmotos. eapply valid_motos_ext; [|exact Hvm]. by rewrite Hm.
    - rewrite Hreaders. eapply log_grown_valid; [|exact Hvr]. intros a. eexists. apply Hlogs. }
  pose proof (update_visualization_exact env sim1 frame s1 Hwf1) as Htick.
  cbv zeta in Htick. rewrite Hmotos, Hreaders in Htick.
  fold motos readers in Htick.
  apply returns_bind. eapply returns_mono; [exact Htick|].
  intros [out sim2] s2 (_ & -> & Hm2 & Hrand2 & Huuid2 & Hclock2 & Hlogs2).
  apply returns_ret. simpl.
  assert (Hth : total_hits s1 motos readers = total_hits s motos readers).
  { apply total_hits_grown; [done|]. intros a. eexists. apply Hlogs. }
  rewrite refresh_length, length_app.
  split_and!; try done; try congruence.
  - intros _. rewrite (deref_ext s1 s) by done. rewrite Hth. split; [done|].
    intros Hmatch. fold ms.
    assert (Hlen1 : length (MottuPatioSimulation.moto_points sim1) = length motos)
      by congruence.
    pose proof (refresh_matching s1 motos [] (MottuPatioSimulation.moto_points sim1)) as Hre.
    simpl in Hre. rewrite Hre; [| | done].
    + by rewrite (deref_ext s1 s).
    + eapply valid_motos_ext; [|exact Hvm]. by rewrite Hm.
  - rewrite Hclock2, Hclock, Hth. simpl. lia.
  - intros a. replace ((length done + length [frame]) * (occ a readers * hits s motos a))%nat
      with (length done * (occ a readers * hits s motos a)
            + occ a readers * hits s1 motos a)%nat.
    + eapply log_grown_trans; [apply Hlogs | apply Hlogs2].
    + rewrite (hits_grown s s1 motos a _ Hm (Hlogs a)). simpl. lia.
Qed.

End Runs.

(** ** The two engines on ticks and runs *)

Lemma bind_agree {A B} (c : M A) (f g : A -> M B) s :
  (forall a s', c s = Some (a, s') -> f a s' = g a s') -> (c ≫= f) s = (c ≫= g) s.
Proof. unfold mbind, M_bind. intros H. destruct (c s) as [[a s']|]; auto. Qed.

Lemma bind_agree_l {A B} (c1 c2 : M A) (f : A -> M B) s :
  c1 s = c2 s -> (c1 ≫= f) s = (c2 ≫= f) s.
Proof. unfold mbind, M_bind. by intros ->. Qed.

(** Two loops whose bodies agree wherever an invariant of the second one
    holds. *)
Lemma for_each_agree {A B} (I : B -> State -> Prop) (f g : B -> A -> M B) (l : list A) :
  (forall a b s, a ∈ l -> I b s -> f b a s = g b a s) ->
  (forall a b s b' s', a ∈ l -> I b s -> g b a s = Some (b', s') -> I b' s') ->
  forall b s, I b s -> for_each l b f s = for_each l b g s.
Proof.
  induction l as [|a l IH]; intros Hagree Hkeep b s HI; [done|].
  cbn [for_each]. rewrite (bind_agree_l (f b a) (g b a)) by (apply Hagree; [left | done]).
  apply bind_agree. intros b' s' Hrun. apply IH.
  - intros a' b0 s0 Hin. apply Hagree. by right.
  - intros a' b0 s0 b1 s1 Hin. apply Hkeep. by right.
  - eapply Hkeep; [left | exact HI | exact Hrun].
Qed.

Lemma same_geometry_refl s : same_geometry s s.
Proof.
  split; [done|]. intros a. destruct (reader_heap s !! a) as [r|] eqn:Hr; [|done].
  exists (RFIDReader.detections r). by destruct r.
Qed.

Lemma same_geometry_trans s1 s2 s3 :
  same_geometry s1 s2 -> same_geometry s2 s3 -> same_geometry s1 s3.
Proof.
  intros [Hm12 Hr12] [Hm23 Hr23]. split; [congruence|]. intros a.
  specialize (Hr12 a). specialize (Hr23 a).
  destruct (reader_heap s1 !! a) as [r|].
  - destruct Hr12 as [v Hv]. rewrite Hv in Hr23. destruct Hr23 as [w Hw].
    exists w. by rewrite Hw.
  - by rewrite Hr12 in Hr23.
Qed.

Lemma log_grown_geometry s s' :
  moto_heap s' = moto_heap s -> (forall a, exists n, log_grown s s' a n) ->
  same_geometry s s'.
Proof.
  intros Hm Hlogs. split; [done|]. intros a. destruct (Hlogs a) as [n Ha].
  unfold log_grown in Ha. destruct (reader_heap s !! a) as [r|]; [|done].
  destruct Ha as (entries & -> & _). by eexists.
Qed.

Lemma same_geometry_wf sim s s' : same_geometry s s' -> wf_sim sim s -> wf_sim sim s'.
Proof.
  intros [Hm Hr] [Hvm Hvr]. split.
  - eapply valid_motos_ext; [|exact Hvm]. by rewrite Hm.
  - unfold valid_readers in *. eapply Forall_impl; [exact Hvr|].
    intros a [r Ha]. specialize (Hr a). rewrite Ha in Hr. destruct Hr as [v ->]. by eexists.
Qed.

Lemma same_geometry_exact_zone s s' readers motos :
  same_geometry s s' -> exact_zone s readers motos -> exact_zone s' readers motos.
Proof.
  intros [Hm Hr] Hzone reader r' Hin Hr' moto m Hmoto Hlookup.
  specialize (Hr reader). destruct (reader_heap s !! reader) as [r|] eqn:Hrs; [|congruence].
  destruct Hr as [v Hv]. rewrite Hv in Hr'. injection Hr' as <-.
  rewrite Hm in Hlookup.
  exact (Hzone reader r Hin Hrs moto m Hmoto Hlookup).
Qed.

Section TwoEngines.
Variable env : Env.

Lemma tick_body_geometry s (motos : list ref) reader (acc : list TickDetection) :
  valid_motos s motos ->
  is_Some (reader_heap s !! reader) ->
  returns
    (detected ← detect_motos env reader motos;
     new ← for_each detected [] (fun new moto =>
       r ← get_reader reader;
       m ← get_moto moto;
       now ← datetime_now env;
       mret (new ++ [{| td_reader_id := RFIDReader.id r; td_moto_id := Moto.id m;
                        td_timestamp := now |}]));
     mret (acc ++ new)) s
    (fun _ s' => same_geometry s s').
Proof.
  intros Hvalid [r Hr].
  apply returns_bind. eapply returns_eq; [by apply detect_motos_run|].
  apply returns_bind. eapply returns_mono.
  { eapply tick_records_exact.
    - by eapply st_reader_lookup.
    - by apply valid_motos_filter. }
  intros new s'' (-> & _). apply returns_ret.
  split; [done|]. intros a. simpl.
  destruct (decide (a = reader)) as [->|Hne].
  - rewrite Hr, list_lookup_insert_eq by (by eapply lookup_lt_Some). by eexists.
  - rewrite list_lookup_insert_ne by done.
    apply (proj2 (same_geometry_refl s) a).
Qed.

(** Where float64 is exact for the motos and readers of the simulation,
    a tick of the one engine is a tick of the other. *)
Lemma update_visualization_exact_zone sim frame s :
  wf_sim sim s ->
  exact_zone s (MottuPatioSimulation.readers sim) (MottuPatioSimulation.motos sim) ->
  Float64.update_visualization env sim frame s = update_visualization env sim frame s.
Proof.
  intros Hwf Hzone. unfold Float64.update_visualization, update_visualization.
  apply bind_agree. intros points s1 Hpoints.
  pose proof (refresh_points_exact s (MottuPatioSimulation.motos sim) 0
                (MottuPatioSimulation.moto_points sim) (proj1 Hwf)) as Hre.
  pose proof (eq_trans (eq_sym Hpoints) Hre) as Heq. injection Heq as _ ->.
  apply bind_agree_l.
  apply (for_each_agree (fun _ s' => same_geometry s s')); [| |apply same_geometry_refl].
  - intros reader acc s' Hin Hgeo.
    pose proof (same_geometry_wf sim s s' Hgeo Hwf) as [Hvm Hvr].
    unfold valid_readers in Hvr. rewrite Forall_forall in Hvr.
    destruct (Hvr reader Hin) as [r Hr].
    apply bind_agree_l. apply (detect_motos_exact_zone env s' reader r); [done..|].
    by apply (same_geometry_exact_zone s s' _ _ Hgeo Hzone reader r).
  - intros reader acc s' acc' s'' Hin Hgeo Hrun.
    pose proof (same_geometry_wf sim s s' Hgeo Hwf) as [Hvm Hvr].
    unfold valid_readers in Hvr. rewrite Forall_forall in Hvr.
    pose proof (tick_body_geometry s' (MottuPatioSimulation.motos sim) reader acc
                  Hvm (Hvr reader Hin)) as Hbody.
    unfold returns in Hbody. rewrite Hrun in Hbody.
    by eapply same_geometry_trans.
Qed.

Lemma run_frames_exact_zone sim (frames : list Z) s :
  wf_sim sim s ->
  exact_zone s (MottuPatioSimulation.readers sim) (MottuPatioSimulation.motos sim) ->
  Float64.run_frames env sim frames s = run_frames env sim frames s.
Proof.
  intros Hwf Hzone. unfold Float64.run_frames, run_frames.
  apply (for_each_agree (fun sim' s' =>
    MottuPatioSimulation.motos sim' = MottuPatioSimulation.motos sim /\
    MottuPatioSimulation.readers sim' = MottuPatioSimulation.readers sim /\
    same_geometry s s')); [| |by split_and!; [..|apply same_geometry_refl]].
  - intros frame sim' s' _ (Hmotos & Hreaders & Hgeo).
    apply bind_agree_l. apply update_visualization_exact_zone.
    + destruct (same_geometry_wf sim s s' Hgeo Hwf). split; congruence.
    + rewrite Hmotos, Hreaders. by eapply same_geometry_exact_zone.
  - intros frame sim' s' sim'' s'' _ (Hmotos & Hreaders & Hgeo) Hrun.
    assert (Hwf' : wf_sim sim' s').
    { destruct (same_geometry_wf sim s s' Hgeo Hwf). split; congruence. }
    pose proof (update_visualization_exact env sim' frame s' Hwf') as Htick.
    cbv zeta in Htick.
    unfold mbind, M_bind in Hrun.
    apply returns_iff in Htick as ([out sim2] & s2 & Htick & _ & -> & Hm & _ & _ & _ & Hlogs).
    rewrite Htick in Hrun. injection Hrun as <- <-.
    split_and!; [done..|].
    eapply same_geometry_trans; [exact Hgeo|].
    apply log_grown_geometry; [done|]. intros a. eexists. apply Hlogs.
Qed.

End TwoEngines.

(** ** The tick, the report and the session *)

Lemma status_tallies_known ms :
  (tally (is_status "disponível") ms + tally (is_status "reservada") ms +
   tally (is_status "em manutenção") ms = tally has_known_status ms)%nat.
Proof.
  induction ms as [|m ms IH]; [done|].
  rewrite !tally_cons, <- IH. unfold has_known_status, is_status.
  destruct (decide (Moto.status m = "disponível")) as [Hd|Hd];
    [rewrite Hd; simpl; lia|].
  destruct (decide (Moto.status m = "reservada")) as [Hr|Hr];
    [rewrite Hr; simpl; lia|].
  destruct (decide (Moto.status m = "em manutenção")) as [Hm|Hm];
    [rewrite Hm; simpl; lia|].
  rewrite !bool_decide_eq_false_2 by done. simpl. lia.
Qed.

Lemma has_known_status_spec m : has_known_status m = true <-> known_status m.
Proof.
  unfold has_known_status, is_status, known_status, STATUSES.
  rewrite !orb_true_iff, !bool_decide_eq_true, !elem_of_cons, elem_of_nil. tauto.
Qed.

Lemma tally_le cond ms : (tally cond ms <= length ms)%nat.
Proof. unfold tally. apply length_filter. Qed.

Lemma log_grown_zero s s' a : log_grown s s' a 0 -> reader_heap s' !! a = reader_heap s !! a.
Proof.
  unfold log_grown. destruct (reader_heap s !! a) as [r|]; [|done].
  intros (entries & -> & Hlen & _). destruct entries; [|done].
  rewrite app_nil_r. f_equal. by destruct r.
Qed.

Section TickAndReport.
Variable env : Env.

(** X17. A tick in float64, where float64 loses nothing for the motos and
    readers of the simulation (squared distances below 2^52, radii below
    2^53 in absolute value).  The status text shows the number of motos,
    the number of motos of each of the three statuses, and as detections
    the sum over the readers of the motos within their radius: a moto in
    the radius of several readers is counted once for each.  The tick
    reads the clock twice for each detection. *)
Theorem tick_counts_each_detection sim frame s :
  wf_sim sim s ->
  exact_zone s (MottuPatioSimulation.readers sim) (MottuPatioSimulation.motos sim) ->
  let motos := MottuPatioSimulation.motos sim in
  let readers := MottuPatioSimulation.readers sim in
  let ms := deref s motos in
  exists points text sim' s',
    Float64.update_visualization env sim frame s = Some ((points, text), sim', s') /\
    MottuPatioSimulation.status_text sim' = text /\
    text = status_text_of (length motos) (tally (is_status "disponível") ms)
             (tally (is_status "reservada") ms) (tally (is_status "em manutenção") ms)
             (total_hits s motos readers) /\
    clock_reads s' = (clock_reads s + 2 * total_hits s motos readers)%nat /\
    rand_draws s' = rand_draws s.
Proof.
  intros Hwf Hexact motos readers ms.
  pose proof (update_visualization_exact env sim frame s Hwf) as H. cbv zeta in H.
  apply returns_iff in H as ([out sim'] & s' & Hrun & -> & -> & _ & Hrand & _ & Hclock & _).
  rewrite <- (update_visualization_exact_zone env sim frame s Hwf Hexact) in Hrun.
  eexists _, _, _, s'. split; [exact Hrun|]. by split_and!.
Qed.

(** X18. A tick in float64, where float64 loses nothing for the motos and
    readers of the simulation, adds to the log of each reader of the
    simulation one entry for each moto within its radius, all within the
    radius, and changes nothing else of the reader; a reader that is not
    in the simulation is left as it is. *)
Theorem tick_extends_reader_logs sim frame s :
  wf_sim sim s ->
  NoDup (MottuPatioSimulation.readers sim) ->
  exact_zone s (MottuPatioSimulation.readers sim) (MottuPatioSimulation.motos sim) ->
  exists out sim' s',
    Float64.update_visualization env sim frame s = Some (out, sim', s') /\
    (forall reader r,
       reader ∈ MottuPatioSimulation.readers sim ->
       reader_heap s !! reader = Some r ->
       exists entries,
         reader_heap s' !! reader =
           Some (RFIDReader.set_detections (RFIDReader.detections r ++ entries) r) /\
         length entries =
           length (filter (within_radius s r) (MottuPatioSimulation.motos sim)) /\
         Forall (event_in_range r) entries) /\
    (forall other,
       other ∉ MottuPatioSimulation.readers sim ->
       reader_heap s' !! other = reader_heap s !! other).
Proof.
  intros Hwf Hnodup Hexact.
  pose proof (update_visualization_exact env sim frame s Hwf) as H. cbv zeta in H.
  apply returns_iff in H as ([out sim'] & s' & Hrun & _ & _ & _ & _ & _ & _ & Hlogs).
  rewrite <- (update_visualization_exact_zone env sim frame s Hwf Hexact) in Hrun.
  exists out, sim', s'. split; [exact Hrun|]. split.
  - intros reader r Hin Hr. pose proof (Hlogs reader) as Ha.
    rewrite occ_NoDup, decide_True in Ha by done.
    unfold log_grown, hits in Ha. rewrite Hr in Ha.
    destruct Ha as (entries & Hr' & Hlen & Hrange). exists entries.
    split; [done|]. split; [lia | done].
  - intros other Hout. pose proof (Hlogs other) as Ha.
    rewrite occ_NoDup, decide_False in Ha by done. by apply log_grown_zero.
Qed.

(** X19. A tick redraws the markers and writes nothing else of the
    simulation object but the status text: the lists of motos and readers,
    the event log and the construction time stay.  With one marker for
    each moto, every marker shows the position and colour of its moto
    after the tick; the number of markers never changes. *)
Theorem tick_redraws_markers sim frame s :
  wf_sim sim s ->
  exists points text sim' s',
    update_visualization env sim frame s = Some ((points, text), sim', s') /\
    sim' = MottuPatioSimulation.set_status_text text
             (MottuPatioSimulation.set_moto_points points sim) /\
    length points = length (MottuPatioSimulation.moto_points sim) /\
    (length (MottuPatioSimulation.moto_points sim) =
       length (MottuPatioSimulation.motos sim) ->
     points = plot_moto <$> deref s (MottuPatioSimulation.motos sim)).
Proof.
  intros Hwf.
  pose proof (update_visualization_exact env sim frame s Hwf) as H. cbv zeta in H.
  apply returns_iff in H as ([out sim'] & s' & Hrun & -> & -> & _).
  eexists _, _, _, s'. split; [exact Hrun|]. split; [done|].
  split; [apply refresh_length|].
  intros Hlen. destruct Hwf as [Hvm _].
  by apply (refresh_matching s (MottuPatioSimulation.motos sim) []).
Qed.

(** X20. [MottuPatioSimulation(num_motos)] adds to the store as many new
    motos as asked, none for a negative number, and one reader with an
    empty log for each entry of [READERS], in the order of the table, and
    leaves what was in the store.  The object holds the references to
    them, one marker for each moto at its position and in its colour, an
    empty event log and an empty status text. *)
Theorem construction_builds_motos_and_readers num_motos s :
  exists sim s' ms,
    MottuPatioSimulation_init env num_motos s = Some (sim, s') /\
    moto_heap s' = moto_heap s ++ ms /\
    length ms = Z.to_nat num_motos /\ Forall fresh_moto ms /\
    (num_motos <= 0 -> ms = []) /\
    reader_heap s' = reader_heap s ++ (reader_of_config <$> READERS) /\
    MottuPatioSimulation.motos sim = seq (length (moto_heap s)) (length ms) /\
    MottuPatioSimulation.readers sim = seq (length (reader_heap s)) (length READERS) /\
    deref s' (MottuPatioSimulation.motos sim) = ms /\
    MottuPatioSimulation.moto_points sim = plot_moto <$> ms /\
    MottuPatioSimulation.events_log sim = [] /\
    MottuPatioSimulation.status_text sim = "" /\
    wf_sim sim s'.
Proof.
  destruct (MottuPatioSimulation_init_exact env num_motos s) as (ms & Hlen & Hfresh & Hrun).
  eexists _, _, ms. split; [exact Hrun|].
  cbn [moto_heap reader_heap MottuPatioSimulation.motos MottuPatioSimulation.readers
       MottuPatioSimulation.events_log MottuPatioSimulation.moto_points
       MottuPatioSimulation.status_text].
  rewrite Hlen.
  split_and!; try done.
  - intros Hneg. apply nil_length_inv. lia.
  - rewrite <- Hlen. by apply (deref_new ms (moto_heap s)).
  - split; cbn [moto_heap reader_heap MottuPatioSimulation.motos MottuPatioSimulation.readers].
    + rewrite <- Hlen. eapply all_motos_valid.
      by apply (all_motos_new fresh_moto ms (moto_heap s)).
    + unfold valid_readers. apply Forall_forall. intros a Ha.
      apply elem_of_seq in Ha. apply lookup_lt_is_Some. cbn [reader_heap].
      rewrite length_app, length_fmap. lia.
Qed.

(** X21. Ticks in float64 pile up, where float64 loses nothing for the
    motos and readers of the simulation: since nothing moves, each tick
    of a run detects the same motos, so after a run the log of every
    reader of the simulation has grown by the number of frames times the
    number of motos within its radius.  The logs are never trimmed. *)
Theorem ticks_accumulate sim (frames : list Z) s :
  wf_sim sim s ->
  NoDup (MottuPatioSimulation.readers sim) ->
  exact_zone s (MottuPatioSimulation.readers sim) (MottuPatioSimulation.motos sim) ->
  exists sim' s',
    Float64.run_frames env sim frames s = Some (sim', s') /\
    moto_heap s' = moto_heap s /\
    (forall reader r,
       reader ∈ MottuPatioSimulation.readers sim ->
       reader_heap s !! reader = Some r ->
       exists r',
         reader_heap s' !! reader = Some r' /\
         length (RFIDReader.detections r') =
           (length (RFIDReader.detections r) +
            length frames *
              length (filter (within_radius s r) (MottuPatioSimulation.motos sim)))%nat /\
         RFIDReader.detections r `prefix_of` RFIDReader.detections r').
Proof.
  intros Hwf Hnodup Hexact.
  pose proof (run_frames_exact env sim frames s Hwf) as H. cbv zeta in H.
  apply returns_iff in H as (sim' & s' & Hrun & _ & _ & _ & _ & _ & _ & Hm & _ & _ & _ & Hlogs).
  rewrite <- (run_frames_exact_zone env sim frames s Hwf Hexact) in Hrun.
  exists sim', s'. split; [exact Hrun|]. split; [done|].
  intros reader r Hin Hr. pose proof (Hlogs reader) as Ha.
  rewrite occ_NoDup, decide_True in Ha by done.
  unfold log_grown, hits in Ha. rewrite Hr in Ha.
  destruct Ha as (entries & Hr' & Hlen & _). eexists. split; [exact Hr'|].
  simpl. rewrite length_app, Hlen. split; [lia|]. by apply prefix_app_r.
Qed.

(** X22. For every state whose references are valid the report is made and
    the store is left as it is.  The fuel brackets cover every moto; the
    status counts cover exactly the motos whose status is one of the
    three, so their sum is at most the number of motos. *)
Theorem report_of_any_state sim s :
  wf_sim sim s ->
  let ms := deref s (MottuPatioSimulation.motos sim) in
  exists rep,
    generate_report sim s = Some (rep, s) /\
    total_motos rep = length ms /\
    dict_total (fuel_levels rep) = total_motos rep /\
    dict_total (status_counts rep) = tally has_known_status ms /\
    (dict_total (status_counts rep) <= total_motos rep)%nat /\
    (dict_total (status_counts rep) = total_motos rep <-> Forall known_status ms).
Proof.
  intros Hwf ms.
  pose proof (generate_report_returns sim s Hwf) as H. cbv zeta in H.
  apply returns_iff in H as (rep & ? & Hrun & -> & Htotal & Hstatus & Hfuel).
  exists rep. split; [done|].
  assert (Hlen : total_motos rep = length ms).
  { rewrite Htotal. symmetry. apply deref_length. by destruct Hwf. }
  rewrite Hstatus, Hfuel, Hlen, status_counts_total, fuel_levels_total.
  fold ms. rewrite fuel_tallies, status_tallies_known.
  split_and!; try done; [apply tally_le|].
  clear. induction ms as [|m ms IH]; [by split; [constructor|]|].
  rewrite tally_cons. simpl. pose proof (tally_le has_known_status ms).
  rewrite Forall_cons, <- IH, <- has_known_status_spec.
  destruct (has_known_status m); simpl; split; intros; (lia || done || intuition lia).
Qed.

Lemma generate_report_full sim s :
  wf_sim sim s ->
  distinct_ids s (MottuPatioSimulation.readers sim) ->
  let ms := deref s (MottuPatioSimulation.motos sim) in
  exists rep,
    generate_report sim s = Some (rep, s) /\
    total_motos rep = length (MottuPatioSimulation.motos sim) /\
    status_counts rep =
      <["em manutenção" := tally (is_status "em manutenção") ms]>
      (<["reservada" := tally (is_status "reservada") ms]>
      (<["disponível" := tally (is_status "disponível") ms]> ∅)) /\
    fuel_levels rep =
      <["alto (>80%)" := tally is_alto ms]>
      (<["médio (50-80%)" := tally is_medio ms]>
      (<["baixo (20-50%)" := tally is_baixo ms]>
      (<["crítico (<20%)" := tally is_critico ms]> ∅))) /\
    (forall reader r,
       reader ∈ MottuPatioSimulation.readers sim ->
       reader_heap s !! reader = Some r ->
       reader_detections rep !! RFIDReader.id r = Some (length (RFIDReader.detections r))) /\
    (forall k n,
       reader_detections rep !! k = Some n ->
       exists reader r,
         reader ∈ MottuPatioSimulation.readers sim /\
         reader_heap s !! reader = Some r /\ RFIDReader.id r = k).
Proof.
  intros [Hmotos Hreaders] Hids ms. unfold generate_report. cbv zeta.
  set (readers := MottuPatioSimulation.readers sim) in *.
  assert (Hloop :
    returns
      (for_each readers (∅ : gmap Z nat) (fun d reader =>
         r ← get_reader reader;
         mret (<[RFIDReader.id r := length (RFIDReader.detections r)]> d))) s
      (fun d s' => s' = s /\
         (forall reader r, reader ∈ readers -> reader_heap s !! reader = Some r ->
            d !! RFIDReader.id r = Some (length (RFIDReader.detections r))) /\
         (forall k n, d !! k = Some n ->
            exists reader r, reader ∈ readers /\ reader_heap s !! reader = Some r /\
                             RFIDReader.id r = k))).
  { eapply returns_mono.
    - apply (returns_for_each (fun done d s' => s' = s /\
        (forall x, x ∈ done -> x ∈ readers) /\
        (forall reader r, reader ∈ done -> reader_heap s !! reader = Some r ->
           d !! RFIDReader.id r = Some (length (RFIDReader.detections r))) /\
        (forall k n, d !! k = Some n ->
           exists reader r, reader ∈ done /\
                            reader_heap s !! reader = Some r /\ RFIDReader.id r = k))).
      + intros done b d ? Hb (-> & Hsub & Hget & Hdom).
        unfold valid_readers in Hreaders. rewrite Forall_forall in Hreaders.
        destruct (Hreaders b Hb) as [rb Hrb].
        assert (Hsub' : forall x, x ∈ done ++ [b] -> x ∈ readers).
        { intros x [Hx|Hx%list_elem_of_singleton]%elem_of_app;
            [by apply Hsub | by subst x]. }
        apply returns_bind. eapply returns_eq; [by apply get_reader_run|].
        apply returns_ret. split; [done|]. split; [done|]. split.
        * intros a ra Ha Hra.
          destruct (decide (RFIDReader.id rb = RFIDReader.id ra)) as [Heq|Hne].
          -- assert (b = a) as -> by (apply (Hids b a rb ra); auto).
             rewrite Hrb in Hra. injection Hra as <-. apply lookup_insert_eq.
          -- rewrite lookup_insert_ne by done.
             apply elem_of_app in Ha as [Ha|Ha%list_elem_of_singleton];
               [by apply (Hget a ra)|].
             subst a. rewrite Hrb in Hra. by injection Hra as <-.
        * intros k n Hk. destruct (decide (RFIDReader.id rb = k)) as [<-|Hne].
          -- exists b, rb. split; [apply elem_of_app; right; by apply list_elem_of_singleton|].
             done.
          -- rewrite lookup_insert_ne in Hk by done.
             destruct (Hdom k n Hk) as (c & rc & Hc1 & Hc2 & Hc3).
             exists c, rc. split; [apply elem_of_app; by left | done].
      + split; [done|]. split; [by intros ? ?%elem_of_nil|].
        split; [by intros ? ? ?%elem_of_nil|].
        intros k n Hk. by rewrite lookup_empty in Hk.
    - intros d s' (-> & Hsub & Hget & Hdom). split; [done|]. split; [done|].
      intros k n Hk. destruct (Hdom k n Hk) as (c & rc & ? & ? & ?).
      exists c, rc. auto. }
  apply returns_iff in Hloop as (d & ? & Hrun & -> & Hget & Hdom).
  do 7 (erewrite bind_eq by (by apply count_motos_run)).
  erewrite bind_eq by exact Hrun.
  eexists. split; [reflexivity|]. by split_and!.
Qed.

(** X23. The report gives for the identifier of each reader of the
    simulation the length of its log, and has no other entry, when the
    readers have identifiers of their own. *)
Theorem report_reader_counts sim s :
  wf_sim sim s ->
  distinct_ids s (MottuPatioSimulation.readers sim) ->
  exists rep,
    generate_report sim s = Some (rep, s) /\
    (forall reader r,
       reader ∈ MottuPatioSimulation.readers sim ->
       reader_heap s !! reader = Some r ->
       reader_detections rep !! RFIDReader.id r = Some (length (RFIDReader.detections r))) /\
    (forall k n,
       reader_detections rep !! k = Some n ->
       exists reader r,
         reader ∈ MottuPatioSimulation.readers sim /\
         reader_heap s !! reader = Some r /\ RFIDReader.id r = k).
Proof.
  intros Hwf Hids.
  destruct (generate_report_full sim s Hwf Hids) as (rep & Hrun & _ & _ & _ & Hget & Hdom).
  by exists rep.
Qed.

End TickAndReport.

(** ** A whole session *)

Lemma beyond_reach_in_x r m :
  RFIDReader.range r < Z.abs (RFIDReader.x r - Moto.x m) ->
  ~ (euclid r m <= IZR (RFIDReader.range r))%R.
Proof.
  intros Hfar Hle. apply in_range_spec in Hle.
  unfold in_range, distance_to, Root_leb in Hle.
  rewrite !andb_true_iff, !Z.leb_le in Hle. nia.
Qed.

Lemma within_reach r m :
  0 <= RFIDReader.range r ->
  (RFIDReader.x r - Moto.x m) ^ 2 + (RFIDReader.y r - Moto.y m) ^ 2
    <= RFIDReader.range r * RFIDReader.range r ->
  (euclid r m <= IZR (RFIDReader.range r))%R.
Proof.
  intros Hr Hd. apply in_range_spec. unfold in_range, distance_to, Root_leb.
  rewrite !andb_true_iff, !Z.leb_le. split; [split|]; [nia | done | done].
Qed.

Lemma tally_le_hits s r (motos : list ref) (cond : Moto.t -> bool) :
  (forall moto m, moto ∈ motos -> moto_heap s !! moto = Some m -> cond m = true ->
     within_radius s r moto) ->
  (tally cond (deref s motos) <= length (filter (within_radius s r) motos))%nat.
Proof.
  induction motos as [|moto motos IH]; intros Hin; [done|].
  assert (IH' : (tally cond (deref s motos)
                 <= length (filter (within_radius s r) motos))%nat).
  { apply IH. intros moto' m Hm. apply Hin. by right. }
  simpl deref. rewrite filter_cons.
  destruct (moto_heap s !! moto) as [m|] eqn:Hm.
  - rewrite tally_cons. destruct (cond m) eqn:Hc.
    + rewrite decide_True by (eapply Hin; [left | done | done]). simpl. lia.
    + case_decide; simpl; lia.
  - case_decide; simpl; lia.
Qed.

Section Session.
Variable env : Env.

(** X24. A session as the interpreter runs it, in float64, whatever the
    number of motos and the frames that the animation asks for: it raises
    nothing.  The report counts every moto once by status and once by fuel
    bracket.  Every reader of [READERS] has in the report the number of
    frames times the number of motos within its radius, because no moto
    ever moves.  The readers of the entry and of the exit (identifiers 1
    and 2) detect nothing at all: no moto is created within their radius.
    The reader of the maintenance area (identifier 7) detects at every
    frame every moto that is in maintenance.  The event log of the
    simulation stays empty. *)
Theorem session_report num_motos (frames : list Z) s :
  exists sim rep s',
    Float64.session env num_motos frames s = Some ((sim, rep), s') /\
    total_motos rep = Z.to_nat num_motos /\
    dict_total (status_counts rep) = Z.to_nat num_motos /\
    dict_total (fuel_levels rep) = Z.to_nat num_motos /\
    (forall c, c ∈ READERS ->
       reader_detections rep !! cfg_id c =
         Some (length frames *
               length (filter (within_radius s' (reader_of_config c))
                         (MottuPatioSimulation.motos sim)))%nat) /\
    reader_detections rep !! 1 = Some 0%nat /\
    reader_detections rep !! 2 = Some 0%nat /\
    (exists h, reader_detections rep !! 7 = Some (length frames * h)%nat /\
               (tally (is_status "em manutenção")
                  (deref s' (MottuPatioSimulation.motos sim)) <= h)%nat) /\
    MottuPatioSimulation.events_log sim = [] /\
    all_motos fresh_moto s' (MottuPatioSimulation.motos sim).
Proof.
  destruct (MottuPatioSimulation_init_exact env num_motos s) as (ms & Hlen & Hfresh & Hinit).
  cbv zeta in Hinit.
  set (n := Z.to_nat num_motos) in *.
  set (motos := seq (length (moto_heap s)) n) in *.
  set (readers := seq (length (reader_heap s)) (length READERS)) in *.
  set (sim0 := {| MottuPatioSimulation.motos := motos |}) in Hinit.
  set (s1 := {| clock_reads := S (clock_reads s + 2 * n) |}) in Hinit.
  assert (Hall : all_motos fresh_moto s1 motos).
  { subst motos. rewrite <- Hlen. by apply (all_motos_new fresh_moto ms (moto_heap s)). }
  assert (Hrs1 : forall i c, READERS !! i = Some c ->
            @lookup ref _ _ _ (length (reader_heap s) + i)%nat (reader_heap s1)
              = Some (reader_of_config c)).
  { intros i c Hc. subst s1. cbn [reader_heap].
    rewrite lookup_app_r by lia.
    replace (length (reader_heap s) + i - length (reader_heap s))%nat with i by lia.
    by rewrite list_lookup_fmap, Hc. }
  assert (Hin_readers : forall a, a ∈ readers ->
            exists i c, a = (length (reader_heap s) + i)%nat /\ READERS !! i = Some c).
  { intros a Ha. subst readers. apply elem_of_seq in Ha.
    destruct (lookup_lt_is_Some_2 READERS (a - length (reader_heap s))) as [c Hc]; [lia|].
    exists (a - length (reader_heap s))%nat, c. split; [lia | done]. }
  assert (Hwf0 : wf_sim sim0 s1).
  { split; [by eapply all_motos_valid|]. unfold valid_readers. apply Forall_forall.
    intros a Ha. destruct (Hin_readers a Ha) as (i & c & -> & Hc).
    exists (reader_of_config c). exact (Hrs1 i c Hc). }
  pose proof (run_frames_exact env sim0 frames s1 Hwf0) as Hrun. cbv zeta in Hrun.
  apply returns_iff in Hrun
    as (sim1 & s2 & Hrun & Hmotos1 & Hreaders1 & Hlog & _ & _ & _ & Hm2 & _ & _ & _ & Hlogs).
  cbn [MottuPatioSimulation.motos MottuPatioSimulation.readers
       MottuPatioSimulation.events_log sim0] in *.
  assert (Hrs2 : forall i c, READERS !! i = Some c ->
            exists entries,
              @lookup ref _ _ _ (length (reader_heap s) + i)%nat (reader_heap s2) =
                Some (RFIDReader.set_detections entries (reader_of_config c)) /\
              length entries =
                (length frames *
                 length (filter (within_radius s1 (reader_of_config c)) motos))%nat).
  { intros i c Hc. pose proof (Hlogs (length (reader_heap s) + i)%nat) as Ha.
    rewrite occ_NoDup in Ha by apply NoDup_seq.
    rewrite decide_True in Ha.
    2:{ subst readers. apply elem_of_seq. apply lookup_lt_Some in Hc. lia. }
    unfold log_grown, hits in Ha. rewrite (Hrs1 i c Hc) in Ha.
    destruct Ha as (entries & Hr2 & Hlen2 & _). exists entries.
    rewrite Nat.mul_1_l in Hlen2. by split. }
  assert (Hwf1 : wf_sim sim1 s2).
  { split.
    - rewrite Hmotos1. eapply valid_motos_ext; [|by eapply all_motos_valid]. by rewrite Hm2.
    - rewrite Hreaders1. unfold valid_readers. apply Forall_forall. intros a Ha.
      destruct (Hin_readers a Ha) as (i & c & -> & Hc).
      destruct (Hrs2 i c Hc) as (entries & -> & _). by eexists. }
  assert (Hids : distinct_ids s2 (MottuPatioSimulation.readers sim1)).
  { rewrite Hreaders1. intros a b ra rb Ha Hb Hra Hrb Hid.
    destruct (Hin_readers a Ha) as (i & ca & -> & Hca).
    destruct (Hin_readers b Hb) as (j & cb & -> & Hcb).
    destruct (Hrs2 i ca Hca) as (ea & Hra' & _).
    destruct (Hrs2 j cb Hcb) as (eb & Hrb' & _).
    rewrite Hra in Hra'. rewrite Hrb in Hrb'.
    injection Hra' as ->. injection Hrb' as ->. simpl in Hid.
    f_equal.
    assert (Hnd : NoDup (cfg_id <$> READERS)) by (apply (bool_decide_unpack _); by vm_compute).
    eapply (NoDup_lookup _ i j _ Hnd); rewrite list_lookup_fmap.
    - by rewrite Hca.
    - rewrite Hcb. simpl. by rewrite Hid. }
  destruct (generate_report_full sim1 s2 Hwf1 Hids)
    as (rep & Hrep & Htotal & Hstatus & Hfuel & Hget & _).
  cbv zeta in Hstatus, Hfuel.
  assert (Hcount : forall i c, READERS !! i = Some c ->
            reader_detections rep !! cfg_id c =
              Some (length frames *
                    length (filter (within_radius s1 (reader_of_config c)) motos))%nat).
  { intros i c Hc. destruct (Hrs2 i c Hc) as (entries & Hr2 & Hlen2).
    rewrite <- Hlen2.
    apply (Hget (length (reader_heap s) + i)%nat
             (RFIDReader.set_detections entries (reader_of_config c))); [|done].
    rewrite Hreaders1. subst readers. apply elem_of_seq. apply lookup_lt_Some in Hc. lia. }
  assert (Hfresh1 : forall (moto : ref) m, moto ∈ motos -> moto_heap s1 !! moto = Some m ->
            fresh_moto m).
  { intros moto m Hin Hm. unfold all_motos in Hall. rewrite Forall_forall in Hall.
    destruct (Hall moto Hin) as (m' & Hm' & Hf). congruence. }
  assert (Hnone : forall c, Z.abs (cfg_x c - 50) >= 45 -> cfg_range c <= 15 ->
            filter (within_radius s1 (reader_of_config c)) motos = []).
  { intros c Hx Hr. apply filter_none. apply Forall_forall.
    intros moto Hin (m & Hm & Hle). revert Hle. apply beyond_reach_in_x.
    destruct (Hfresh1 moto m Hin Hm) as [_ _ _ Hzone _ _]. simpl.
    case_decide; lia. }
  assert (Hlen1 : length (MottuPatioSimulation.motos sim1) = n).
  { rewrite Hmotos1. subst motos. apply length_seq. }
  assert (Hexact : exact_zone s1 readers motos).
  { intros reader r Hreader Hr moto m Hmoto Hm.
    destruct (Hin_readers reader Hreader) as (i & c & -> & Hc).
    rewrite (Hrs1 i c Hc) in Hr. injection Hr as <-.
    assert (Hyard : 0 <= cfg_x c <= 100 /\ 0 <= cfg_y c <= 100 /\ 0 <= cfg_range c <= 20).
    { apply list_elem_of_lookup_2 in Hc. revert c Hc. apply Forall_forall.
      repeat constructor; simpl; lia. }
    destruct (Hfresh1 moto m Hmoto Hm) as [_ _ _ Hplace _ _].
    assert (0 <= Moto.x m <= 100 /\ 0 <= Moto.y m <= 100) by (case_decide; lia).
    unfold float64_exact. simpl.
    change (2 ^ 52) with 4503599627370496. change (2 ^ 53) with 9007199254740992.
    split; [nia | lia]. }
  assert (Hrun64 : Float64.run_frames env sim0 frames s1 = Some (sim1, s2)).
  { by rewrite (run_frames_exact_zone env sim0 frames s1 Hwf0 Hexact). }
  assert (Hsame : forall c,
            filter (within_radius s2 (reader_of_config c)) motos =
            filter (within_radius s1 (reader_of_config c)) motos).
  { intros c. apply list_filter_iff. intros moto. unfold within_radius. by rewrite Hm2. }
  exists sim1, rep, s2. split.
  { unfold Float64.session. erewrite bind_eq by exact Hinit.
    erewrite bind_eq by exact Hrun64.
    by erewrite bind_eq by exact Hrep. }
  assert (Hdl : length (deref s2 (MottuPatioSimulation.motos sim1)) = n).
  { rewrite deref_length by (by destruct Hwf1). done. }
  split; [congruence|]. split.
  { rewrite Hstatus, status_counts_total, status_tallies; [done|].
    eapply all_motos_deref. rewrite Hmotos1.
    eapply all_motos_heap; [exact Hm2|].
    unfold all_motos in *. eapply Forall_impl; [exact Hall|].
    intros moto (m & Hm & Hf). exists m. split; [done|]. apply Hf. }
  split; [by rewrite Hfuel, fuel_levels_total, fuel_tallies|].
  split.
  { intros c Hc. apply list_elem_of_lookup in Hc as [i Hc].
    rewrite Hmotos1, Hsame. by eapply Hcount. }
  split.
  { etrans; [exact (Hcount 0%nat _ eq_refl)|].
    rewrite Hnone by (simpl; lia). simpl length. by rewrite Nat.mul_0_r. }
  split.
  { etrans; [exact (Hcount 1%nat _ eq_refl)|].
    rewrite Hnone by (simpl; lia). simpl length. by rewrite Nat.mul_0_r. }
  split.
  { eexists. split; [exact (Hcount 6%nat _ eq_refl)|].
    rewrite Hmotos1, (deref_ext s2 s1) by done.
    apply tally_le_hits. intros moto m Hin Hm Hst. exists m. split; [done|].
    apply bool_decide_eq_true in Hst.
    destruct (Hfresh1 moto m Hin Hm) as [_ _ _ Hzone _ _].
    rewrite decide_True in Hzone by done.
    apply within_reach; simpl; [lia | nia]. }
  split; [by rewrite Hlog|].
  rewrite Hmotos1. by eapply all_motos_heap.
Qed.

End Session.

Lemma distinct_ids_NoDup s (readers : list ref) :
  NoDup ((fun a : ref => RFIDReader.id <$> reader_heap s !! a) <$> readers) ->
  distinct_ids s readers.
Proof.
  intros Hnd a b ra rb Ha Hb Hra Hrb Hid.
  apply list_elem_of_lookup in Ha as [i Hi]. apply list_elem_of_lookup in Hb as [j Hj].
  assert (i = j) as ->; [|congruence].
  eapply (NoDup_lookup _ i j _ Hnd); rewrite list_lookup_fmap.
  - rewrite Hi. simpl. by rewrite Hra.
  - rewrite Hj. simpl. by rewrite Hrb, Hid.
Qed.

(** * Concrete runs *)

(** ** The scenarios of the specification, run on the code *)

Example detect_on_reader_far_and_boundary :
  fst <$> detect_motos env0 0%nat [0; 1; 2]%nat yard0 = Some [0; 2]%nat.
Proof. vm_compute. reflexivity. Qed.

Example detect_on_reader_far_and_boundary_float64 :
  fst <$> Float64.detect_motos env0 0%nat [0; 1; 2]%nat yard0 = Some [0; 2]%nat.
Proof. vm_compute. reflexivity. Qed.

(** [np.sqrt] refuses an [int] of 2^64 or more: the detection raises. *)
Example detect_raises_on_huge_distance :
  Float64.detect_motos env0 0%nat [0%nat]
    {| clock_reads := 0; rand_draws := 0; uuid_draws := 0;
       moto_heap := [moto_at (2 ^ 32) 0 50 "disponível"];
       reader_heap := [reader_far] |} = None.
Proof. vm_compute. reflexivity. Qed.

Example service_scenario :
  (fun '(_, s) => moto_heap s !! 3%nat) <$> perform_maintenance env0 3%nat yard0 =
  Some (Some
    {| Moto.id := "3f2b8c1e"; Moto.model := "CG 160"; Moto.status := "disponível";
       Moto.fuel_level := 100; Moto.last_maintenance := 1000; Moto.x := 30; Moto.y := 75;
       Moto.movement_history :=
         [{| snap_timestamp := 1001; snap_x := 30; snap_y := 75;
             snap_status := "disponível"; snap_fuel_level := 100 |}];
       Moto.color := "green" |}).
Proof. vm_compute. reflexivity. Qed.

Example move_scenario :
  (fun '(_, s) => Moto.x <$> moto_heap s !! 4%nat) <$> move env0 4%nat 200 0 yard0 =
  Some (Some 100).
Proof. vm_compute. reflexivity. Qed.

(** A status outside the three, which the script never sets, falls in no
    status count of the report; the fuel brackets still cover every moto. *)
Example unknown_status_is_not_counted :
  (fun '(rep, _) => (total_motos rep, dict_total (status_counts rep),
                     dict_total (fuel_levels rep))) <$>
    (update_status env0 0%nat "vendida";; generate_report sim2_built.1) sim2_built.2
  = Some (2, 1, 2)%nat.
Proof. vm_compute. reflexivity. Qed.

Lemma yard0_valid : valid_motos yard0 [0; 1; 2]%nat.
Proof. unfold valid_motos. repeat constructor; by eexists. Qed.

Lemma sim2_ticked_reach : sim_reach env0 sim2_ticked.1 sim2_ticked.2.
Proof.
  eapply (reach_tick env0 sim2_built.1 sim2_reserved 0).
  - eapply (reach_call env0 sim2_built.1 sim2_built.2 0%nat (UpdateStatus "reservada")).
    + eapply (reach_init env0 2 empty_store). vm_compute. reflexivity.
    + vm_compute. set_solver.
    + vm_compute. set_solver.
    + vm_compute. reflexivity.
  - vm_compute. reflexivity.
Qed.


(** ** The properties at these runs *)

Lemma fuel_level_stays_in_range_witness :
  moto_heap yard0 !! 3%nat = Some (moto_at 30 75 10 "em manutenção") /\
  fuel_ok (moto_at 30 75 10 "em manutenção") /\
  exists s' m',
    for_each [-25; 500; -7] tt (fun _ amount => update_fuel env0 3%nat amount) yard0
      = Some (tt, s') /\
    moto_heap s' !! 3%nat = Some m' /\ fuel_ok m'.
Proof.
  assert (H1 : moto_heap yard0 !! 3%nat = Some (moto_at 30 75 10 "em manutenção"))
    by reflexivity.
  assert (H2 : fuel_ok (moto_at 30 75 10 "em manutenção")) by (unfold fuel_ok; simpl; lia).
  split; [exact H1|]. split; [exact H2|].
  exact (proj2 (fuel_level_stays_in_range env0) [-25; 500; -7] yard0 3%nat _ H1 H2).
Defined.

Lemma position_stays_in_yard_witness :
  moto_heap yard0 !! 4%nat = Some (moto_at 90 40 50 "disponível") /\
  in_yard (moto_at 90 40 50 "disponível") /\
  (exists s' m',
     for_each [(200, 0); (-500, 300); (3, -1000)] tt
       (fun _ '(dx, dy) => move env0 4%nat dx dy) yard0 = Some (tt, s') /\
     moto_heap s' !! 4%nat = Some m' /\ in_yard m') /\
  (exists s' m',
     move env0 4%nat 200 0 yard0 = Some (tt, s') /\
     moto_heap s' !! 4%nat = Some m' /\ Moto.x m' = 100).
Proof.
  assert (H1 : moto_heap yard0 !! 4%nat = Some (moto_at 90 40 50 "disponível"))
    by reflexivity.
  assert (H2 : in_yard (moto_at 90 40 50 "disponível"))
    by (unfold in_yard, PATIO_WIDTH, PATIO_HEIGHT; simpl; lia).
  destruct (position_stays_in_yard env0) as (_ & Hmoves & Hscenario).
  split; [exact H1|]. split; [exact H2|]. split.
  - exact (Hmoves [(200, 0); (-500, 300); (3, -1000)] yard0 4%nat _ H1 H2).
  - exact (Hscenario yard0 4%nat _ H1 eq_refl).
Defined.

Lemma change_appends_one_snapshot_witness :
  moto_heap yard0 !! 3%nat = Some (moto_at 30 75 10 "em manutenção") /\
  exists s' m',
    update_fuel env0 3%nat 25 yard0 = Some (tt, s') /\
    moto_heap s' !! 3%nat = Some m' /\
    Moto.fuel_level m' = clamp 0 100 (10 + 25) /\
    appends_snapshot 1000 (moto_at 30 75 10 "em manutenção") m'.
Proof.
  assert (H1 : moto_heap yard0 !! 3%nat = Some (moto_at 30 75 10 "em manutenção"))
    by reflexivity.
  split; [exact H1|].
  exact (proj1 (proj2 (change_appends_one_snapshot env0 yard0 3%nat _ H1)) 25).
Defined.

Lemma perform_maintenance_resets_witness :
  moto_heap yard0 !! 3%nat = Some (moto_at 30 75 10 "em manutenção") /\
  exists s' m',
    perform_maintenance env0 3%nat yard0 = Some (tt, s') /\
    moto_heap s' !! 3%nat = Some m' /\
    Moto.fuel_level m' = 100 /\ Moto.status m' = "disponível" /\
    Moto.color m' = "green" /\ Moto.last_maintenance m' = 1000.
Proof.
  assert (H1 : moto_heap yard0 !! 3%nat = Some (moto_at 30 75 10 "em manutenção"))
    by reflexivity.
  split; [exact H1|].
  exact (perform_maintenance_resets env0 yard0 3%nat _ H1).
Defined.

Lemma yard0_exact : exact_on yard0 reader_1 [0; 1; 2]%nat.
Proof. apply exact_onb_spec. vm_compute. reflexivity. Qed.

Lemma detect_motos_returns_motos_in_radius_witness :
  reader_heap yard0 !! 0%nat = Some reader_1 /\
  valid_motos yard0 [0; 1; 2]%nat /\
  exact_on yard0 reader_1 [0; 1; 2]%nat /\
  exists s', Float64.detect_motos env0 0%nat [0; 1; 2]%nat yard0 = Some ([0; 2]%nat, s') /\
             filter (within_radius yard0 reader_1) [0; 1; 2]%nat = [0; 2]%nat.
Proof.
  assert (H1 : reader_heap yard0 !! 0%nat = Some reader_1) by reflexivity.
  split; [exact H1|]. split; [exact yard0_valid|]. split; [exact yard0_exact|].
  assert (Hf : filter (within_radius yard0 reader_1) [0; 1; 2]%nat = [0; 2]%nat)
    by (vm_compute; reflexivity).
  destruct (detect_motos_returns_motos_in_radius env0 yard0 0%nat reader_1 [0; 1; 2]%nat
              H1 yard0_valid yard0_exact) as (detected & s' & Hrun & Hdet & _).
  exists s'. split; [|exact Hf].
  rewrite Hrun. do 2 f_equal. by rewrite Hdet.
Defined.

(** Beyond the numbers on which float64 is exact: the square root of
    (2^26 + 1)^2 + 1 is rounded to 2^26 + 1, and the moto is detected from
    farther than the radius. *)
Lemma detect_motos_beyond_radius :
  reader_heap yard_far !! 0%nat = Some reader_far /\
  valid_motos yard_far [0%nat] /\
  (exists s', Float64.detect_motos env0 0%nat [0%nat] yard_far = Some ([0%nat], s')) /\
  filter (within_radius yard_far reader_far) [0%nat] = [].
Proof.
  split; [reflexivity|]. split; [repeat constructor; by eexists|].
  split; [eexists; vm_compute; reflexivity|].
  vm_compute. reflexivity.
Defined.

Lemma detect_motos_only_appends_to_log_witness :
  reader_heap yard0 !! 0%nat = Some reader_1 /\
  valid_motos yard0 [0; 1; 2]%nat /\
  float64_defined yard0 reader_1 [0; 1; 2]%nat /\
  exists s1 r1 s2 r2,
    Float64.detect_motos env0 0%nat [0; 1; 2]%nat yard0 = Some ([0; 2]%nat, s1) /\
    moto_heap s1 = moto_heap yard0 /\
    reader_heap s1 !! 0%nat = Some r1 /\
    RFIDReader.detections r1 =
      log_events (clock env0) 0 reader_1 (deref yard0 [0; 2]%nat) /\
    Float64.detect_motos env0 0%nat [0; 1; 2]%nat s1 = Some ([0; 2]%nat, s2) /\
    reader_heap s2 !! 0%nat = Some r2 /\
    length (RFIDReader.detections r1) = 2%nat /\
    length (RFIDReader.detections r2) = 4%nat.
Proof.
  assert (H1 : reader_heap yard0 !! 0%nat = Some reader_1) by reflexivity.
  assert (H3 : float64_defined yard0 reader_1 [0; 1; 2]%nat)
    by (apply float64_exact_defined, yard0_exact).
  split; [exact H1|]. split; [exact yard0_valid|]. split; [exact H3|].
  destruct (detect_motos_only_appends_to_log env0 yard0 0%nat reader_1 [0; 1; 2]%nat
              H1 yard0_valid H3)
    as (detected & s1 & r1 & s2 & r2 & Hrun & Hdet & Hm & _ & Hr1 & _ & Hlog & _ & Hrun2
        & _ & Hr2 & _ & Hl1 & Hl2).
  assert (Hd : detected = [0; 2]%nat) by (rewrite Hdet; vm_compute; reflexivity).
  rewrite Hd in *.
  exists s1, r1, s2, r2. repeat split; assumption.
Defined.

Lemma get_recent_detections_filters_log_witness :
  reader_heap yard0_logged !! 0%nat = Some reader_1_logged /\
  length (RFIDReader.detections reader_1_logged) = 2%nat /\
  window_ok (clock env_2025 (clock_reads yard0_logged)) 60 /\
  (exists recent s',
     get_recent_detections env_2025 0%nat 60 yard0_logged = Some (recent, s') /\
     recent = drop 1 (RFIDReader.detections reader_1_logged) /\
     reader_heap s' = reader_heap yard0_logged /\ moto_heap s' = moto_heap yard0_logged) /\
  ~ window_ok (clock env_2025 (clock_reads yard0_logged)) 100000000000000 /\
  get_recent_detections env_2025 0%nat 100000000000000 yard0_logged = None.
Proof.
  assert (H1 : reader_heap yard0_logged !! 0%nat = Some reader_1_logged) by reflexivity.
  assert (H2 : window_ok (clock env_2025 (clock_reads yard0_logged)) 60)
    by (split; split; by vm_compute).
  assert (H3 : ~ window_ok (clock env_2025 (clock_reads yard0_logged)) 100000000000000).
  { intros [[_ Hdays] _]. by vm_compute in Hdays. }
  split; [exact H1|]. split; [reflexivity|]. split; [exact H2|].
  destruct (get_recent_detections_filters_log env_2025 yard0_logged 0%nat reader_1_logged 60 H1)
    as [Hin _].
  destruct (Hin H2) as (recent & s' & Hrun & Hrecent & _ & _ & Hr & Hm).
  split.
  { exists recent, s'. split; [exact Hrun|]. split; [|by split].
    rewrite Hrecent. vm_compute. reflexivity. }
  split; [exact H3|].
  exact (proj2 (get_recent_detections_filters_log env_2025 yard0_logged 0%nat
                  reader_1_logged 100000000000000 H1) H3).
Defined.

(** A window of 10^14 seconds is more than [timedelta] can hold: the call
    raises [OverflowError] and returns nothing. *)
Lemma get_recent_detections_overflow :
  reader_heap yard0_logged !! 0%nat = Some reader_1_logged /\
  get_recent_detections env_2025 0%nat 100000000000000 yard0_logged = None.
Proof. split; [reflexivity|]. vm_compute. reflexivity. Defined.


Lemma report_counts_add_up_witness :
  exists rep,
    generate_report sim2_ticked.1 sim2_ticked.2 = Some (rep, sim2_ticked.2) /\
    total_motos rep = 2%nat /\
    dict_total (status_counts rep) = 2%nat /\
    dict_total (fuel_levels rep) = 2%nat.
Proof.
  destruct (report_counts_add_up env0 _ _ sim2_ticked_reach)
    as (rep & Hrun & Htotal & _ & _ & Hstatus & Hfuel).
  exists rep. rewrite Hstatus, Hfuel, Htotal. by repeat split.
Defined.

Lemma tick_leaves_motos_witness :
  wf_sim sim2_built.1 sim2_reserved /\
  exists out sim' s',
    update_visualization env0 sim2_built.1 7 sim2_reserved = Some (out, sim', s') /\
    moto_heap s' = moto_heap sim2_reserved.
Proof.
  assert (H1 : wf_sim sim2_built.1 sim2_reserved).
  { split; [unfold valid_motos | unfold valid_readers]; simpl;
      repeat constructor; by eexists. }
  split; [exact H1|].
  destruct (tick_leaves_motos env0 sim2_built.1 sim2_reserved 7 H1)
    as (out & sim' & s' & Hrun & Hm & _).
  by exists out, sim', s'.
Defined.

(** ** The further properties at these runs *)

Lemma sim2_reserved_wf : wf_sim sim2_built.1 sim2_reserved.
Proof.
  split; [unfold valid_motos | unfold valid_readers]; simpl;
    repeat constructor; by eexists.
Qed.

Lemma sim2_ticked_wf : wf_sim sim2_ticked.1 sim2_ticked.2.
Proof.
  split; [unfold valid_motos | unfold valid_readers]; simpl;
    repeat constructor; by eexists.
Qed.

Lemma sim2_readers_NoDup : NoDup (MottuPatioSimulation.readers sim2_built.1).
Proof. exact (NoDup_seq 0 7). Qed.

Lemma sim2_ticked_distinct_ids :
  distinct_ids sim2_ticked.2 (MottuPatioSimulation.readers sim2_ticked.1).
Proof. apply distinct_ids_NoDup. apply (bool_decide_unpack _). by vm_compute. Qed.

Lemma color_follows_status_witness :
  moto_heap yard0 !! 3%nat = Some (moto_at 30 75 10 "em manutenção") /\
  color_matches (moto_at 30 75 10 "em manutenção") /\
  exists s' m',
    calls_moto env0 3%nat
      [UpdateStatus "vendida"; PerformMaintenance; UpdateStatus "reservada"] yard0
      = Some (tt, s') /\
    moto_heap s' !! 3%nat = Some m' /\ color_matches m'.
Proof.
  assert (H1 : moto_heap yard0 !! 3%nat = Some (moto_at 30 75 10 "em manutenção"))
    by reflexivity.
  assert (H2 : color_matches (moto_at 30 75 10 "em manutenção"))
    by (right; right; by repeat split).
  split; [exact H1|]. split; [exact H2|].
  exact (proj2 (color_follows_status env0)
           [UpdateStatus "vendida"; PerformMaintenance; UpdateStatus "reservada"]
           yard0 3%nat _ H1 H2).
Defined.

Lemma history_is_append_only_witness :
  moto_heap yard0 !! 3%nat = Some (moto_at 30 75 10 "em manutenção") /\
  exists s' m' snaps,
    calls_moto env0 3%nat [Move 1 1; UpdateFuel 5] yard0 = Some (tt, s') /\
    moto_heap s' !! 3%nat = Some m' /\
    Moto.movement_history m' = snaps /\ length snaps = 2%nat.
Proof.
  assert (H1 : moto_heap yard0 !! 3%nat = Some (moto_at 30 75 10 "em manutenção"))
    by reflexivity.
  split; [exact H1|].
  exact (history_is_append_only env0 [Move 1 1; UpdateFuel 5] yard0 3%nat _ H1).
Defined.

Lemma last_snapshot_is_current_witness :
  moto_heap yard0 !! 3%nat = Some (moto_at 30 75 10 "em manutenção") /\
  exists s' m',
    calls_moto env0 3%nat [Move 1 1; UpdateFuel 5] yard0 = Some (tt, s') /\
    moto_heap s' !! 3%nat = Some m' /\ history_up_to_date m'.
Proof.
  assert (H1 : moto_heap yard0 !! 3%nat = Some (moto_at 30 75 10 "em manutenção"))
    by reflexivity.
  split; [exact H1|].
  exact (proj2 (last_snapshot_is_current env0) (Move 1 1) [UpdateFuel 5] yard0 3%nat _ H1).
Defined.

Lemma moto_calls_write_one_moto_witness :
  moto_heap yard0 !! 3%nat = Some (moto_at 30 75 10 "em manutenção") /\
  exists s' m',
    calls_moto env0 3%nat [Move 1 1; PerformMaintenance] yard0 = Some (tt, s') /\
    moto_heap s' !! 3%nat = Some m' /\
    Moto.id m' = "3f2b8c1e" /\
    moto_heap s' !! 4%nat = moto_heap yard0 !! 4%nat /\
    reader_heap s' = reader_heap yard0 /\
    clock_reads s' = 3%nat.
Proof.
  assert (H1 : moto_heap yard0 !! 3%nat = Some (moto_at 30 75 10 "em manutenção"))
    by reflexivity.
  split; [exact H1|].
  destruct (moto_calls_write_one_moto env0 [Move 1 1; PerformMaintenance] yard0 3%nat _ H1)
    as (s' & m' & Hrun & Hm & Hid & _ & Hother & _ & Hreaders & _ & _ & Hclock).
  exists s', m'. split; [exact Hrun|]. split; [exact Hm|]. split; [exact Hid|].
  split; [apply Hother; discriminate|]. split; [exact Hreaders | exact Hclock].
Defined.

Lemma moves_add_up_inside_yard_witness :
  moto_heap yard0 !! 4%nat = Some (moto_at 90 40 50 "disponível") /\
  0 <= 90 + 5 <= PATIO_WIDTH /\ 0 <= 40 + 5 <= PATIO_HEIGHT /\
  exists s2 m2,
    calls_moto env0 4%nat [Move 5 5; Move (-5) (-5)] yard0 = Some (tt, s2) /\
    moto_heap s2 !! 4%nat = Some m2 /\
    Moto.x m2 = 90 /\ Moto.y m2 = 40.
Proof.
  assert (H1 : moto_heap yard0 !! 4%nat = Some (moto_at 90 40 50 "disponível"))
    by reflexivity.
  assert (H2 : 0 <= 90 + 5 <= PATIO_WIDTH) by (unfold PATIO_WIDTH; lia).
  assert (H3 : 0 <= 40 + 5 <= PATIO_HEIGHT) by (unfold PATIO_HEIGHT; lia).
  assert (H4 : in_yard (moto_at 90 40 50 "disponível"))
    by (unfold in_yard, PATIO_WIDTH, PATIO_HEIGHT; simpl; lia).
  split; [exact H1|]. split; [exact H2|]. split; [exact H3|].
  destruct (moves_add_up_inside_yard env0 yard0 4%nat _ 5 5 (-5) (-5) H1 H2 H3)
    as (s2 & m2 & _ & _ & Hrun & Hm & _ & _ & _ & _ & Hback).
  exists s2, m2. split; [exact Hrun|]. split; [exact Hm|].
  exact (Hback H4 eq_refl eq_refl).
Defined.

Lemma fuel_changes_add_up_witness :
  moto_heap yard0 !! 3%nat = Some (moto_at 30 75 10 "em manutenção") /\
  0 <= 10 + 25 <= 100 /\
  exists s2 m2,
    calls_moto env0 3%nat [UpdateFuel 25; UpdateFuel (-25)] yard0 = Some (tt, s2) /\
    moto_heap s2 !! 3%nat = Some m2 /\
    Moto.fuel_level m2 = 10.
Proof.
  assert (H1 : moto_heap yard0 !! 3%nat = Some (moto_at 30 75 10 "em manutenção"))
    by reflexivity.
  assert (H2 : 0 <= 10 + 25 <= 100) by lia.
  assert (H3 : fuel_ok (moto_at 30 75 10 "em manutenção")) by (unfold fuel_ok; simpl; lia).
  split; [exact H1|]. split; [exact H2|].
  destruct (fuel_changes_add_up env0 yard0 3%nat _ 25 (-25) H1 H2)
    as (s2 & m2 & Hrun & Hm & _ & Hback & _).
  exists s2, m2. split; [exact Hrun|]. split; [exact Hm|].
  exact (Hback H3 eq_refl).
Defined.

Lemma perform_maintenance_twice_witness :
  moto_heap yard0 !! 3%nat = Some (moto_at 30 75 10 "em manutenção") /\
  exists s1 m1 s2 m2,
    perform_maintenance env0 3%nat yard0 = Some (tt, s1) /\
    moto_heap s1 !! 3%nat = Some m1 /\
    perform_maintenance env0 3%nat s1 = Some (tt, s2) /\
    moto_heap s2 !! 3%nat = Some m2 /\
    Moto.fuel_level m2 = Moto.fuel_level m1 /\
    Moto.status m2 = Moto.status m1 /\
    Moto.color m2 = Moto.color m1 /\
    Moto.last_maintenance m2 = 1002.
Proof.
  assert (H1 : moto_heap yard0 !! 3%nat = Some (moto_at 30 75 10 "em manutenção"))
    by reflexivity.
  split; [exact H1|].
  destruct (perform_maintenance_twice env0 yard0 3%nat _ H1)
    as (s1 & m1 & s2 & m2 & Hrun1 & Hm1 & Hrun2 & Hm2 & Hfuel & Hstatus & Hcolor
        & _ & _ & Hlast & _).
  exists s1, m1, s2, m2. repeat split; assumption.
Defined.

Lemma creation_identifier_witness :
  exists self s' m,
    Moto_init env0 (Some "M001") empty_store = Some (self, s') /\
    moto_heap s' !! self = Some m /\
    Moto.id m = "M001" /\ uuid_draws s' = 0%nat.
Proof.
  destruct (creation_identifier env0 (Some "M001") empty_store)
    as (self & s' & m & Hrun & Hm & Hgiven & _).
  exists self, s', m. split; [exact Hrun|]. split; [exact Hm|].
  apply (Hgiven "M001" eq_refl). discriminate.
Defined.



Lemma detect_motos_app_witness :
  reader_heap yard0 !! 0%nat = Some reader_1 /\
  valid_motos yard0 ([0; 1] ++ [2])%nat /\
  detect_motos env0 0%nat ([0; 1] ++ [2])%nat yard0 =
    (detected1 ← detect_motos env0 0%nat [0; 1]%nat;
     detected2 ← detect_motos env0 0%nat [2]%nat;
     mret (detected1 ++ detected2)) yard0.
Proof.
  assert (H1 : reader_heap yard0 !! 0%nat = Some reader_1) by reflexivity.
  split; [exact H1|]. split; [exact yard0_valid|].
  exact (detect_motos_app env0 yard0 0%nat reader_1 [0; 1]%nat [2]%nat H1 yard0_valid).
Defined.

Lemma detect_motos_monotone_in_radius_witness :
  reader_heap yard_radii !! 0%nat = Some reader_1 /\
  reader_heap yard_radii !! 1%nat = Some (reader_radius 50) /\
  same_place reader_1 (reader_radius 50) /\
  RFIDReader.range reader_1 <= RFIDReader.range (reader_radius 50) /\
  valid_motos yard_radii [0; 1; 2]%nat /\
  exact_on yard_radii reader_1 [0; 1; 2]%nat /\
  exact_on yard_radii (reader_radius 50) [0; 1; 2]%nat /\
  exists s1 s2,
    Float64.detect_motos env0 0%nat [0; 1; 2]%nat yard_radii = Some ([0; 2]%nat, s1) /\
    Float64.detect_motos env0 1%nat [0; 1; 2]%nat yard_radii = Some ([0; 1; 2]%nat, s2) /\
    [0; 2]%nat `sublist_of` [0; 1; 2]%nat.
Proof.
  assert (H1 : reader_heap yard_radii !! 0%nat = Some reader_1) by reflexivity.
  assert (H2 : reader_heap yard_radii !! 1%nat = Some (reader_radius 50)) by reflexivity.
  assert (H3 : same_place reader_1 (reader_radius 50)) by (split; reflexivity).
  assert (H4 : RFIDReader.range reader_1 <= RFIDReader.range (reader_radius 50))
    by (simpl; lia).
  assert (H5 : valid_motos yard_radii [0; 1; 2]%nat) by exact yard0_valid.
  assert (H6 : exact_on yard_radii reader_1 [0; 1; 2]%nat)
    by (apply exact_onb_spec; vm_compute; reflexivity).
  assert (H7 : exact_on yard_radii (reader_radius 50) [0; 1; 2]%nat)
    by (apply exact_onb_spec; vm_compute; reflexivity).
  split; [exact H1|]. split; [exact H2|]. split; [exact H3|]. split; [exact H4|].
  split; [exact H5|]. split; [exact H6|]. split; [exact H7|].
  destruct (detect_motos_monotone_in_radius env0 yard_radii 0%nat 1%nat _ _ [0; 1; 2]%nat
              H1 H2 H3 H4 H5 H6 H7) as (d1 & s1 & d2 & s2 & Hrun1 & Hrun2 & _ & Hsub).
  assert (Hd1 : d1 = [0; 2]%nat).
  { assert (Some d1 = Some [0; 2]%nat) as [= ->]; [|done].
    change (Some d1) with (fst <$> Some (d1, s1)). rewrite <- Hrun1.
    vm_compute. reflexivity. }
  assert (Hd2 : d2 = [0; 1; 2]%nat).
  { assert (Some d2 = Some [0; 1; 2]%nat) as [= ->]; [|done].
    change (Some d2) with (fst <$> Some (d2, s2)). rewrite <- Hrun2.
    vm_compute. reflexivity. }
  rewrite Hd1, Hd2 in *. by exists s1, s2.
Defined.


Lemma get_recent_detections_window_witness :
  reader_heap yard0_logged !! 0%nat = Some reader_1_logged /\
  60 <= 100 /\
  window_ok (clock env_2025 (clock_reads yard0_logged)) 60 /\
  window_ok (clock env_2025 (clock_reads yard0_logged)) 100 /\
  exists recent1 s1 recent2 s2,
    get_recent_detections env_2025 0%nat 60 yard0_logged = Some (recent1, s1) /\
    get_recent_detections env_2025 0%nat 100 yard0_logged = Some (recent2, s2) /\
    recent1 `sublist_of` recent2 /\
    length recent1 = 1%nat /\
    recent2 = RFIDReader.detections reader_1_logged.
Proof.
  assert (H1 : reader_heap yard0_logged !! 0%nat = Some reader_1_logged) by reflexivity.
  assert (H2 : 60 <= 100) by lia.
  assert (H3 : window_ok (clock env_2025 (clock_reads yard0_logged)) 60)
    by (split; split; by vm_compute).
  assert (H4 : window_ok (clock env_2025 (clock_reads yard0_logged)) 100)
    by (split; split; by vm_compute).
  split; [exact H1|]. split; [exact H2|]. split; [exact H3|]. split; [exact H4|].
  destruct (get_recent_detections_window env_2025 yard0_logged 0%nat _ 60 100 H1 H2 H3 H4)
    as (recent1 & s1 & recent2 & s2 & Hrun1 & Hrun2 & Hrecent1 & Hsub & Hall & _).
  assert (Hwhole : recent2 = RFIDReader.detections reader_1_logged).
  { apply Hall. repeat constructor. }
  exists recent1, s1, recent2, s2. split; [exact Hrun1|]. split; [exact Hrun2|].
  split; [exact Hsub|]. split; [|exact Hwhole].
  rewrite Hrecent1, Hwhole. vm_compute. reflexivity.
Defined.

Lemma sim2_reserved_exact :
  exact_zone sim2_reserved (MottuPatioSimulation.readers sim2_built.1)
    (MottuPatioSimulation.motos sim2_built.1).
Proof. apply exact_zoneb_spec. vm_compute. reflexivity. Qed.

Lemma tick_counts_each_detection_witness :
  wf_sim sim2_built.1 sim2_reserved /\
  exact_zone sim2_reserved (MottuPatioSimulation.readers sim2_built.1)
    (MottuPatioSimulation.motos sim2_built.1) /\
  total_hits sim2_reserved (MottuPatioSimulation.motos sim2_built.1)
    (MottuPatioSimulation.readers sim2_built.1) = 2%nat /\
  exists points text sim' s',
    Float64.update_visualization env0 sim2_built.1 7 sim2_reserved
      = Some ((points, text), sim', s') /\
    MottuPatioSimulation.status_text sim' = text /\
    text = status_text_of 2 0 2 0 2 /\
    clock_reads s' = (clock_reads sim2_reserved + 2 * 2)%nat.
Proof.
  assert (Hhits : total_hits sim2_reserved (MottuPatioSimulation.motos sim2_built.1)
                    (MottuPatioSimulation.readers sim2_built.1) = 2%nat)
    by (vm_compute; reflexivity).
  split; [exact sim2_reserved_wf|]. split; [exact sim2_reserved_exact|].
  split; [exact Hhits|].
  destruct (tick_counts_each_detection env0 sim2_built.1 7 sim2_reserved
              sim2_reserved_wf sim2_reserved_exact)
    as (points & text & sim' & s' & Hrun & Htext & Hshown & Hclock & _).
  rewrite Hhits in Hshown, Hclock.
  exists points, text, sim', s'. split; [exact Hrun|]. split; [exact Htext|].
  split; [exact Hshown | exact Hclock].
Defined.

Lemma tick_extends_reader_logs_witness :
  wf_sim sim2_built.1 sim2_reserved /\
  NoDup (MottuPatioSimulation.readers sim2_built.1) /\
  exact_zone sim2_reserved (MottuPatioSimulation.readers sim2_built.1)
    (MottuPatioSimulation.motos sim2_built.1) /\
  exists out sim' s' entries,
    Float64.update_visualization env0 sim2_built.1 7 sim2_reserved = Some (out, sim', s') /\
    reader_heap s' !! 5%nat = Some (RFIDReader.set_detections entries reader_6) /\
    length entries = 1%nat /\
    Forall (event_in_range reader_6) entries.
Proof.
  split; [exact sim2_reserved_wf|]. split; [exact sim2_readers_NoDup|].
  split; [exact sim2_reserved_exact|].
  destruct (tick_extends_reader_logs env0 sim2_built.1 7 sim2_reserved
              sim2_reserved_wf sim2_readers_NoDup sim2_reserved_exact)
    as (out & sim' & s' & Hrun & Hin & _).
  destruct (Hin 5%nat reader_6) as (entries & Hr & Hlen & Hall).
  - apply (bool_decide_unpack _). by vm_compute.
  - reflexivity.
  - exists out, sim', s', entries. split; [exact Hrun|]. split; [exact Hr|].
    split; [|exact Hall]. rewrite Hlen. vm_compute. reflexivity.
Defined.

Lemma tick_redraws_markers_witness :
  wf_sim sim2_built.1 sim2_reserved /\
  exists points text sim' s',
    update_visualization env0 sim2_built.1 7 sim2_reserved = Some ((points, text), sim', s') /\
    points = plot_moto <$> deref sim2_reserved (MottuPatioSimulation.motos sim2_built.1).
Proof.
  split; [exact sim2_reserved_wf|].
  destruct (tick_redraws_markers env0 sim2_built.1 7 sim2_reserved sim2_reserved_wf)
    as (points & text & sim' & s' & Hrun & _ & _ & Hpoints).
  exists points, text, sim', s'. split; [exact Hrun|]. exact (Hpoints eq_refl).
Defined.

Lemma construction_builds_motos_and_readers_witness :
  exists sim s',
    MottuPatioSimulation_init env0 0 empty_store = Some (sim, s') /\
    moto_heap s' = [] /\
    MottuPatioSimulation.motos sim = [] /\
    wf_sim sim s'.
Proof.
  destruct (construction_builds_motos_and_readers env0 0 empty_store)
    as (sim & s' & ms & Hrun & Hheap & _ & _ & Hnone & _ & Hmotos & _ & _ & _ & _ & _ & Hwf).
  exists sim, s'. rewrite (Hnone (Z.le_refl 0)) in Hheap, Hmotos.
  split; [exact Hrun|]. split; [exact Hheap|]. split; [exact Hmotos | exact Hwf].
Defined.

Lemma ticks_accumulate_witness :
  wf_sim sim2_built.1 sim2_reserved /\
  NoDup (MottuPatioSimulation.readers sim2_built.1) /\
  exact_zone sim2_reserved (MottuPatioSimulation.readers sim2_built.1)
    (MottuPatioSimulation.motos sim2_built.1) /\
  exists sim' s' r',
    Float64.run_frames env0 sim2_built.1 [0; 1; 2] sim2_reserved = Some (sim', s') /\
    moto_heap s' = moto_heap sim2_reserved /\
    reader_heap s' !! 5%nat = Some r' /\
    length (RFIDReader.detections r') = 3%nat.
Proof.
  split; [exact sim2_reserved_wf|]. split; [exact sim2_readers_NoDup|].
  split; [exact sim2_reserved_exact|].
  destruct (ticks_accumulate env0 sim2_built.1 [0; 1; 2] sim2_reserved
              sim2_reserved_wf sim2_readers_NoDup sim2_reserved_exact)
    as (sim' & s' & Hrun & Hmotos & Hin).
  destruct (Hin 5%nat reader_6) as (r' & Hr & Hlen & _).
  - apply (bool_decide_unpack _). by vm_compute.
  - reflexivity.
  - exists sim', s', r'. split; [exact Hrun|]. split; [exact Hmotos|].
    split; [exact Hr|]. rewrite Hlen. vm_compute. reflexivity.
Defined.

Lemma report_of_any_state_witness :
  wf_sim sim2_built.1 sim2_reserved /\
  exists rep,
    generate_report sim2_built.1 sim2_reserved = Some (rep, sim2_reserved) /\
    total_motos rep = 2%nat /\
    dict_total (fuel_levels rep) = total_motos rep /\
    (dict_total (status_counts rep) <= total_motos rep)%nat.
Proof.
  split; [exact sim2_reserved_wf|].
  destruct (report_of_any_state sim2_built.1 sim2_reserved sim2_reserved_wf)
    as (rep & Hrun & Htotal & Hfuel & _ & Hle & _).
  by exists rep.
Defined.

Lemma report_reader_counts_witness :
  wf_sim sim2_ticked.1 sim2_ticked.2 /\
  distinct_ids sim2_ticked.2 (MottuPatioSimulation.readers sim2_ticked.1) /\
  exists rep r,
    generate_report sim2_ticked.1 sim2_ticked.2 = Some (rep, sim2_ticked.2) /\
    reader_heap sim2_ticked.2 !! 6%nat = Some r /\
    reader_detections rep !! 7 = Some (length (RFIDReader.detections r)).
Proof.
  split; [exact sim2_ticked_wf|]. split; [exact sim2_ticked_distinct_ids|].
  destruct (report_reader_counts sim2_ticked.1 sim2_ticked.2
              sim2_ticked_wf sim2_ticked_distinct_ids)
    as (rep & Hrun & Hget & _).
  destruct (reader_heap sim2_ticked.2 !! 6%nat) as [r|] eqn:Hr; [|discriminate Hr].
  exists rep, r. split; [exact Hrun|]. split; [reflexivity|].
  assert (Hid : RFIDReader.id r = 7) by (injection Hr as <-; reflexivity).
  rewrite <- Hid. apply (Hget 6%nat r); [|exact Hr].
  apply (bool_decide_unpack _). by vm_compute.
Defined.
